(** * HR airdrop server: workflow state machine and batched distribution

    A shallow embedding of the TypeScript sources of the HR airdrop MCP
    server: the tool handlers of [HRAirdropServer] (the server class), the
    distribution engine [sendCompressedAirdrop] (utils/compressedAirdrop.ts),
    the wallet provisioning [createCustodialWallets] and the notifier
    [sendWalletEmails] (utils/crossmintUtils.ts) and the fee estimate
    [calculateAirdropFees] (utils/crossmintTransactions.ts).

    Conventions of the embedding.
    - A JS [number] of the workflow state (balance, supply, amount) is an
      exact rational ([Q]); the fee estimates are computed on binary64
      numbers ([float]) with the rounding of the code.  A statement that
      depends on the value of a product of state numbers assumes integer
      operands with a product below 2^53, where binary64 arithmetic is
      exact.  [x || d] on numbers takes [d] when [x] is [undefined] or
      zero.
    - A JS string is the [string] of its UTF-8 bytes; [toLowerCase] acts on
      the ASCII range, [trim] removes every Unicode white space and line
      terminator.
    - The server's single mutable [this.state] is threaded explicitly: a
      handler maps a [ServerState] to an [Outcome] holding the response, the
      next state and the ledger events of the call.
    - The external collaborators (ledger client, custody provider, token
      deployment, CSV file reader, notifier, random source) are the fields of
      a [World] record; every statement quantifies over all worlds.
    - A [throw new McpError(code, msg)] is the completion
      [Throw (McpError code msg)]; an exception of another class that reaches
      the dispatcher becomes the error result [Return (ErrorText _)].  The
      specification's PreconditionError, ValidationError and ExecutionError
      are the codes [InvalidRequest], [InvalidParams] and [InternalError]. *)

From Stdlib Require Import Floats.PrimFloat.
From Stdlib Require Import Ascii String QArith Qround.
From Stdlib Require HexadecimalString Uint63 Qcanon.
From stdpp Require Import gmap strings list fin_maps.
From Equations Require Import Equations.

Local Open Scope string_scope.
Local Open Scope list_scope.

(** ** JavaScript string and array primitives *)

Module Js.

Definition dquote : string := String "034"%char EmptyString.
Definition newline : ascii := "010"%char.
Definition comma : ascii := ","%char.

(** [String.prototype.toLowerCase], ASCII range. *)
Definition lowerChar (c : ascii) : ascii :=
  let n := nat_of_ascii c in
  if (65 <=? n)%nat && (n <=? 90)%nat then ascii_of_nat (n + 32) else c.

Fixpoint toLowerCase (s : string) : string :=
  match s with
  | EmptyString => EmptyString
  | String c rest => String (lowerChar c) (toLowerCase rest)
  end.

(** White space and line terminators of the ASCII range: TAB, LF, VT, FF,
    CR and SP. *)
Definition isSpace (c : ascii) : bool :=
  let n := nat_of_ascii c in
  ((9 <=? n)%nat && (n <=? 13)%nat) || (n =? 32)%nat.

Definition bytes (codes : list nat) : string :=
  string_of_list_ascii (map ascii_of_nat codes).

(** Every white space and line terminator that [trim] removes, as the UTF-8
    bytes of the character: the six of the ASCII range, then U+00A0, U+1680,
    U+2000 to U+200A, U+2028, U+2029, U+202F, U+205F, U+3000 and U+FEFF. *)
Definition whiteSpaces : list string :=
  map (fun n => bytes [n]) [9; 10; 11; 12; 13; 32]%nat
  ++ [bytes [194; 160]; bytes [225; 154; 128]]%nat
  ++ map (fun n => bytes [226; 128; n]%nat) (seq 128 11)
  ++ [bytes [226; 128; 168]; bytes [226; 128; 169]; bytes [226; 128; 175];
      bytes [226; 129; 159]; bytes [227; 128; 128]; bytes [239; 187; 191]]%nat.

(** [s] without its prefix [p], when it starts with it. *)
Fixpoint dropPrefix (p s : string) : option string :=
  match p with
  | EmptyString => Some s
  | String a p' =>
      match s with
      | EmptyString => None
      | String b s' => if Ascii.eqb a b then dropPrefix p' s' else None
      end
  end.

(** [s] without the first of [spaces] that it starts with. *)
Fixpoint dropSpace (spaces : list string) (s : string) : option string :=
  match spaces with
  | [] => None
  | space :: others =>
      match dropPrefix space s with
      | Some rest => Some rest
      | None => dropSpace others s
      end
  end.

(** At most [n] leading [spaces] removed, one after the other. *)
Fixpoint dropSpaces (spaces : list string) (n : nat) (s : string) : string :=
  match n with
  | O => s
  | S n' =>
      match dropSpace spaces s with
      | Some rest => dropSpaces spaces n' rest
      | None => s
      end
  end.

Definition reverse (s : string) : string :=
  string_of_list_ascii (rev (list_ascii_of_string s)).

Definition trimStart (s : string) : string :=
  dropSpaces whiteSpaces (String.length s) s.

Definition trimEnd (s : string) : string :=
  reverse (dropSpaces (map reverse whiteSpaces) (String.length s) (reverse s)).

(** [String.prototype.trim] *)
Definition trim (s : string) : string := trimEnd (trimStart s).

(** [s.split(sep)] for a one-character separator: always at least one
    piece, the empty string splits to one empty piece. *)
Fixpoint split (sep : ascii) (s : string) : list string :=
  match s with
  | EmptyString => [EmptyString]
  | String c rest =>
      if Ascii.eqb c sep then EmptyString :: split sep rest
      else
        match split sep rest with
        | piece :: pieces => String c piece :: pieces
        | [] => [String c EmptyString]
        end
  end.

(** [arr.join(sep)] *)
Fixpoint join (sep : string) (l : list string) : string :=
  match l with
  | [] => EmptyString
  | [x] => x
  | x :: rest => x ++ sep ++ join sep rest
  end.

(** [arr.includes(x)] on strings *)
Definition includes (l : list string) (x : string) : bool :=
  existsb (String.eqb x) l.

(** [arr.slice(i, j)] for [0 <= i <= j]; clamps at the end of the array. *)
Definition slice {A} (l : list A) (i j : nat) : list A :=
  take (j - i) (drop i l).

(** Truthiness of an optional string: [undefined] and [""] are falsy. *)
Definition truthyStr (o : option string) : bool :=
  match o with
  | Some s => negb (String.eqb s EmptyString)
  | None => false
  end.

(** Truthiness of an optional number: [undefined] and [0] are falsy. *)
Definition truthyNum (o : option Q) : bool :=
  match o with
  | Some q => negb (Qeq_bool q 0)
  | None => false
  end.

(** [x || d] on numbers *)
Definition orNum (o : option Q) (d : Q) : Q :=
  match o with
  | Some q => if Qeq_bool q 0 then d else q
  | None => d
  end.

(** [a || b] on strings, [b] a string *)
Definition orStr (o : option string) (d : string) : string :=
  if truthyStr o then match o with Some s => s | None => d end else d.

(** [x || undefined] on strings *)
Definition orUndefined (o : option string) : option string :=
  if truthyStr o then o else None.

End Js.

(** String methods whose names the array methods above already use. *)
Module JsString.

(** [s.startsWith(p)] *)
Definition startsWith (s p : string) : bool := String.prefix p s.

(** [s.includes(p)] *)
Fixpoint includes (s p : string) : bool :=
  String.prefix p s ||
  match s with
  | EmptyString => false
  | String _ rest => includes rest p
  end.

End JsString.

(** ** Distribution engine: batching (utils/compressedAirdrop.ts) *)

Definition batchSize : nat := 5.

(** The loop [for (let i = 0; i < recipients.length; i += batchSize)
    batches.push(recipients.slice(i, i + batchSize))], started at index [i]. *)
Equations? batchesFrom {A} (recipients : list A) (i : nat) : list (list A)
  by wf (length recipients - i) lt :=
  batchesFrom recipients i with decide (i < length recipients) := {
    | left _ => Js.slice recipients i (i + batchSize)
                  :: batchesFrom recipients (i + batchSize)
    | right _ => []
  }.
Proof. unfold batchSize. lia. Qed.

Definition makeBatches {A} (recipients : list A) : list (list A) :=
  batchesFrom recipients 0.


(** ** Data model (interface ServerState) *)

Record ConnectedWallet := {
  publicKey : string;
  solBalance : Q;
}.

(** Field [name] of the token is [tokenName] here, [name] being taken by the
    employee record. *)
Record CreatedToken := {
  tokenName : string;
  symbol : string;
  mintAddress : string;
  supply : Q;
  decimals : Q;
}.

Record Employee := {
  name : option string;
  email : string;
  role : option string;
  walletAddress : string;
  tokenAmount : option Q;
}.

Record AirdropStatus := {
  started : bool;
  completed : bool;
  successful : nat;
  failed : nat;
}.

(** Fields [successful] and [failed] of [emailsStatus]. *)
Record EmailsStatus := {
  sent : bool;
  emailsSuccessful : nat;
  emailsFailed : nat;
}.

Record ServerState := {
  connectedWallet : option ConnectedWallet;
  createdToken : option CreatedToken;
  employees : list Employee;
  airdropStatus : AirdropStatus;
  emailsStatus : EmailsStatus;
}.

(** The state built by the constructor of [HRAirdropServer]. *)
Definition initialState : ServerState := {|
  connectedWallet := None;
  createdToken := None;
  employees := [];
  airdropStatus := {| started := false; completed := false;
                      successful := 0; failed := 0 |};
  emailsStatus := {| sent := false; emailsSuccessful := 0; emailsFailed := 0 |};
|}.

Definition setConnectedWallet (w : ConnectedWallet) (st : ServerState) : ServerState :=
  {| connectedWallet := Some w; createdToken := createdToken st;
     employees := employees st; airdropStatus := airdropStatus st;
     emailsStatus := emailsStatus st |}.

Definition setCreatedToken (t : CreatedToken) (st : ServerState) : ServerState :=
  {| connectedWallet := connectedWallet st; createdToken := Some t;
     employees := employees st; airdropStatus := airdropStatus st;
     emailsStatus := emailsStatus st |}.

Definition setEmployees (l : list Employee) (st : ServerState) : ServerState :=
  {| connectedWallet := connectedWallet st; createdToken := createdToken st;
     employees := l; airdropStatus := airdropStatus st;
     emailsStatus := emailsStatus st |}.

Definition setAirdropStatus (a : AirdropStatus) (st : ServerState) : ServerState :=
  {| connectedWallet := connectedWallet st; createdToken := createdToken st;
     employees := employees st; airdropStatus := a;
     emailsStatus := emailsStatus st |}.

Definition setEmailsStatus (e : EmailsStatus) (st : ServerState) : ServerState :=
  {| connectedWallet := connectedWallet st; createdToken := createdToken st;
     employees := employees st; airdropStatus := airdropStatus st;
     emailsStatus := e |}.

(** ** Fee estimate (utils/crossmintTransactions.ts) *)

Record AirdropFees (number : Type) := {
  accountCreationFee : number;
  transactionFee : number;
  totalFees : number;
}.
Arguments accountCreationFee {number} _.
Arguments transactionFee {number} _.
Arguments totalFees {number} _.

(** The constants are the binary64 numbers nearest to 0.00001 and 0.000005,
    and each product and the sum is rounded to binary64, as in the code. *)
#[local] Set Warnings "-inexact-float".

Definition calculateAirdropFees (numberOfRecipients : float) : AirdropFees float :=
  let accountCreationFee := (0.00001 * numberOfRecipients)%float in
  let transactionFee := (0.000005 * numberOfRecipients)%float in
  let totalFees := (accountCreationFee + transactionFee)%float in
  {| accountCreationFee := accountCreationFee;
     transactionFee := transactionFee;
     totalFees := totalFees |}.

(** [arr.length] as a binary64 number (a JS array has fewer than 2^32
    elements). *)
Definition lengthNumber (n : nat) : float :=
  PrimFloat.of_uint63 (Uint63.of_Z (Z.of_nat n)).

(** [arr.length] as a number *)
Definition numberOfNat (n : nat) : Q := inject_Z (Z.of_nat n).

(** ** Exceptions, responses and the outside world *)

Inductive ErrorCode := InvalidRequest | InvalidParams | InternalError | MethodNotFound.

(** What a handler can throw: an [McpError] with the message given to its
    constructor, a [ZodError] of a failed [schema.parse] (named by the
    offending field), or a plain [Error]. *)
Inductive Exception :=
| McpError (code : ErrorCode) (message : string)
| ZodError (field : string)
| Error (message : string).

(** Result of a collaborator call or helper: a value or a thrown message. *)
Inductive Try (A : Type) :=
| Returned (a : A)
| Thrown (message : string).
Arguments Returned {A} a.
Arguments Thrown {A} message.

Definition tryBind {A B} (x : Try A) (k : A -> Try B) : Try B :=
  match x with
  | Returned a => k a
  | Thrown m => Thrown m
  end.

Notation "'try!' x ':=' c1 'in' c2" := (tryBind c1 (fun x => c2))
  (at level 10, x name, c1 at level 100, c2 at level 200).

(** An instruction of a ledger transaction, as built by the spl-token
    helpers the engine calls. *)
Inductive Instruction :=
| CreateAssociatedTokenAccount (payer account owner mint : string)
| TransferInstruction (source destination owner : string) (amount : Z).

Definition Transaction := list Instruction.

(** One row of a parsed CSV file ([columns: true]): a key of the header
    that is missing is [None]. *)
Record CsvRecord := {
  csvEmail : option string;
  csvName : option string;
  csvRole : option string;
}.

(** The collaborators and the process environment.  Ledger reads and
    submissions are indexed by the number of transactions the running
    distribution has already submitted. *)
Record World := {
  (* process.env *)
  HELIUS_API_KEY : option string;
  RESEND_API_KEY : option string;
  RESEND_DOMAIN : option string;
  (* @solana/web3.js and @solana/spl-token *)
  newConnection : string -> Try unit;
  keypairFromSecretKey : string -> Try string;
  keypairGenerate : string;
  getBalance : string -> Try Q;
  newPublicKey : string -> Try string;
  getAssociatedTokenAddress : string -> string -> Try string;
  getAccount : nat -> string -> Try unit;
  sendAndConfirmTransaction : nat -> Transaction -> Try string;
  mathPow10 : Q -> Q;
  (* the u64 written for a BigInt outside the u64 range *)
  u64Overflow : Z -> Z;
  (* Math.random().toString(36).substring(2, 10), by draw *)
  mathRandom : nat -> string;
  (* custody provider *)
  crossmintClient : string -> Try unit;
  custodialAddress : string -> string -> Try string;
  custodyWalletFor : string -> string -> string;
  (* token deployment *)
  deployToken : string -> string -> string -> Q -> Q -> Try string;
  (* fs.readFileSync followed by csvParse *)
  readCsv : string -> Try (list CsvRecord);
  (* notifier *)
  resendNew : string -> Try unit;
  resendSend : string -> string -> Employee -> Try unit;
  (* message texts owned by libraries *)
  zodIsEmail : string -> bool;
  zodMessage : string -> string;
  mcpMessage : ErrorCode -> string -> string;
  numberToString : Q -> string;
}.

(** [error instanceof Error ? error.message : String(error)] *)
Definition errorMessage (w : World) (e : Exception) : string :=
  match e with
  | McpError code m => mcpMessage w code m
  | ZodError field => zodMessage w field
  | Error m => m
  end.

(** Content of a returned tool result.  The summary texts are not modelled,
    only the figures that calculate_amounts and calculate_fees report in
    them; [ErrorText] is a result with [isError: true]. *)
Inductive Reply :=
| Summary
| AskForApiKey
| AmountsSummary (totalAmount : Q)
| FeesSummary (fees : AirdropFees Q) (hasSufficientFunds : bool)
| ErrorText (text : string).

Inductive Completion :=
| Return (r : Reply)
| Throw (e : Exception).

Inductive Event :=
| AirdropInvoked (recipients : nat)
| BatchSubmitted (index : nat) (tx : Transaction).

Record Outcome := {
  completion : Completion;
  state : ServerState;
  events : list Event;
}.

Definition returns (r : Reply) (st : ServerState) : Outcome :=
  {| completion := Return r; state := st; events := [] |}.

Definition throws (e : Exception) (st : ServerState) : Outcome :=
  {| completion := Throw e; state := st; events := [] |}.

(** ** Token instructions (@solana/spl-token)

    The instruction builders convert their amount with [BigInt(amount)],
    which throws a RangeError unless the number is an integer, and write it
    as a u64. *)

Definition bigInt (w : World) (amount : Q) : Try Z :=
  if (Zpos (Qden (Qred amount)) =? 1)%Z then Returned (Qnum (Qred amount))
  else
    Thrown ("The number " ++ numberToString w amount
            ++ " cannot be converted to a BigInt because it is not an integer").

Definition u64 (w : World) (value : Z) : Z :=
  if ((0 <=? value) && (value <? 2 ^ 64))%Z then value
  else (u64Overflow w value mod 2 ^ 64)%Z.

Definition createTransferInstruction (w : World) (source destination owner : string)
    (amount : Q) : Try Instruction :=
  try! value := bigInt w amount in
  Returned (TransferInstruction source destination owner (u64 w value)).

(** ** Distribution engine (utils/compressedAirdrop.ts) *)

Record Recipient := {
  address : string;
  recipientEmail : string;
  amount : option Q;
}.

Section Engine.

Context (w : World).
Context (sender mintPublicKey senderTokenAccount : string).
Context (defaultAmount tokenDecimals : Q).

(** Body of [for (const recipient of batch)]: the instructions added to the
    batch transaction for one recipient, after [submitted] submissions. *)
Definition recipientInstructions (submitted : nat) (recipient : Recipient)
  : Try (list Instruction) :=
  try! recipientPublicKey := newPublicKey w (address recipient) in
  try! recipientTokenAccount :=
    getAssociatedTokenAddress w mintPublicKey recipientPublicKey in
  let recipientAccountExists :=
    match getAccount w submitted recipientTokenAccount with
    | Returned _ => true
    | Thrown _ => false
    end in
  let sendAmount :=
    (Js.orNum (amount recipient) defaultAmount * mathPow10 w tokenDecimals)%Q in
  try! transfer :=
    createTransferInstruction w senderTokenAccount recipientTokenAccount sender
      sendAmount in
  Returned
    ((if recipientAccountExists then []
      else [CreateAssociatedTokenAccount sender recipientTokenAccount
              recipientPublicKey mintPublicKey])
     ++ [transfer]).

Fixpoint batchTransaction (submitted : nat) (batch : list Recipient)
  : Try Transaction :=
  match batch with
  | [] => Returned []
  | recipient :: rest =>
      try! instrs := recipientInstructions submitted recipient in
      try! more := batchTransaction submitted rest in
      Returned (instrs ++ more)
  end.

(** The loop [for (let i = 0; i < batches.length; i++)] from batch [i] on:
    the transaction ids collected, or the error that ended the loop, with
    the submissions made. *)
Fixpoint processBatches (i : nat) (batches : list (list Recipient))
  : Try (list string) * list Event :=
  match batches with
  | [] => (Returned [], [])
  | batch :: rest =>
      match batchTransaction i batch with
      | Thrown m => (Thrown m, [])
      | Returned transaction =>
          match sendAndConfirmTransaction w i transaction with
          | Thrown m => (Thrown m, [BatchSubmitted i transaction])
          | Returned signature =>
              let '(r, evs) := processBatches (S i) rest in
              (try! txIds := r in Returned (signature :: txIds),
               BatchSubmitted i transaction :: evs)
          end
      end
  end.

End Engine.

(** [sendCompressedAirdrop]: its entry is the event [AirdropInvoked].  The
    Helius connection it builds from [heliusApiKey] is not used: every
    ledger call goes through [connection]. *)
Definition sendCompressedAirdrop (w : World) (sender mintAddress : string)
    (amount decimals : Q) (recipients : list Recipient)
    (heliusApiKey : option string) : Try (list string) * list Event :=
  let '(r, evs) :=
    match newPublicKey w mintAddress with
    | Thrown m => (Thrown m, [])
    | Returned mintPublicKey =>
        match getAssociatedTokenAddress w mintPublicKey sender with
        | Thrown m => (Thrown m, [])
        | Returned senderTokenAccount =>
            match getAccount w 0 senderTokenAccount with
            | Thrown m =>
                (Thrown ("Sender's token account does not exist: " ++ m), [])
            | Returned _ =>
                processBatches w sender mintPublicKey senderTokenAccount
                  amount decimals 0 (makeBatches recipients)
            end
        end
    end in
  (match r with
   | Returned txIds => Returned txIds
   | Thrown m => Thrown ("Compressed airdrop failed: " ++ m)
   end,
   AirdropInvoked (length recipients) :: evs).

(** ** Custody provider and notifier (utils/crossmintUtils.ts) *)


(** The simulation-mode test on the API key at the head of
    [createCustodialWallets]. *)
Definition simulatedCustody (apiKey : string) : bool :=
  (negb (JsString.startsWith apiKey "ck_") && negb (JsString.startsWith apiKey "sk_"))
  || negb (JsString.includes apiKey "development"
           || JsString.includes apiKey "staging"
           || JsString.includes apiKey "production").

Definition newEmployee (email walletAddress : string) : Employee :=
  {| name := None; email := email; role := None;
     walletAddress := walletAddress; tokenAmount := None |}.

(** [emails.map((email) => ...)] carrying the position, which numbers the
    random draws. *)
Fixpoint mapWallets (f : nat -> string -> Employee) (i : nat) (emails : list string)
  : list Employee :=
  match emails with
  | [] => []
  | email :: rest => f i email :: mapWallets f (S i) rest
  end.

(** In production mode every failure of the lookup-then-create chain for one
    email is caught and replaced by a simulated address, so each email
    yields one record; [custodyWalletFor] is the address the chain ends
    with.  Only the construction of the client can throw. *)
Definition createCustodialWallets (w : World) (apiKey : string) (emails : list string)
  : Try (list Employee) :=
  match
    (if simulatedCustody apiKey then
       Returned (mapWallets
                   (fun i email => newEmployee email ("wallet" ++ mathRandom w i))
                   0 emails)
     else
       try! _ := crossmintClient w apiKey in
       Returned (mapWallets
                   (fun _ email => newEmployee email (custodyWalletFor w apiKey email))
                   0 emails))
  with
  | Returned wallets => Returned wallets
  | Thrown m => Thrown ("Wallet creation failed: " ++ m)
  end.

(** The loop of [sendWalletEmails]: a failed send falls back to a simulated
    one and is counted as successful; the template never throws. *)
Fixpoint sendEach (w : World) (fromEmail subject : string)
    (wallets : list Employee) (successful failed : nat) : nat * nat :=
  match wallets with
  | [] => (successful, failed)
  | wallet :: rest =>
      match resendSend w fromEmail subject wallet with
      | Returned _ => sendEach w fromEmail subject rest (S successful) failed
      | Thrown _ => sendEach w fromEmail subject rest (S successful) failed
      end
  end.

Definition sendWalletEmails (w : World) (wallets : list Employee)
    (configFromEmail : string) (configSubject configApiKey configDomain : option string)
  : Try (nat * nat) :=
  let apiKey := Js.orStr configApiKey (Js.orStr (RESEND_API_KEY w) "") in
  let domain := Js.orStr configDomain (Js.orStr (RESEND_DOMAIN w) "") in
  let fromEmail :=
    if JsString.includes configFromEmail "@" then configFromEmail
    else (configFromEmail ++ "@" ++ domain)%string in
  let subject := Js.orStr configSubject "Your token airdrop is ready!" in
  match resendNew w apiKey with
  | Thrown m => Thrown ("Email sending failed: " ++ m)
  | Returned _ => Returned (sendEach w fromEmail subject wallets 0 0)
  end.

(** ** Tool requests *)

Record RoleAmounts := {
  operational : option Q;
  developer : option Q;
  manager : option Q;
  VP : option Q;
  VIP : option Q;
}.

(** A tool call: the tool name with its arguments, typed as the tool's zod
    schema types them; the schema's value checks are made by the handlers. *)
Inductive Request :=
| connect_wallet (privateKey : string) (rpcUrl : option string)
| connect_crossmint_wallet (email : string) (apiKey : option string)
| check_balance
| create_token (name symbol : string) (supply : Q) (decimals : option Q)
| add_liquidity (tokenAmount solAmount : Q)
| generate_wallets (employees : string) (apiKey : option string)
| upload_csv (filePath : string)
| calculate_amounts (uniformAmount : option Q) (roleAmounts : option RoleAmounts)
| calculate_fees
| start_airdrop
| send_emails (fromEmail : string) (subject : option string)
    (resendApiKey : option string)
| get_state
| unknown_tool (toolName : string).

(** [z.number().positive()] *)
Definition zodPositive (q : Q) : bool := negb (Qle_bool q 0).

Definition zodOptionalPositive (o : option Q) : bool :=
  match o with
  | Some q => zodPositive q
  | None => true
  end.

Definition LAMPORTS_PER_SOL : Q := 1000000000.

(** ** Handlers of the server class *)

Section Handlers.

Context (w : World).

Definition noWallet : Exception :=
  McpError InvalidRequest "No wallet connected. Please connect a wallet first.".
Definition noToken : Exception :=
  McpError InvalidRequest "No token created. Please create a token first.".
Definition noEmployees : Exception :=
  McpError InvalidRequest "No employees added. Please generate wallets first.".

Definition handleConnectCrossmintWallet (email : string) (apiKey : option string)
    (st : ServerState) : Outcome :=
  if negb (zodIsEmail w email) then
    throws (McpError InternalError
              ("Failed to connect Crossmint wallet: " ++ zodMessage w "email")) st
  else
    match apiKey with
    | Some key =>
        if String.eqb key "" then returns AskForApiKey st
        else
          match custodialAddress w key email with
          | Returned publicKey =>
              returns Summary
                (setConnectedWallet {| publicKey := publicKey; solBalance := 1 |} st)
          | Thrown _ =>
              let publicKey := ("crossmint_" ++ mathRandom w 0)%string in
              returns Summary
                (setConnectedWallet {| publicKey := publicKey; solBalance := 1 |} st)
          end
    | None => returns AskForApiKey st
    end.

Definition handleConnectWallet (privateKey : string) (rpcUrl : option string)
    (st : ServerState) : Outcome :=
  match newConnection w (Js.orStr rpcUrl "https://api.mainnet-beta.solana.com") with
  | Thrown m =>
      throws (McpError InternalError ("Failed to connect wallet: " ++ m)) st
  | Returned _ =>
      match keypairFromSecretKey w privateKey with
      | Thrown _ =>
          throws (McpError InternalError
                    ("Failed to connect wallet: "
                     ++ mcpMessage w InvalidParams
                          "Invalid private key format. Please provide a base64 encoded private key."))
            st
      | Returned publicKey =>
          match getBalance w publicKey with
          | Thrown m =>
              throws (McpError InternalError ("Failed to connect wallet: " ++ m)) st
          | Returned balance =>
              let solBalance := (balance / LAMPORTS_PER_SOL)%Q in
              returns Summary
                (setConnectedWallet
                   {| publicKey := publicKey; solBalance := solBalance |} st)
          end
      end
  end.

Definition handleCheckBalance (st : ServerState) : Outcome :=
  match connectedWallet st with
  | None => throws noWallet st
  | Some _ => returns Summary st
  end.

Definition handleCreateToken (name symbol : string) (supply : Q)
    (decimalsArg : option Q) (st : ServerState) : Outcome :=
  match connectedWallet st with
  | None => throws noWallet st
  | Some _ =>
      if negb (zodPositive supply) then throws (ZodError "supply") st
      else
        let decimals := match decimalsArg with Some d => d | None => 9%Q end in
        if negb (Qle_bool 0 decimals && Qle_bool decimals 9) then
          throws (ZodError "decimals") st
        else
          match deployToken w (keypairGenerate w) name symbol supply decimals with
          | Thrown m =>
              throws (McpError InternalError ("Token creation failed: " ++ m)) st
          | Returned mint =>
              if String.eqb mint "" then
                throws (McpError InternalError
                          ("Token creation failed: "
                           ++ "Token creation failed: No mint address returned"))
                  st
              else
                returns Summary
                  (setCreatedToken
                     {| tokenName := name; symbol := symbol; mintAddress := mint;
                        supply := supply; decimals := decimals |} st)
          end
  end.

Definition handleAddLiquidity (tokenAmount solAmount : Q) (st : ServerState)
  : Outcome :=
  match connectedWallet st with
  | None => throws noWallet st
  | Some wallet =>
      match createdToken st with
      | None => throws noToken st
      | Some _ =>
          if negb (zodPositive tokenAmount) then throws (ZodError "tokenAmount") st
          else if negb (zodPositive solAmount) then throws (ZodError "solAmount") st
          else if negb (Qle_bool solAmount (solBalance wallet)) then
            throws (McpError InvalidRequest
                      ("Insufficient SOL balance. You have "
                       ++ numberToString w (solBalance wallet) ++ " SOL, but "
                       ++ numberToString w solAmount ++ " SOL is required."))
              st
          else
            returns Summary
              (setConnectedWallet
                 {| publicKey := publicKey wallet;
                    solBalance := (solBalance wallet - solAmount)%Q |} st)
      end
  end.

(** One parsed line of the [employees] argument of generate_wallets. *)
Record ParsedEmployee := {
  parsedName : option string;
  parsedEmail : string;
}.

Definition parseEmployeeLine (line : string) : ParsedEmployee :=
  match Js.split Js.comma line with
  | first :: second :: _ =>
      {| parsedName := Some (Js.trim first); parsedEmail := Js.trim second |}
  | first :: [] => {| parsedName := None; parsedEmail := Js.trim first |}
  | [] => {| parsedName := None; parsedEmail := "" |}
  end.

Definition parseEmployees (text : string) : list ParsedEmployee :=
  map parseEmployeeLine
    (filter (fun line => (0 < String.length line)%nat)
       (map Js.trim (Js.split Js.newline text))).

Definition handleGenerateWallets (text : string) (apiKey : option string)
    (st : ServerState) : Outcome :=
  match connectedWallet st with
  | None => throws noWallet st
  | Some _ =>
      if negb (Js.truthyStr apiKey) then returns AskForApiKey st
      else
        let key := match apiKey with Some k => k | None => "" end in
        let employeeList := parseEmployees text in
        let emails := map parsedEmail employeeList in
        if (length emails =? 0)%nat then
          throws (McpError InvalidParams
                    "No valid employee emails found. Please provide at least one employee.")
            st
        else
          match createCustodialWallets w key emails with
          | Returned wallets => returns Summary (setEmployees wallets st)
          | Thrown m =>
              throws (McpError InternalError ("Failed to create wallets: " ++ m)) st
          end
  end.

End Handlers.

Section RegistryHandlers.

Context (w : World).

Definition validRoles : list string :=
  ["operational"; "developer"; "manager"; "VP"; "VIP"].

(** [new Map(employees.map((e) => [e.email, e]))]: entries are set in order,
    a later record replaces an earlier one with the same email. *)
Definition employeesByEmail (l : list Employee) : gmap string Employee :=
  foldl (fun m e => <[email e := e]> m) ∅ l.

(** The callback of [records.map] in upload_csv: the updated record, or the
    error thrown for the row. *)
Definition updateRecord (byEmail : gmap string Employee) (record : CsvRecord)
  : Exception + Employee :=
  match csvEmail record with
  | None => inl (McpError InvalidParams "Every row must have an email.")
  | Some recordEmail =>
      if String.eqb recordEmail "" then
        inl (McpError InvalidParams "Every row must have an email.")
      else
        match byEmail !! recordEmail with
        | None =>
            inl (McpError InvalidParams
                   ("Email " ++ recordEmail
                    ++ " does not match any generated wallet. Please generate wallets first."))
        | Some existingEmployee =>
            match csvRole record with
            | Some recordRole =>
                if negb (String.eqb recordRole "")
                   && negb (Js.includes validRoles (Js.toLowerCase recordRole))
                then
                  inl (McpError InvalidParams
                         ("Invalid role " ++ Js.dquote ++ recordRole ++ Js.dquote
                          ++ " for " ++ recordEmail ++ ". Valid roles are: "
                          ++ Js.join ", " validRoles ++ "."))
                else
                  inr {| name := Js.orUndefined (csvName record);
                         email := email existingEmployee;
                         role := Js.orUndefined (Some (Js.toLowerCase recordRole));
                         walletAddress := walletAddress existingEmployee;
                         tokenAmount := tokenAmount existingEmployee |}
            | None =>
                inr {| name := Js.orUndefined (csvName record);
                       email := email existingEmployee;
                       role := None;
                       walletAddress := walletAddress existingEmployee;
                       tokenAmount := tokenAmount existingEmployee |}
            end
        end
  end.

(** [records.map(callback)] with a callback that may throw: the rows are
    visited in order and the first throw ends the map. *)
Fixpoint updateRecords (byEmail : gmap string Employee) (records : list CsvRecord)
  : Exception + list Employee :=
  match records with
  | [] => inr []
  | record :: rest =>
      match updateRecord byEmail record with
      | inl e => inl e
      | inr updated =>
          match updateRecords byEmail rest with
          | inl e => inl e
          | inr more => inr (updated :: more)
          end
      end
  end.

(** upload_csv on the rows read from the file. *)
Definition importRecords (records : list CsvRecord) (st : ServerState) : Outcome :=
  match records with
  | [] => throws (McpError InvalidParams "CSV file is empty.") st
  | firstRecord :: _ =>
      match csvEmail firstRecord with
      | None =>
          throws (McpError InvalidParams
                    ("CSV file must have an " ++ Js.dquote ++ "email" ++ Js.dquote
                     ++ " column."))
            st
      | Some _ =>
          match updateRecords (employeesByEmail (employees st)) records with
          | inl e => throws e st
          | inr updatedEmployees => returns Summary (setEmployees updatedEmployees st)
          end
      end
  end.

Definition handleUploadCsv (filePath : string) (st : ServerState) : Outcome :=
  match readCsv w filePath with
  | Thrown m =>
      throws (McpError InternalError ("Failed to process CSV: " ++ m)) st
  | Returned records => importRecords records st
  end.

End RegistryHandlers.

Section AllocationHandlers.

Context (w : World).

Definition defaultRoleTokens : gmap string Q :=
  <["vip" := 500%Q]> (<["vp" := 400%Q]> (<["manager" := 300%Q]>
    (<["developer" := 200%Q]> (<["operational" := 100%Q]> ∅)))).

(** The own properties of the parsed [roleAmounts] object, in schema order. *)
Definition roleAmountsEntries (roleAmounts : option RoleAmounts)
  : list (string * Q) :=
  match roleAmounts with
  | None => []
  | Some ra =>
      omap (fun '(key, value) => (fun v : Q => (key, v)) <$> value)
        [("operational", operational ra); ("developer", developer ra);
         ("manager", manager ra); ("VP", VP ra); ("VIP", VIP ra)]
  end.

(** [{ ...defaultRoleTokens, ...(roleAmounts || {}) }] *)
Definition roleTokens (roleAmounts : option RoleAmounts) : gmap string Q :=
  foldl (fun m '(key, value) => <[key := value]> m) defaultRoleTokens
    (roleAmountsEntries roleAmounts).

(** The branch [else if (employee.role)] of calculate_amounts, for a role
    [r] that is truthy. *)
Definition roleTokenAmount (tokens : gmap string Q) (r : string) : Q :=
  let role := Js.toLowerCase r in
  if String.eqb role "operational" then Js.orNum (tokens !! "operational") 100
  else if String.eqb role "developer" then Js.orNum (tokens !! "developer") 200
  else if String.eqb role "manager" then Js.orNum (tokens !! "manager") 300
  else if String.eqb role "vp" then Js.orNum (tokens !! "vp") 400
  else if String.eqb role "vip" then Js.orNum (tokens !! "vip") 500
  else 100%Q.

(** The amount chosen for one employee by the callback of
    [this.state.employees.map] in calculate_amounts. *)
Definition employeeTokenAmount (uniformAmount : option Q)
    (tokens : gmap string Q) (employee : Employee) : Q :=
  if Js.truthyNum uniformAmount then
    match uniformAmount with Some uniform => uniform | None => 0%Q end
  else if Js.truthyStr (role employee) then
    match role employee with
    | Some r => roleTokenAmount tokens r
    | None => 100%Q
    end
  else 100%Q.

Definition withTokenAmount (employee : Employee) (amount : Q) : Employee :=
  {| name := name employee; email := email employee; role := role employee;
     walletAddress := walletAddress employee; tokenAmount := Some amount |}.

(** The [map] of calculate_amounts with its running [totalAmount]. *)
Fixpoint assignAmounts (uniformAmount : option Q) (tokens : gmap string Q)
    (l : list Employee) (totalAmount : Q) : list Employee * Q :=
  match l with
  | [] => ([], totalAmount)
  | employee :: rest =>
      let tokenAmount := employeeTokenAmount uniformAmount tokens employee in
      let '(updated, total) :=
        assignAmounts uniformAmount tokens rest (totalAmount + tokenAmount)%Q in
      (withTokenAmount employee tokenAmount :: updated, total)
  end.

Definition zodRoleAmounts (roleAmounts : option RoleAmounts) : bool :=
  match roleAmounts with
  | None => true
  | Some ra =>
      zodOptionalPositive (operational ra) && zodOptionalPositive (developer ra)
      && zodOptionalPositive (manager ra) && zodOptionalPositive (VP ra)
      && zodOptionalPositive (VIP ra)
  end.

Definition handleCalculateAmounts (uniformAmount : option Q)
    (roleAmounts : option RoleAmounts) (st : ServerState) : Outcome :=
  match employees st with
  | [] => throws noEmployees st
  | _ :: _ =>
      if negb (zodOptionalPositive uniformAmount) then
        throws (ZodError "uniformAmount") st
      else if negb (zodRoleAmounts roleAmounts) then
        throws (ZodError "roleAmounts") st
      else
        let '(updated, totalAmount) :=
          assignAmounts uniformAmount (roleTokens roleAmounts) (employees st) 0 in
        returns (AmountsSummary totalAmount) (setEmployees updated st)
  end.

Definition handleCalculateFees (st : ServerState) : Outcome :=
  match employees st with
  | [] => throws noEmployees st
  | _ :: _ =>
      match connectedWallet st with
      | None => throws noWallet st
      | Some wallet =>
          let employeeCount := numberOfNat (length (employees st)) in
          let accountCreationFee := ((1 # 100000) * employeeCount)%Q in
          let transactionFee := ((5 # 1000000) * employeeCount)%Q in
          let totalFees := (accountCreationFee + transactionFee)%Q in
          let hasSufficientFunds := Qle_bool totalFees (solBalance wallet) in
          returns
            (FeesSummary
               {| accountCreationFee := accountCreationFee;
                  transactionFee := transactionFee;
                  totalFees := totalFees |}
               hasSufficientFunds)
            st
      end
  end.

End AllocationHandlers.

Section DistributionHandlers.

Context (w : World).

Definition missingAmounts (l : list Employee) : bool :=
  existsb (fun e => match tokenAmount e with None => true | Some _ => false end) l.

(** The recipient built for an employee in start_airdrop. *)
Definition recipientOf (employee : Employee) : Recipient :=
  {| address := walletAddress employee;
     recipientEmail := email employee;
     amount := Some (Js.orNum (tokenAmount employee) 100) |}.

Definition completedStatus (st : ServerState) : AirdropStatus :=
  {| started := true; completed := true;
     successful := length (employees st); failed := 0 |}.

Definition handleStartAirdrop (st : ServerState) : Outcome :=
  match employees st with
  | [] => throws noEmployees st
  | _ :: _ =>
      match connectedWallet st with
      | None => throws noWallet st
      | Some _ =>
          match createdToken st with
          | None => throws noToken st
          | Some token =>
              if missingAmounts (employees st) then
                throws (McpError InvalidRequest
                          "Token amounts not calculated for all employees. Please calculate amounts first.")
                  st
              else if negb (Js.truthyStr (HELIUS_API_KEY w)) then
                returns AskForApiKey st
              else
                let keypair := keypairGenerate w in
                let '(result, evs) :=
                  sendCompressedAirdrop w keypair (mintAddress token) 0
                    (decimals token) (map recipientOf (employees st))
                    (HELIUS_API_KEY w) in
                match result with
                | Returned _ =>
                    {| completion := Return Summary;
                       state := setAirdropStatus (completedStatus st) st;
                       events := evs |}
                | Thrown m =>
                    {| completion :=
                         Throw (McpError InternalError ("Airdrop failed: " ++ m));
                       state := st;
                       events := evs |}
                end
          end
      end
  end.

Definition handleSendEmails (fromEmail : string) (subject resendApiKey : option string)
    (st : ServerState) : Outcome :=
  match employees st with
  | [] => throws noEmployees st
  | _ :: _ =>
      if negb (completed (airdropStatus st)) then
        throws (McpError InvalidRequest
                  "Airdrop not completed. Please start the airdrop first.") st
      else
        let subject :=
          match subject with
          | Some s => s
          | None => "Your token airdrop is ready!"
          end in
        if negb (Js.truthyStr resendApiKey) then returns AskForApiKey st
        else
          match sendWalletEmails w (employees st) fromEmail (Some subject)
                  resendApiKey None with
          | Thrown m => throws (Error m) st
          | Returned (successful, failed) =>
              returns Summary
                (setEmailsStatus
                   {| sent := true; emailsSuccessful := successful;
                      emailsFailed := failed |} st)
          end
  end.

Definition handleGetState (st : ServerState) : Outcome := returns Summary st.

(** The [CallToolRequestSchema] handler: the switch on the tool name and
    its [catch], which rethrows an [McpError] and turns any other exception
    into an error result. *)
Definition dispatch (request : Request) (st : ServerState) : Outcome :=
  match request with
  | connect_wallet privateKey rpcUrl => handleConnectWallet w privateKey rpcUrl st
  | connect_crossmint_wallet email apiKey =>
      handleConnectCrossmintWallet w email apiKey st
  | check_balance => handleCheckBalance st
  | create_token name symbol supply decimals =>
      handleCreateToken w name symbol supply decimals st
  | add_liquidity tokenAmount solAmount => handleAddLiquidity w tokenAmount solAmount st
  | generate_wallets employees apiKey => handleGenerateWallets w employees apiKey st
  | upload_csv filePath => handleUploadCsv w filePath st
  | calculate_amounts uniformAmount roleAmounts =>
      handleCalculateAmounts uniformAmount roleAmounts st
  | calculate_fees => handleCalculateFees st
  | start_airdrop => handleStartAirdrop st
  | send_emails fromEmail subject resendApiKey =>
      handleSendEmails fromEmail subject resendApiKey st
  | get_state => handleGetState st
  | unknown_tool toolName =>
      throws (McpError MethodNotFound ("Unknown tool: " ++ toolName)) st
  end.

Definition callTool (request : Request) (st : ServerState) : Outcome :=
  let out := dispatch request st in
  match completion out with
  | Throw (McpError _ _) => out
  | Throw e =>
      {| completion := Return (ErrorText ("Error: " ++ errorMessage w e));
         state := state out; events := events out |}
  | Return _ => out
  end.

End DistributionHandlers.

(** ** Reading the event log of a distribution *)

(** The events [evs] are the submissions of [n] transactions as batches
    [i], [i+1], ..., each confirmed by the ledger with a signature. *)
Definition submittedInOrder (w : World) (i n : nat) (evs : list Event) : Prop :=
  exists txs : list Transaction,
    length txs = n
    /\ evs = zip_with BatchSubmitted (seq i n) txs
    /\ Forall2
         (fun k tx => exists signature,
            sendAndConfirmTransaction w k tx = Returned signature)
         (seq i n) txs.

(** The engine was invoked on the whole registry and every batch of its
    partition was submitted and confirmed. *)
Definition everyBatchSucceeded (w : World) (st : ServerState) (out : Outcome) : Prop :=
  exists evs,
    events out = AirdropInvoked (length (employees st)) :: evs
    /\ submittedInOrder w 0
         (length (makeBatches (map recipientOf (employees st)))) evs.

(** A failed submission decides the call: its message is the one thrown, as
    an InternalError, the state is the one before the call and no submission
    has a later index. *)
Definition abortsOnFailure (w : World) (st : ServerState) (out : Outcome) : Prop :=
  forall j tx m,
    BatchSubmitted j tx ∈ events out ->
    sendAndConfirmTransaction w j tx = Thrown m ->
    completion out
    = Throw (McpError InternalError
               ("Airdrop failed: " ++ "Compressed airdrop failed: " ++ m))
    /\ state out = st
    /\ forall j' tx', BatchSubmitted j' tx' ∈ events out -> (j' <= j)%nat.

(** The call reports success and stores the completed status. *)
Definition marksCompleted (st : ServerState) (out : Outcome) : Prop :=
  completion out = Return Summary
  /\ state out = setAirdropStatus (completedStatus st) st.

(** ** A simulated collaborator environment and sample states *)

(** A world in which every collaborator answers: the CSV reader returns
    [csv], the ledger confirms submission [i] as [confirm i] says, every
    token account exists and every address is a valid key. *)
Definition simulatedWorld (csv : Try (list CsvRecord)) (confirm : nat -> Try string)
  : World := {|
  HELIUS_API_KEY := Some "helius-demo-key";
  RESEND_API_KEY := None;
  RESEND_DOMAIN := None;
  newConnection := fun _ => Returned tt;
  keypairFromSecretKey := fun key => Returned ("pk:" ++ key)%string;
  keypairGenerate := "GeneratedKeypair";
  getBalance := fun _ => Returned 2000000000%Q;
  newPublicKey := fun a => Returned a;
  getAssociatedTokenAddress := fun mint owner => Returned (owner ++ "/" ++ mint)%string;
  getAccount := fun _ _ => Returned tt;
  sendAndConfirmTransaction := fun i _ => confirm i;
  mathPow10 := fun d => inject_Z (10 ^ Qfloor d);
  u64Overflow := fun value => value;
  mathRandom := fun _ => "k3x9q2ab";
  crossmintClient := fun _ => Returned tt;
  custodialAddress := fun _ email => Returned ("custody:" ++ email)%string;
  custodyWalletFor := fun _ email => ("wallet:" ++ email)%string;
  deployToken := fun _ _ symbol _ _ => Returned ("Mint" ++ symbol)%string;
  readCsv := fun _ => csv;
  resendNew := fun _ => Returned tt;
  resendSend := fun _ _ _ => Returned tt;
  zodIsEmail := fun s => JsString.includes s "@";
  zodMessage := fun field => ("Invalid input: " ++ field)%string;
  mcpMessage := fun _ m => ("MCP error: " ++ m)%string;
  numberToString := fun _ => "n";
|}.

Definition alwaysConfirmed (i : nat) : Try string := Returned "signature".

(** The ledger rejects the second batch. *)
Definition secondBatchRejected (i : nat) : Try string :=
  if (i =? 1)%nat then Thrown "Transaction simulation failed"
  else Returned "signature".

Definition sampleEmployee (address : string) (r : option string) (a : option Q)
  : Employee :=
  {| name := None; email := (address ++ "@x.com")%string; role := r;
     walletAddress := ("wallet:" ++ address)%string; tokenAmount := a |}.

Definition sampleWallet : ConnectedWallet :=
  {| publicKey := "FundingWallet"; solBalance := 1 |}.

Definition sampleToken : CreatedToken :=
  {| tokenName := "Reward"; symbol := "RWD"; mintAddress := "MintRWD";
     supply := 1000000; decimals := 9 |}.

(** Wallet connected, token created, registry [l]. *)
Definition readyState (l : list Employee) : ServerState :=
  setEmployees l (setCreatedToken sampleToken (setConnectedWallet sampleWallet initialState)).

Definition csvRow (e : string) (r : option string) : CsvRecord :=
  {| csvEmail := Some e; csvName := None; csvRole := r |}.

(** ** Inputs that repeat no email *)

(** The emails a request brings into the registry are pairwise distinct:
    the parsed lines of generate_wallets, the rows of the file of
    upload_csv.  Other requests bring none. *)
Definition distinctInput (w : World) (request : Request) : Prop :=
  match request with
  | generate_wallets text _ => NoDup (map parsedEmail (parseEmployees text))
  | upload_csv filePath =>
      match readCsv w filePath with
      | Returned records => NoDup (map csvEmail records)
      | Thrown _ => True
      end
  | _ => True
  end.

(** A session: the calls of [requests] made one after the other. *)
Definition runTools (w : World) (requests : list Request) (st : ServerState)
  : ServerState :=
  foldl (fun s request => state (callTool w request s)) st requests.

(** ** Reading outcomes and sessions *)

(** The call ended with one of the success summaries: not with a throw, an
    error result or a request for an API key. *)
Definition succeeded (c : Completion) : bool :=
  match c with
  | Return Summary | Return (AmountsSummary _) | Return (FeesSummary _ _) => true
  | _ => false
  end.

(** What a session can only gain: a connected wallet, a token, a non-empty
    registry, a completed airdrop, sent emails. *)
Record Progress := {
  hasWallet : bool;
  hasToken : bool;
  hasEmployees : bool;
  airdropDone : bool;
  emailsSent : bool;
}.

Definition progressOf (st : ServerState) : Progress :=
  {| hasWallet := bool_decide (is_Some (connectedWallet st));
     hasToken := bool_decide (is_Some (createdToken st));
     hasEmployees := negb (length (employees st) =? 0)%nat;
     airdropDone := completed (airdropStatus st);
     emailsSent := sent (emailsStatus st) |}.

(** [p] has reached at least what [q] has. *)
Definition progressLe (q p : Progress) : Prop :=
  (hasWallet q = true -> hasWallet p = true)
  /\ (hasToken q = true -> hasToken p = true)
  /\ (hasEmployees q = true -> hasEmployees p = true)
  /\ (airdropDone q = true -> airdropDone p = true)
  /\ (emailsSent q = true -> emailsSent p = true).

(** The order in which a session can have reached its steps. *)
Definition workflowOrder (st : ServerState) : Prop :=
  (createdToken st <> None -> connectedWallet st <> None)
  /\ (employees st <> [] -> connectedWallet st <> None)
  /\ (completed (airdropStatus st) = true ->
      createdToken st <> None /\ employees st <> [])
  /\ (sent (emailsStatus st) = true -> completed (airdropStatus st) = true)
  /\ started (airdropStatus st) = completed (airdropStatus st)
  /\ failed (airdropStatus st) = 0%nat
  /\ emailsFailed (emailsStatus st) = 0%nat.

(** The sum of the amounts assigned in a registry (a record without an
    amount counts for zero). *)
Definition totalAllocated (l : list Employee) : Q :=
  foldr (fun e acc => (default 0%Q (tokenAmount e) + acc)%Q) 0%Q l.

(** The wallet balance of a state, when a wallet is connected, is not
    negative. *)
Definition balanceNonNegative (st : ServerState) : Prop :=
  forall wallet, connectedWallet st = Some wallet -> (0 <= solBalance wallet)%Q.

(** ** Plain emails and the transfers of a distribution *)

Fixpoint forallChars (p : ascii -> bool) (s : string) : bool :=
  match s with
  | EmptyString => true
  | String c rest => p c && forallChars p rest
  end.

Definition isAscii (c : ascii) : bool := (nat_of_ascii c <? 128)%nat.

(** A non-empty string of ASCII characters without white space and
    without comma. *)
Definition plainEmail (e : string) : bool :=
  negb (String.eqb e "")
  && forallChars
       (fun c => isAscii c && negb (Js.isSpace c) && negb (Ascii.eqb c Js.comma)) e.

(** The token account credited and the quantity, for a transfer
    instruction. *)
Definition transferOf (i : Instruction) : option (string * Z) :=
  match i with
  | TransferInstruction _ destination _ quantity => Some (destination, quantity)
  | CreateAssociatedTokenAccount _ _ _ _ => None
  end.

(** The transfers of the submitted transactions, in order of submission. *)
Fixpoint transfersIn (evs : list Event) : list (string * Z) :=
  match evs with
  | [] => []
  | BatchSubmitted _ tx :: rest => omap transferOf tx ++ transfersIn rest
  | AirdropInvoked _ :: rest => transfersIn rest
  end.

(** The numbers [a] and [b] are non-negative integers below 2^53 whose
    product is [product], below 2^53 too: the binary64 product of the code
    is then this integer exactly. *)
Definition exactProduct (a b : Q) (product : Z) : Prop :=
  exists x y : Z,
    (a == inject_Z x)%Q /\ (b == inject_Z y)%Q
    /\ (0 <= x < 2 ^ 53)%Z /\ (0 <= y < 2 ^ 53)%Z
    /\ product = (x * y)%Z /\ (product < 2 ^ 53)%Z.

(** The transfer a recipient is owed: to the token account of its address,
    of a quantity that fits a u64 and that is its amount (or the default)
    times ten to the decimals whenever that product is exact. *)
Definition owedTransfer (w : World) (mintPublicKey : string)
    (defaultAmount tokenDecimals : Q) (recipient : Recipient)
    (transfer : string * Z) : Prop :=
  (exists recipientPublicKey,
     newPublicKey w (address recipient) = Returned recipientPublicKey
     /\ getAssociatedTokenAddress w mintPublicKey recipientPublicKey
        = Returned transfer.1)
  /\ (0 <= transfer.2 < 2 ^ 64)%Z
  /\ forall product,
       exactProduct (Js.orNum (amount recipient) defaultAmount)
         (mathPow10 w tokenDecimals) product ->
       transfer.2 = product.

(** The ledger answers this run of start_airdrop: the mint address of the
    token and the wallet address of every employee are keys, the token
    accounts of the sender and of every employee can be derived, the
    sender's token account exists, every amount times ten to the decimals
    is an exact product, and the ledger confirms every transaction the run
    submits. *)
Definition ledgerAnswers (w : World) (st : ServerState) : Prop :=
  exists token mintPublicKey senderTokenAccount,
    createdToken st = Some token
    /\ newPublicKey w (mintAddress token) = Returned mintPublicKey
    /\ getAssociatedTokenAddress w mintPublicKey (keypairGenerate w)
       = Returned senderTokenAccount
    /\ (exists u, getAccount w 0 senderTokenAccount = Returned u)
    /\ Forall
         (fun e =>
            (exists key account,
               newPublicKey w (walletAddress e) = Returned key
               /\ getAssociatedTokenAddress w mintPublicKey key = Returned account)
            /\ exists product,
                 exactProduct (Js.orNum (tokenAmount e) 100)
                   (mathPow10 w (decimals token)) product)
         (employees st)
    /\ forall j tx,
         BatchSubmitted j tx ∈ events (callTool w start_airdrop st) ->
         exists signature, sendAndConfirmTransaction w j tx = Returned signature.

(** The stored token, when there is one, is well formed: a positive supply,
    between 0 and 9 decimals, a non-empty mint address. *)
Definition tokenWellFormed (st : ServerState) : Prop :=
  forall token, createdToken st = Some token ->
    (0 < supply token)%Q /\ (0 <= decimals token <= 9)%Q /\ mintAddress token <> "".

(** Every amount stored in the registry is positive. *)
Definition amountsPositive (st : ServerState) : Prop :=
  Forall (fun e => forall a, tokenAmount e = Some a -> (0 < a)%Q) (employees st).

(** The part of the state each tool may write. *)
Definition writesWallet (request : Request) : bool :=
  match request with
  | connect_wallet _ _ | connect_crossmint_wallet _ _ | add_liquidity _ _ => true
  | _ => false
  end.

Definition writesToken (request : Request) : bool :=
  match request with create_token _ _ _ _ => true | _ => false end.

Definition writesEmployees (request : Request) : bool :=
  match request with
  | generate_wallets _ _ | upload_csv _ | calculate_amounts _ _ => true
  | _ => false
  end.

Definition writesAirdropStatus (request : Request) : bool :=
  match request with start_airdrop => true | _ => false end.

Definition writesEmailsStatus (request : Request) : bool :=
  match request with send_emails _ _ _ => true | _ => false end.

(** ** Balance report of check_balance (handleCheckBalance)

    The figures the handler prints: [employeeCount = employees.length || 1],
    [requiredSol = 0.1 * employeeCount] and
    [isSufficient = solBalance >= requiredSol]. *)

Record BalanceReport := {
  requiredSol : Q;
  isSufficient : bool;
}.

Definition checkBalanceReport (st : ServerState) : option BalanceReport :=
  match connectedWallet st with
  | None => None
  | Some wallet =>
      let employeeCount :=
        Js.orNum (Some (numberOfNat (length (employees st)))) 1 in
      let requiredSol := ((1 # 10) * employeeCount)%Q in
      Some {| requiredSol := requiredSol;
              isSufficient := Qle_bool requiredSol (solBalance wallet) |}
  end.

(** ** Fee figures of calculate_fees (handleCalculateFees)

    The three figures the handler computes inline from
    [employeeCount = this.state.employees.length], on binary64 numbers as
    the code does, once its two guards have passed. *)
Definition handleCalculateFeesFigures (st : ServerState)
  : option (AirdropFees float) :=
  match employees st with
  | [] => None
  | _ :: _ =>
      match connectedWallet st with
      | None => None
      | Some _ =>
          let employeeCount := lengthNumber (length (employees st)) in
          let accountCreationFee := (0.00001 * employeeCount)%float in
          let transactionFee := (0.000005 * employeeCount)%float in
          let totalFees := (accountCreationFee + transactionFee)%float in
          Some {| accountCreationFee := accountCreationFee;
                  transactionFee := transactionFee;
                  totalFees := totalFees |}
      end
  end.

(** ** Funding the token creator wallet
    (transferFromCrossmintToTokenCreator)

    The custody provider's transaction API is the record [TransferApi]: the
    custodial wallet of an email, the key and serialisation steps of the
    transfer transaction, the POST that creates the transaction and the GET
    that reads its status, numbered by attempt. *)

Record TransactionError := {
  logs : option (list string);
  (* JSON.stringify(error) *)
  errorJson : string;
}.

Record StatusResponse := {
  status : string;
  error : option TransactionError;
}.

Record TransferApi := {
  (* crossmint(apiKey).custodial({chain, connection, email}).getAddress() *)
  transferWalletAddress : string -> string -> Try string;
  (* new PublicKey(address) *)
  transferPublicKey : string -> Try string;
  (* bs58.encode(transaction.serialize(...)) of the transfer from, to, lamports *)
  transferSerialize : string -> string -> Q -> Try string;
  (* axiosInstance.post(endpoint, body): response.data.id *)
  transferPost : string -> string -> Try string;
  (* axiosInstance.get(statusEndpoint), by attempt: response.data *)
  transferGet : string -> string -> nat -> Try StatusResponse;
}.

Inductive TransferEvent :=
| TransferPosted (walletLocator : string) (lamports : Q)
| StatusPolled (attempt : nat).

Definition maxAttempts : nat := 10.

(** [error.logs && error.logs.some(log => log.includes("insufficient lamports"))]
    on [statusResponse.data.error || {}], and the message thrown. *)
Definition failureMessage (response : StatusResponse) : string :=
  let error :=
    match error response with
    | Some e => e
    | None => {| logs := None; errorJson := "{}" |}
    end in
  if match logs error with
     | Some l => existsb (fun log => JsString.includes log "insufficient lamports") l
     | None => false
     end
  then "Transaction failed: Insufficient SOL balance in Crossmint wallet. Please add more SOL to your wallet."
  else ("Transaction failed: " ++ errorJson error)%string.

(** The loop [while (status !== "success" && attempts < maxAttempts)], from
    the current [status] and number of [attempts]: the last status read (or
    the error thrown) and the number of status requests made so far. *)
Equations? pollStatus (get : nat -> Try StatusResponse) (current : string)
    (attempts : nat) : Try string * nat
  by wf (maxAttempts - attempts) lt :=
  pollStatus get current attempts
    with decide (current <> "success" /\ attempts < maxAttempts) := {
    | right _ => (Returned current, attempts)
    | left _ with get (S attempts) := {
        | Thrown m => (Thrown m, S attempts)
        | Returned response with String.eqb (status response) "failed" := {
            | true => (Thrown (failureMessage response), S attempts)
            | false => pollStatus get (status response) (S attempts)
          }
      }
  }.
Proof. unfold maxAttempts in *. lia. Qed.

(** The steps of the transfer before its POST: the custodial wallet, its
    key and the serialised transaction. *)
Definition transferSetup (api : TransferApi)
    (crossmintApiKey crossmintEmail tokenCreatorWallet : string) (amount : Q)
  : Try string :=
  try! crossmintWalletAddress :=
    transferWalletAddress api crossmintApiKey crossmintEmail in
  try! fromPublicKey := transferPublicKey api crossmintWalletAddress in
  transferSerialize api fromPublicKey tokenCreatorWallet
    (amount * LAMPORTS_PER_SOL)%Q.

Definition walletLocatorOf (crossmintEmail : string) : string :=
  "email:" ++ crossmintEmail ++ ":solana-mpc-wallet".

Definition transferFromCrossmintToTokenCreator (api : TransferApi)
    (crossmintApiKey crossmintEmail tokenCreatorWallet : string) (amount : Q)
  : Try string * list TransferEvent :=
  let failure (m : string) : Try string :=
    Thrown ("Failed to transfer SOL from Crossmint wallet: " ++ m) in
  match transferWalletAddress api crossmintApiKey crossmintEmail with
  | Thrown m => (failure m, [])
  | Returned crossmintWalletAddress =>
      let walletLocator := walletLocatorOf crossmintEmail in
      match transferPublicKey api crossmintWalletAddress with
      | Thrown m => (failure m, [])
      | Returned fromPublicKey =>
          let lamports := (amount * LAMPORTS_PER_SOL)%Q in
          match transferSerialize api fromPublicKey tokenCreatorWallet lamports with
          | Thrown m => (failure m, [])
          | Returned serializedTransactionStr =>
              match transferPost api walletLocator serializedTransactionStr with
              | Thrown m => (failure m, [TransferPosted walletLocator lamports])
              | Returned transactionId =>
                  let '(last, attempts) :=
                    pollStatus (transferGet api walletLocator transactionId)
                      "pending" 0 in
                  let polls := map StatusPolled (seq 1 attempts) in
                  (match last with
                   | Returned _ => Returned transactionId
                   | Thrown m => failure m
                   end,
                   TransferPosted walletLocator lamports :: polls)
              end
          end
      end
  end.

(** ** Token deployment (deployToken)

    The ledger operations of the deployment that the handlers do not use
    are the record [MintLedger]; the balance, the associated token address
    and the power of ten are those of the [World]. *)

Inductive MintInstruction :=
| CreateAccount (fromPubkey newAccountPubkey : string) (lamports : Q)
| InitializeMint (mint : string) (mintDecimals : Q)
    (mintAuthority freezeAuthority : string)
| CreateTokenAccount (payer associatedToken owner mint : string)
| MintTo (mint destination authority : string) (mintAmount : Z).

Record MintTransaction := {
  instructions : list MintInstruction;
  signers : list string;
}.

Record MintLedger := {
  (* Keypair.generate() for the mint account *)
  mintKeypair : string;
  getMinimumBalanceForRentExemptMint : Try Q;
  sendAndConfirmMint : MintTransaction -> Try string;
}.

Definition createMintToInstruction (w : World) (mint destination authority : string)
    (amount : Q) : Try MintInstruction :=
  try! value := bigInt w amount in
  Returned (MintTo mint destination authority (u64 w value)).

Module Ledger.

Definition minimumBalance : Q := (5 # 100) * LAMPORTS_PER_SOL.

(** The result and the transactions submitted to the ledger. *)
Definition deployToken (w : World) (l : MintLedger) (payer name symbol : string)
    (supply decimals : Q) : Try string * list MintTransaction :=
  let failure (m : string) : Try string :=
    Thrown ("Token deployment failed: " ++ m) in
  match getBalance w payer with
  | Thrown m => (failure m, [])
  | Returned balance =>
      if negb (Qle_bool minimumBalance balance) then
        (failure ("Insufficient balance: "
                  ++ numberToString w (balance / LAMPORTS_PER_SOL)
                  ++ " SOL. Need at least 0.05 SOL.")%string, [])
      else
        let mint := mintKeypair l in
        match getMinimumBalanceForRentExemptMint l with
        | Thrown m => (failure m, [])
        | Returned lamports =>
            let account :=
              [CreateAccount payer mint lamports;
               InitializeMint mint decimals payer payer] in
            match
              (if negb (Qle_bool supply 0) then
                 try! associatedTokenAccount :=
                   getAssociatedTokenAddress w mint payer in
                 try! mintTo :=
                   createMintToInstruction w mint associatedTokenAccount payer
                     (supply * mathPow10 w decimals) in
                 Returned
                   (account
                    ++ [CreateTokenAccount payer associatedTokenAccount payer mint;
                        mintTo])
               else Returned account)
            with
            | Thrown m => (failure m, [])
            | Returned instructions =>
                let transaction :=
                  {| instructions := instructions; signers := [payer; mint] |} in
                match sendAndConfirmMint l transaction with
                | Thrown m => (failure m, [transaction])
                | Returned _ => (Returned mint, [transaction])
                end
            end
        end
  end.

End Ledger.

(** The world whose token deployment is [Ledger.deployToken] on the ledger
    [l]. *)
Definition withLedger (w : World) (l : MintLedger) : World :=
  {| HELIUS_API_KEY := HELIUS_API_KEY w;
     RESEND_API_KEY := RESEND_API_KEY w;
     RESEND_DOMAIN := RESEND_DOMAIN w;
     newConnection := newConnection w;
     keypairFromSecretKey := keypairFromSecretKey w;
     keypairGenerate := keypairGenerate w;
     getBalance := getBalance w;
     newPublicKey := newPublicKey w;
     getAssociatedTokenAddress := getAssociatedTokenAddress w;
     getAccount := getAccount w;
     sendAndConfirmTransaction := sendAndConfirmTransaction w;
     mathPow10 := mathPow10 w;
     u64Overflow := u64Overflow w;
     mathRandom := mathRandom w;
     crossmintClient := crossmintClient w;
     custodialAddress := custodialAddress w;
     custodyWalletFor := custodyWalletFor w;
     deployToken := fun payer name symbol supply decimals =>
       (Ledger.deployToken w l payer name symbol supply decimals).1;
     readCsv := readCsv w;
     resendNew := resendNew w;
     resendSend := resendSend w;
     zodIsEmail := zodIsEmail w;
     zodMessage := zodMessage w;
     mcpMessage := mcpMessage w;
     numberToString := numberToString w |}.

(** The [k]-th status request answers with a status that neither ends the
    polling loop nor fails the transfer. *)
Definition unsettled (get : nat -> Try StatusResponse) (k : nat) : Prop :=
  exists response,
    get k = Returned response
    /\ status response <> "success" /\ status response <> "failed".

(** The [n]-th status request is the first to answer "success", every
    earlier one being unsettled. *)
Definition confirmedAt (get : nat -> Try StatusResponse) (n : nat) : Prop :=
  (forall k, 1 <= k < n -> unsettled get k)
  /\ exists response, get n = Returned response /\ status response = "success".

(** The [n]-th status request is the first to fail, by a thrown request or
    by the status "failed", with message [m]. *)
Definition failedAt (get : nat -> Try StatusResponse) (n : nat) (m : string) : Prop :=
  (forall k, 1 <= k < n -> unsettled get k)
  /\ (get n = Thrown m
      \/ exists response,
           get n = Returned response /\ status response = "failed"
           /\ m = failureMessage response).

(** Every status request after [attempts] and before [n] is unsettled. *)
Definition unsettledFrom (get : nat -> Try StatusResponse) (attempts n : nat)
  : Prop :=
  forall k, attempts < k < n -> unsettled get k.

(** A transfer API that accepts the transfer and answers every status
    request with [answer]. *)
Definition steadyApi (answer : StatusResponse) : TransferApi :=
  {| transferWalletAddress := fun _ email => Returned ("wallet:" ++ email)%string;
     transferPublicKey := fun address => Returned address;
     transferSerialize := fun _ _ _ => Returned "tx";
     transferPost := fun _ _ => Returned "id-1";
     transferGet := fun _ _ _ => Returned answer |}.

(** The world [w] with the ledger balances [balance]. *)
Definition withBalance (w : World) (balance : string -> Try Q) : World :=
  {| HELIUS_API_KEY := HELIUS_API_KEY w;
     RESEND_API_KEY := RESEND_API_KEY w;
     RESEND_DOMAIN := RESEND_DOMAIN w;
     newConnection := newConnection w;
     keypairFromSecretKey := keypairFromSecretKey w;
     keypairGenerate := keypairGenerate w;
     getBalance := balance;
     newPublicKey := newPublicKey w;
     getAssociatedTokenAddress := getAssociatedTokenAddress w;
     getAccount := getAccount w;
     sendAndConfirmTransaction := sendAndConfirmTransaction w;
     mathPow10 := mathPow10 w;
     u64Overflow := u64Overflow w;
     mathRandom := mathRandom w;
     crossmintClient := crossmintClient w;
     custodialAddress := custodialAddress w;
     custodyWalletFor := custodyWalletFor w;
     deployToken := deployToken w;
     readCsv := readCsv w;
     resendNew := resendNew w;
     resendSend := resendSend w;
     zodIsEmail := zodIsEmail w;
     zodMessage := zodMessage w;
     mcpMessage := mcpMessage w;
     numberToString := numberToString w |}.

Definition sampleLedger : MintLedger :=
  {| mintKeypair := "MintKeypair";
     getMinimumBalanceForRentExemptMint := Returned 1461600%Q;
     sendAndConfirmMint := fun _ => Returned "signature" |}.

(** ** Custody provider: look-up and creation of one wallet
    (utils/createCrossmintWallet.ts and the per-email chain of
    createCustodialWallets)

    A wallet object of the provider is a [WalletData]; a response without
    a body object makes the helpers throw and is an [HttpThrown] here.  An
    axios error that carries a response is an [HttpError] with the JSON text
    of its data. *)

Record WalletData := {
  walletType : string;
  walletId : option string;
  (* wallet.addresses?.solana *)
  solanaAddress : option string;
}.

Inductive Http (A : Type) :=
| HttpOk (data : A)
| HttpError (responseJson : string)
| HttpThrown (message : string).
Arguments HttpOk {A} data.
Arguments HttpError {A} responseJson.
Arguments HttpThrown {A} message.

Record CustodyApi := {
  encodeURIComponent : string -> string;
  (* Date.now() *)
  dateNow : string;
  (* axios.get(url, {headers}): response.data.wallets *)
  httpGetWallets : string -> string -> Http (option (list WalletData));
  (* axios.post(baseUrl, {type, linkedUser}, {headers}): response.data *)
  httpPostWallet : string -> string -> string -> Http WalletData;
}.

Inductive CustodyEvent :=
| WalletsRequested (url apiKey : string)
| WalletPosted (url apiKey linkedUser : string).

Definition walletsUrl (apiKey : string) : string :=
  if JsString.includes apiKey "staging"
  then "https://staging.crossmint.com/api/2022-06-09/wallets"
  else "https://www.crossmint.com/api/2022-06-09/wallets".

Definition isSolanaWallet (wallet : WalletData) : bool :=
  JsString.startsWith (walletType wallet) "solana-".

Definition getCrossmintWalletByEmail (api : CustodyApi) (apiKey email : string)
  : Try WalletData * list CustodyEvent :=
  let url := (walletsUrl apiKey ++ "?email=" ++ encodeURIComponent api email)%string in
  (match httpGetWallets api url apiKey with
   | HttpOk wallets =>
       match
         match wallets with
         | Some l => if (0 <? length l)%nat then List.find isSolanaWallet l else None
         | None => None
         end
       with
       | Some solanaWallet => Returned solanaWallet
       | None => Thrown ("No Solana wallet found for email: " ++ email)
       end
   | HttpError responseJson => Thrown ("Crossmint API error: " ++ responseJson)
   | HttpThrown m => Thrown m
   end,
   [WalletsRequested url apiKey]).

Definition createCrossmintWallet (api : CustodyApi) (apiKey : string)
    (email : option string) : Try WalletData * list CustodyEvent :=
  let linkedUser :=
    (if Js.truthyStr email
     then "email:" ++ match email with Some e => e | None => "" end
     else "userId:user-" ++ dateNow api)%string in
  (match httpPostWallet api (walletsUrl apiKey) apiKey linkedUser with
   | HttpOk data => Returned data
   | HttpError responseJson => Thrown ("Crossmint API error: " ++ responseJson)
   | HttpThrown m => Thrown m
   end,
   [WalletPosted (walletsUrl apiKey) apiKey linkedUser]).

(** [walletData.addresses?.solana || walletData.walletId] *)
Definition walletAddressOf (data : WalletData) : option string :=
  if Js.truthyStr (solanaAddress data) then solanaAddress data else walletId data.

(** The UTF-16 code units of the string whose UTF-8 bytes are [s]: one unit
    for a sequence of one, two or three bytes, a surrogate pair for a
    sequence of four.  A byte that starts no sequence counts for itself. *)
Fixpoint utf16Units (s : string) : list N :=
  match s with
  | EmptyString => []
  | String c0 rest0 =>
      let b0 := N_of_ascii c0 in
      let continuation (c : ascii) : N := (N_of_ascii c - 128)%N in
      if (b0 <? 192)%N then b0 :: utf16Units rest0
      else
        match rest0 with
        | EmptyString => [b0]
        | String c1 rest1 =>
            if (b0 <? 224)%N then
              ((b0 - 192) * 64 + continuation c1)%N :: utf16Units rest1
            else
              match rest1 with
              | EmptyString => b0 :: utf16Units rest0
              | String c2 rest2 =>
                  if (b0 <? 240)%N then
                    ((b0 - 224) * 4096 + continuation c1 * 64 + continuation c2)%N
                    :: utf16Units rest2
                  else
                    match rest2 with
                    | EmptyString => b0 :: utf16Units rest0
                    | String c3 rest3 =>
                        let codePoint :=
                          ((b0 - 240) * 262144 + continuation c1 * 4096
                           + continuation c2 * 64 + continuation c3)%N in
                        (55296 + (codePoint - 65536) / 1024)%N
                        :: (56320 + (codePoint - 65536) mod 1024)%N
                        :: utf16Units rest3
                    end
              end
        end
  end.

(** [email.split('').reduce((acc, char) => acc + char.charCodeAt(0), 0)] *)
Definition emailHash (email : string) : N :=
  foldl (fun acc unit => (acc + unit)%N) 0%N (utf16Units email).

(** [`solana_${emailHash.toString(16).substring(0, 8)}`] *)
Definition hashedAddress (email : string) : string :=
  "solana_"
  ++ String.substring 0 8
       (HexadecimalString.NilZero.string_of_uint (N.to_hex_uint (emailHash email))).

(** The callback of [emails.map] in production mode, for one email: the
    address stored for it ([None] for [undefined]) and the requests made.
    [random] is the draw of the simulated address. *)
Definition custodyWallet (api : CustodyApi) (random apiKey email : string)
  : option string * list CustodyEvent :=
  let '(found, lookedUp) := getCrossmintWalletByEmail api apiKey email in
  match found with
  | Returned walletData => (walletAddressOf walletData, lookedUp)
  | Thrown _ =>
      let '(created, posted) := createCrossmintWallet api apiKey (Some email) in
      (match created with
       | Returned newWalletData =>
           if Js.truthyStr (walletAddressOf newWalletData)
           then walletAddressOf newWalletData
           else Some (hashedAddress email)
       | Thrown _ => Some ("wallet" ++ random)%string
       end,
       lookedUp ++ posted)
  end.

(** A provider that lists [wallets] for every email and answers every
    creation with a wallet object that carries no address and no id. *)
Definition bareCustodyApi (wallets : option (list WalletData)) : CustodyApi :=
  {| encodeURIComponent := fun s => s;
     dateNow := "0";
     httpGetWallets := fun _ _ => HttpOk wallets;
     httpPostWallet := fun _ _ _ =>
       HttpOk {| walletType := "solana-mpc-wallet"; walletId := None;
                 solanaAddress := None |} |}.

(** ** calculate_amounts as the specification words it

    Without a uniform amount, a record with a role receives the amount the
    caller supplied for that role when there is one, else the built-in
    default of the role (operational 100, developer 200, manager 300,
    VP 400, VIP 500); a record with no role receives 100. *)
Definition specifiedAmount (roleAmounts : option RoleAmounts)
    (employeeRole : option string) : Q :=
  let supplied (field : RoleAmounts -> option Q) : option Q :=
    match roleAmounts with
    | Some ra => field ra
    | None => None
    end in
  match employeeRole with
  | None => 100
  | Some r =>
      let r := Js.toLowerCase r in
      if String.eqb r "operational" then default 100%Q (supplied operational)
      else if String.eqb r "developer" then default 200%Q (supplied developer)
      else if String.eqb r "manager" then default 300%Q (supplied manager)
      else if String.eqb r "vp" then default 400%Q (supplied VP)
      else if String.eqb r "vip" then default 500%Q (supplied VIP)
      else 100
  end.

(** The roles a session can store: none, or one of the three that
    upload_csv accepts, in lower case. *)
Definition storedRole (employeeRole : option string) : Prop :=
  employeeRole = None \/ employeeRole = Some "operational"
  \/ employeeRole = Some "developer" \/ employeeRole = Some "manager".

Definition rolesStored (st : ServerState) : Prop :=
  Forall (fun e => storedRole (role e)) (employees st).

(** * Verification *)

(** ** Batching *)

Section Batching.

Context {A : Type}.
Implicit Types (recipients : list A) (i k : nat).

Lemma batchesFrom_step recipients i :
  (i < length recipients)%nat ->
  batchesFrom recipients i
  = Js.slice recipients i (i + batchSize) :: batchesFrom recipients (i + batchSize).
Proof.
  intros Hlt. rewrite batchesFrom_equation_1.
  destruct (decide (i < length recipients)%nat) as [Hlt'|Hge]; [reflexivity | lia].
Qed.

Lemma batchesFrom_done recipients i :
  (length recipients <= i)%nat -> batchesFrom recipients i = [].
Proof.
  intros Hge. rewrite batchesFrom_equation_1.
  destruct (decide (i < length recipients)%nat) as [Hlt|Hge']; [lia | reflexivity].
Qed.

Lemma slice_window recipients i :
  Js.slice recipients i (i + batchSize) = take batchSize (drop i recipients).
Proof. unfold Js.slice. f_equal. lia. Qed.

Lemma concat_batchesFrom recipients i :
  concat (batchesFrom recipients i) = drop i recipients.
Proof.
  funelim (batchesFrom recipients i); clear Heqcall.
  - cbn [concat]. rewrite H, slice_window, <- drop_drop.
    apply take_drop.
  - symmetry. apply drop_ge. lia.
Qed.

Lemma batchesFrom_sizes recipients i :
  Forall (fun batch => (0 < length batch <= batchSize)%nat) (batchesFrom recipients i).
Proof.
  funelim (batchesFrom recipients i); clear Heqcall.
  - constructor; [|assumption].
    rewrite slice_window, length_take, length_drop. unfold batchSize. lia.
  - constructor.
Qed.

Lemma batchesFrom_full recipients i k batch :
  batchesFrom recipients i !! k = Some batch ->
  (S k < length (batchesFrom recipients i))%nat ->
  length batch = batchSize.
Proof.
  revert k. funelim (batchesFrom recipients i); clear Heqcall; intros k Hk Hlen.
  - destruct k as [|k].
    + cbn in Hk. injection Hk as <-.
      cbn [length] in Hlen.
      destruct (decide (i + batchSize < length recipients)%nat) as [Hlt|Hge].
      * rewrite slice_window, length_take, length_drop. lia.
      * rewrite batchesFrom_done in Hlen by lia. cbn in Hlen. lia.
    + cbn in Hk. cbn [length] in Hlen. eapply H; [eassumption | lia].
  - cbn in Hlen. lia.
Qed.

End Batching.

Example makeBatches_13 :
  map length (makeBatches (seq 0 13)) = [5; 5; 3]%nat.
Proof. reflexivity. Qed.

Lemma length_batchesFrom {A} (recipients : list A) (i : nat) :
  map length (batchesFrom recipients i)
  = map length (batchesFrom (replicate (length recipients) tt) i).
Proof.
  remember (replicate (length recipients) tt) as units eqn:Hu.
  assert (Hlen : length units = length recipients)
    by (subst units; apply length_replicate).
  clear Hu. revert units Hlen.
  funelim (batchesFrom recipients i); clear Heqcall; intros units Hlen.
  - rewrite (batchesFrom_step units) by lia. cbn [map]. f_equal.
    + rewrite !slice_window, !length_take, !length_drop. lia.
    + apply H. assumption.
  - rewrite (batchesFrom_done units) by lia. reflexivity.
Qed.

(** C7. The engine cuts the recipient list into consecutive batches: their
    concatenation, in order, is the list; no batch is empty or longer than
    five; every batch but the last holds exactly five; and thirteen
    recipients give three batches of sizes 5, 5 and 3. *)
Theorem makeBatches_partition {A} (recipients : list A) :
  concat (makeBatches recipients) = recipients
  /\ Forall (fun batch => (0 < length batch <= 5)%nat) (makeBatches recipients)
  /\ (forall k batch,
        makeBatches recipients !! k = Some batch ->
        (S k < length (makeBatches recipients))%nat ->
        length batch = 5%nat)
  /\ (length recipients = 13%nat ->
      map length (makeBatches recipients) = [5; 5; 3]%nat).
Proof.
  unfold makeBatches. split; [|split; [|split]].
  - rewrite concat_batchesFrom. apply drop_0.
  - apply batchesFrom_sizes.
  - intros k batch. apply batchesFrom_full.
  - intros Hlen. rewrite length_batchesFrom, Hlen. reflexivity.
Qed.

Lemma makeBatches_partition_witness :
  length (seq 0 13) = 13%nat
  /\ map length (makeBatches (seq 0 13)) = [5; 5; 3]%nat.
Proof.
  split; [reflexivity|].
  apply (makeBatches_partition (seq 0 13)). reflexivity.
Defined.

(** ** Fee estimate *)



(** ** start_airdrop: preconditions *)

Lemma callTool_start_airdrop (w : World) (st : ServerState) :
  callTool w start_airdrop st = handleStartAirdrop w st.
Proof.
  unfold callTool, dispatch, handleStartAirdrop.
  destruct (employees st); [reflexivity|].
  destruct (connectedWallet st); [|reflexivity].
  destruct (createdToken st); [|reflexivity].
  destruct (missingAmounts _); [reflexivity|].
  destruct (negb _); [reflexivity|].
  destruct (sendCompressedAirdrop _ _ _ _ _ _ _) as [[txIds|m] evs]; reflexivity.
Qed.

Lemma missingAmounts_true (l : list Employee) :
  missingAmounts l = true <-> exists e, e ∈ l /\ tokenAmount e = None.
Proof.
  unfold missingAmounts. rewrite existsb_exists. split.
  - intros (e & Hin & He). exists e. split; [by apply list_elem_of_In|].
    destruct (tokenAmount e); [discriminate | reflexivity].
  - intros (e & Hin & He). exists e. split; [by apply list_elem_of_In|].
    rewrite He. reflexivity.
Qed.

(** C1. Whenever the employee list is empty, or no wallet is connected, or
    no token was created, or some employee has no tokenAmount, start_airdrop
    throws an InvalidRequest error whose message names a prerequisite that
    is in fact missing; the engine is not invoked (no event) and the state,
    airdropStatus included, is unchanged.  With an empty registry the
    message is the one asking to generate wallets first. *)
Theorem start_airdrop_precondition (w : World) (st : ServerState) :
  employees st = []
  \/ connectedWallet st = None
  \/ createdToken st = None
  \/ (exists e, e ∈ employees st /\ tokenAmount e = None) ->
  exists msg,
    callTool w start_airdrop st
    = {| completion := Throw (McpError InvalidRequest msg);
         state := st; events := [] |}
    /\ ((msg = "No employees added. Please generate wallets first."
         /\ employees st = [])
        \/ (msg = "No wallet connected. Please connect a wallet first."
            /\ connectedWallet st = None)
        \/ (msg = "No token created. Please create a token first."
            /\ createdToken st = None)
        \/ (msg = "Token amounts not calculated for all employees. Please calculate amounts first."
            /\ exists e, e ∈ employees st /\ tokenAmount e = None))
    /\ (employees st = []
        -> msg = "No employees added. Please generate wallets first.").
Proof.
  intros Hmissing. rewrite callTool_start_airdrop. unfold handleStartAirdrop.
  destruct (employees st) as [|e0 l] eqn:Hemp.
  { eexists. split; [reflexivity|]. split; [left; done | done]. }
  destruct (connectedWallet st) as [wallet|] eqn:Hwallet; cycle 1.
  { eexists. split; [reflexivity|]. split; [right; left; done | done]. }
  destruct (createdToken st) as [token|] eqn:Htoken; cycle 1.
  { eexists. split; [reflexivity|]. split; [right; right; left; done | done]. }
  destruct Hmissing as [H|[H|[H|H]]]; try discriminate.
  pose proof (proj2 (missingAmounts_true (e0 :: l)) H) as Hm. rewrite Hm.
  eexists. split; [reflexivity|]. split; [|done].
  right; right; right. split; [reflexivity | exact H].
Qed.

Lemma start_airdrop_precondition_witness :
  exists msg,
    callTool (simulatedWorld (Thrown "no file") alwaysConfirmed) start_airdrop
      initialState
    = {| completion := Throw (McpError InvalidRequest msg);
         state := initialState; events := [] |}
    /\ msg = "No employees added. Please generate wallets first.".
Proof.
  destruct (start_airdrop_precondition
              (simulatedWorld (Thrown "no file") alwaysConfirmed) initialState)
    as (msg & Hcall & _ & Hmsg).
  - left. reflexivity.
  - exists msg. split; [exact Hcall | apply Hmsg; reflexivity].
Defined.

(** ** start_airdrop: result bookkeeping *)

Section EngineFacts.

Context (w : World).
Context (sender mintPublicKey senderTokenAccount : string).
Context (defaultAmount tokenDecimals : Q).

Local Abbreviation process :=
  (processBatches w sender mintPublicKey senderTokenAccount defaultAmount
     tokenDecimals).

(** The loop returns exactly when it has submitted one transaction per
    batch, in order, each of them confirmed. *)
Lemma processBatches_returned (batches : list (list Recipient)) (i : nat) :
  (exists txIds, (process i batches).1 = Returned txIds)
  <-> submittedInOrder w i (length batches) (process i batches).2.
Proof.
  unfold submittedInOrder. revert i.
  induction batches as [|batch rest IH]; intros i; cbn [processBatches length].
  - split; [intros _ | intros _; eexists; reflexivity].
    exists []. cbn. repeat split. constructor.
  - destruct (batchTransaction _ _ _ _ _ _ _ batch) as [tx|m] eqn:Htx; cbn.
    2:{ split; [intros [? [=]] |].
        intros (txs & Hlen & Hevs & _). destruct txs; discriminate. }
    destruct (sendAndConfirmTransaction w i tx) as [sig|m] eqn:Hsend.
    2:{ split; [intros [? [=]] |]. cbn.
        intros (txs & Hlen & Hevs & Hok). destruct txs as [|tx' txs]; [discriminate|].
        cbn in Hevs. injection Hevs as <- _.
        apply Forall2_cons_1 in Hok as [[sig' Hsig] _]. congruence. }
    specialize (IH (S i)).
    destruct (process (S i) rest) as [r evs] eqn:Hrest. cbn in IH |- *.
    split.
    + intros [txIds Hret].
      destruct r as [ids|m]; [|discriminate].
      destruct (proj1 IH (ex_intro _ ids eq_refl)) as (txs & Hlen & Hevs & Hok).
      exists (tx :: txs). cbn. repeat split; [lia | by rewrite Hevs |].
      constructor; [eauto | assumption].
    + intros (txs & Hlen & Hevs & Hok).
      destruct txs as [|tx' txs]; [discriminate|].
      cbn in Hlen, Hevs. injection Hevs as _ Hevs.
      apply Forall2_cons_1 in Hok as [_ Hok].
      destruct (proj2 IH) as [ids Hids].
      { exists txs. repeat split; [lia | assumption | assumption]. }
      rewrite Hids. cbn. eexists. reflexivity.
Qed.

(** A failed submission ends the loop: its error is the loop's result and
    no submission has a later index. *)
Lemma processBatches_failed (batches : list (list Recipient)) (i j : nat)
    (tx : Transaction) (m : string) :
  BatchSubmitted j tx ∈ (process i batches).2 ->
  sendAndConfirmTransaction w j tx = Thrown m ->
  (process i batches).1 = Thrown m
  /\ forall j' tx', BatchSubmitted j' tx' ∈ (process i batches).2 -> (j' <= j)%nat.
Proof.
  revert i. induction batches as [|batch rest IH]; intros i; cbn [processBatches].
  - cbn. intros Hin. by apply elem_of_nil in Hin.
  - destruct (batchTransaction _ _ _ _ _ _ _ batch) as [tx0|m0] eqn:Htx; cbn.
    2:{ intros Hin. by apply elem_of_nil in Hin. }
    destruct (sendAndConfirmTransaction w i tx0) as [sig|m0] eqn:Hsend; cbn.
    2:{ intros Hin Hthrown. apply list_elem_of_singleton in Hin.
        injection Hin as -> ->. split; [congruence|].
        intros j' tx' Hin'. apply list_elem_of_singleton in Hin'.
        injection Hin' as -> ->. lia. }
    specialize (IH (S i)).
    destruct (process (S i) rest) as [r evs] eqn:Hrest. cbn in IH |- *.
    intros Hin Hthrown. apply elem_of_cons in Hin as [Heq|Hin].
    { injection Heq as -> ->. congruence. }
    destruct (IH Hin Hthrown) as [-> Hlast]. split; [reflexivity|].
    intros j' tx' Hin'. apply elem_of_cons in Hin' as [Heq|Hin'];
      [|by apply (Hlast j' tx')].
    injection Heq as -> ->.
    clear -Hin Hrest. enough (S i <= j)%nat by lia.
    assert (Hge : forall k t, BatchSubmitted k t ∈ (process (S i) rest).2 -> (S i <= k)%nat).
    { clear. generalize (S i) as n. induction rest as [|b rest IH]; intros n k t; cbn.
      - intros Hin. by apply elem_of_nil in Hin.
      - destruct (batchTransaction _ _ _ _ _ _ _ b) as [tx0|m0]; cbn.
        2:{ intros Hin. by apply elem_of_nil in Hin. }
        destruct (sendAndConfirmTransaction w n tx0) as [sig|m0]; cbn.
        2:{ intros Hin. apply list_elem_of_singleton in Hin. injection Hin as -> _. lia. }
        specialize (IH (S n) k t).
        destruct (process (S n) rest) as [r evs]. cbn in *.
        intros Hin. apply elem_of_cons in Hin as [Heq|Hin].
        + injection Heq as -> _. lia.
        + specialize (IH Hin). lia. }
    apply (Hge j tx). rewrite Hrest. exact Hin.
Qed.

End EngineFacts.

Lemma makeBatches_nonempty {A} (x : A) (l : list A) :
  (0 < length (makeBatches (x :: l)))%nat.
Proof.
  unfold makeBatches. rewrite batchesFrom_step by (cbn; lia). cbn. lia.
Qed.

Lemma submittedInOrder_nil (w : World) (i n : nat) :
  submittedInOrder w i n [] -> n = 0%nat.
Proof.
  intros (txs & Hlen & Hevs & _). destruct n as [|n]; [reflexivity|].
  destruct txs; discriminate.
Qed.

(** A call that ends before any submission, and not with a success
    report, marks nothing and has no failed submission to answer for. *)
Lemma stopped_before_submission (w : World) (st : ServerState)
    (c : Completion) (evs : list Event) :
  c <> Return Summary ->
  evs = [] \/ (evs = [AirdropInvoked (length (employees st))] /\ employees st <> []) ->
  let out := {| completion := c; state := st; events := evs |} in
  (marksCompleted st out <-> everyBatchSucceeded w st out)
  /\ abortsOnFailure w st out.
Proof.
  intros Hc Hevs. cbv zeta.
  unfold marksCompleted, everyBatchSucceeded, abortsOnFailure. cbn. split.
  - split; [intros [Hdone _]; contradiction|].
    intros (evs' & Heq & Hsub). exfalso.
    destruct Hevs as [->|[-> Hne]]; [discriminate|].
    injection Heq as <-. apply submittedInOrder_nil in Hsub.
    destruct (employees st) as [|e l]; [contradiction|].
    pose proof (makeBatches_nonempty (recipientOf e) (map recipientOf l)).
    cbn [map] in Hsub. lia.
  - intros j tx m Hin. exfalso.
    destruct Hevs as [->|[-> _]].
    + by apply elem_of_nil in Hin.
    + apply list_elem_of_singleton in Hin. discriminate.
Qed.

(** The bookkeeping of start_airdrop, read on the engine's events. *)
Lemma start_airdrop_engine (w : World) (st : ServerState) :
  let out := callTool w start_airdrop st in
  (marksCompleted st out <-> everyBatchSucceeded w st out)
  /\ abortsOnFailure w st out.
Proof.
  cbv zeta. rewrite callTool_start_airdrop.
  change ((marksCompleted st (handleStartAirdrop w st)
           <-> everyBatchSucceeded w st (handleStartAirdrop w st))
          /\ abortsOnFailure w st (handleStartAirdrop w st)).
  unfold handleStartAirdrop, throws, returns.
  destruct (employees st) as [|e0 l] eqn:Hemp;
    [apply stopped_before_submission; [discriminate | by left]|].
  destruct (connectedWallet st) as [wallet|];
    [|apply stopped_before_submission; [discriminate | by left]].
  destruct (createdToken st) as [token|];
    [|apply stopped_before_submission; [discriminate | by left]].
  destruct (missingAmounts (e0 :: l));
    [apply stopped_before_submission; [discriminate | by left]|].
  destruct (negb (Js.truthyStr (HELIUS_API_KEY w)));
    [apply stopped_before_submission; [discriminate | by left]|].
  assert (Hsetup : forall m0 : string,
    let out := {| completion :=
                    Throw (McpError InternalError
                             ("Airdrop failed: " ++ "Compressed airdrop failed: " ++ m0));
                  state := st;
                  events := [AirdropInvoked (length (map recipientOf (e0 :: l)))] |} in
    (marksCompleted st out <-> everyBatchSucceeded w st out)
    /\ abortsOnFailure w st out).
  { intros m0. rewrite length_map, <- Hemp.
    apply stopped_before_submission; [discriminate|].
    right. split; [reflexivity|]. rewrite Hemp. discriminate. }
  unfold sendCompressedAirdrop.
  destruct (newPublicKey w (mintAddress token)) as [mintPublicKey|m0];
    [|apply Hsetup].
  destruct (getAssociatedTokenAddress w mintPublicKey (keypairGenerate w))
    as [senderTokenAccount|m0]; [|apply Hsetup].
  destruct (getAccount w 0 senderTokenAccount) as [[]|m0]; [|apply Hsetup].
  clear Hsetup.
  pose proof (processBatches_returned w (keypairGenerate w) mintPublicKey
                senderTokenAccount 0 (decimals token)
                (makeBatches (map recipientOf (e0 :: l))) 0) as Hret.
  pose proof (processBatches_failed w (keypairGenerate w) mintPublicKey
                senderTokenAccount 0 (decimals token)
                (makeBatches (map recipientOf (e0 :: l))) 0) as Hfail.
  destruct (processBatches w (keypairGenerate w) mintPublicKey senderTokenAccount
              0 (decimals token) 0 (makeBatches (map recipientOf (e0 :: l))))
    as [r evs].
  cbn [fst snd] in Hret, Hfail.
  unfold marksCompleted, everyBatchSucceeded, abortsOnFailure.
  rewrite length_map, Hemp.
  destruct r as [txIds|m0]; cbn.
  - split.
    + split; [intros _ | intros _; split; reflexivity].
      exists evs. split; [reflexivity|]. apply Hret. eexists. reflexivity.
    + intros j tx m Hin Hthrown. apply elem_of_cons in Hin as [[=]|Hin].
      destruct (Hfail j tx m Hin Hthrown) as [[=] _].
  - split.
    + split; [intros [[=] _] |].
      intros (evs' & [= <-] & Hsub). apply Hret in Hsub as [txIds [=]].
    + intros j tx m Hin Hthrown. apply elem_of_cons in Hin as [[=]|Hin].
      destruct (Hfail j tx m Hin Hthrown) as [[= <-] Hlast].
      split; [reflexivity|]. split; [reflexivity|].
      intros j' tx' Hin'. apply elem_of_cons in Hin' as [[=]|Hin'].
      by apply (Hlast j' tx').
Qed.

(** A run either reports success and stores the completed status, or
    reports no success and leaves the state as it was. *)
Lemma start_airdrop_cases (w : World) (st : ServerState) :
  let out := callTool w start_airdrop st in
  marksCompleted st out \/ (completion out <> Return Summary /\ state out = st).
Proof.
  cbv zeta. rewrite callTool_start_airdrop.
  unfold handleStartAirdrop, marksCompleted, throws, returns.
  destruct (employees st) as [|e0 l]; [right; split; [discriminate | reflexivity]|].
  destruct (connectedWallet st); [|right; split; [discriminate | reflexivity]].
  destruct (createdToken st) as [token|];
    [|right; split; [discriminate | reflexivity]].
  destruct (missingAmounts (e0 :: l));
    [right; split; [discriminate | reflexivity]|].
  destruct (negb (Js.truthyStr (HELIUS_API_KEY w)));
    [right; split; [discriminate | reflexivity]|].
  destruct (sendCompressedAirdrop _ _ _ _ _ _ _) as [[txIds|m] evs]; cbn.
  - left. split; reflexivity.
  - right. split; [discriminate | reflexivity].
Qed.

(** C2. start_airdrop reports success and writes airdropStatus = (started,
    completed, successful = number of employees, failed = 0) if and only if
    the engine ran and every batch of the partition was submitted and
    confirmed.  Every other run reports no success and leaves the state,
    airdropStatus included, as it was before the call: from a state whose
    airdrop is not completed, the status is completed after the call
    exactly when every batch succeeded.  If a batch submission fails, its
    error is the one the call throws, as an InternalError; no batch after it
    is submitted; and the state is what it was before the call. *)
Theorem start_airdrop_bookkeeping (w : World) (st : ServerState) :
  let out := callTool w start_airdrop st in
  let completedNow :=
    {| started := true; completed := true;
       successful := length (employees st); failed := 0 |} in
  ((completion out = Return Summary
    /\ state out = setAirdropStatus completedNow st)
   <-> everyBatchSucceeded w st out)
  /\ (~ everyBatchSucceeded w st out ->
      completion out <> Return Summary /\ state out = st)
  /\ (completed (airdropStatus st) = false ->
      (completed (airdropStatus (state out)) = true
       <-> everyBatchSucceeded w st out))
  /\ (forall j tx m,
        BatchSubmitted j tx ∈ events out ->
        sendAndConfirmTransaction w j tx = Thrown m ->
        completion out
        = Throw (McpError InternalError
                   ("Airdrop failed: " ++ "Compressed airdrop failed: " ++ m))
        /\ state out = st
        /\ airdropStatus (state out) = airdropStatus st
        /\ forall j' tx', BatchSubmitted j' tx' ∈ events out -> (j' <= j)%nat).
Proof.
  cbv zeta.
  destruct (start_airdrop_engine w st) as [Hiff Habort]. cbv zeta in Hiff, Habort.
  pose proof (start_airdrop_cases w st) as Hcases. cbv zeta in Hcases.
  unfold marksCompleted, completedStatus in Hiff, Hcases.
  split; [exact Hiff|]. split; [|split].
  - intros Hnot. destruct Hcases as [Hdone|Hkept]; [|exact Hkept].
    exfalso. apply Hnot, Hiff, Hdone.
  - intros Hbefore. split.
    + intros Hafter. destruct Hcases as [Hdone|[_ Hkept]]; [by apply Hiff|].
      rewrite Hkept in Hafter. congruence.
    + intros Hall. apply Hiff in Hall as [_ ->]. reflexivity.
  - intros j tx m Hin Hthrown.
    destruct (Habort j tx m Hin Hthrown) as (Hthrow & Hstate & Hlast).
    repeat split; [exact Hthrow | exact Hstate | by rewrite Hstate | exact Hlast].
Qed.

(** Six employees, the ledger rejects the second batch: the first batch
    was submitted, the call fails with the batch's error and the state is
    the one before the call. *)
Lemma start_airdrop_bookkeeping_witness :
  let w := simulatedWorld (Thrown "no file") secondBatchRejected in
  let st := readyState (map (fun a => sampleEmployee a None (Some 100%Q))
                          ["a"; "b"; "c"; "d"; "e"; "f"]) in
  let out := callTool w start_airdrop st in
  completion out
  = Throw (McpError InternalError
             "Airdrop failed: Compressed airdrop failed: Transaction simulation failed")
  /\ state out = st
  /\ airdropStatus (state out) = airdropStatus st
  /\ forall j' tx', BatchSubmitted j' tx' ∈ events out -> (j' <= 1)%nat.
Proof.
  cbv zeta.
  refine (proj2 (proj2 (proj2 (start_airdrop_bookkeeping
                   (simulatedWorld (Thrown "no file") secondBatchRejected)
                   (readyState (map (fun a => sampleEmployee a None (Some 100%Q))
                                  ["a"; "b"; "c"; "d"; "e"; "f"])))))
            1%nat
            [TransferInstruction "GeneratedKeypair/MintRWD" "wallet:f/MintRWD"
               "GeneratedKeypair" 100000000000%Z]
            "Transaction simulation failed" _ _).
  - vm_compute. do 2 (apply elem_of_cons; right). apply elem_of_cons; left.
    reflexivity.
  - reflexivity.
Defined.

(** After a completed airdrop the registry is replaced by six employees and
    the ledger rejects the second batch of the new run: the call fails, and
    airdropStatus is still the completed status of the earlier run. *)
Lemma start_airdrop_failure_after_completion :
  let w := simulatedWorld (Thrown "no file") secondBatchRejected in
  let six :=
    Js.join (String Js.newline EmptyString)
      ["a@x.com"; "b@x.com"; "c@x.com"; "d@x.com"; "e@x.com"; "f@x.com"] in
  let st :=
    runTools w
      [connect_crossmint_wallet "hr@x.com" (Some "ck_key");
       create_token "Reward" "RWD" 1000000 None;
       generate_wallets "a@x.com" (Some "ck_key");
       calculate_amounts None None;
       start_airdrop;
       generate_wallets six (Some "ck_key");
       calculate_amounts None None]
      initialState in
  let out := callTool w start_airdrop st in
  length (employees st) = 6%nat
  /\ completion out
     = Throw (McpError InternalError
                "Airdrop failed: Compressed airdrop failed: Transaction simulation failed")
  /\ airdropStatus (state out)
     = {| started := true; completed := true; successful := 1; failed := 0 |}.
Proof. vm_compute. repeat split. Qed.

(** ** upload_csv *)

Section RegistryFacts.

Implicit Types (l : list Employee) (m : gmap string Employee).

Lemma foldl_insert_lookup l m key found :
  foldl (fun m e => <[email e := e]> m) m l !! key = Some found ->
  (found ∈ l /\ email found = key) \/ m !! key = Some found.
Proof.
  revert m. induction l as [|e l IH]; intros m; cbn; [by right|].
  intros Hlook. destruct (IH _ Hlook) as [[Hin Heq]|Hm].
  - left. split; [by apply elem_of_cons; right | assumption].
  - destruct (decide (email e = key)) as [He|He].
    + subst key. rewrite lookup_insert_eq in Hm. injection Hm as ->.
      left. split; [by apply elem_of_cons; left | reflexivity].
    + rewrite lookup_insert_ne in Hm by assumption. by right.
Qed.

Lemma foldl_insert_lookup_None l m key :
  foldl (fun m e => <[email e := e]> m) m l !! key = None
  <-> (key ∉ map email l) /\ m !! key = None.
Proof.
  revert m. induction l as [|e l IH]; intros m; cbn.
  - split; [intros H; split; [apply not_elem_of_nil | exact H] | by intros [_ H]].
  - rewrite IH, not_elem_of_cons. split.
    + intros [Hnot Hm]. destruct (decide (email e = key)) as [He|He].
      * subst key. by rewrite lookup_insert_eq in Hm.
      * rewrite lookup_insert_ne in Hm by assumption. repeat split; congruence.
    + intros [[Hne Hnot] Hm]. split; [assumption|].
      rewrite lookup_insert_ne by congruence. assumption.
Qed.

(** A record found in the map is a record of the registry with that email. *)
Lemma employeesByEmail_Some l key found :
  employeesByEmail l !! key = Some found -> found ∈ l /\ email found = key.
Proof.
  intros H. apply foldl_insert_lookup in H as [H|H]; [exact H|].
  by rewrite lookup_empty in H.
Qed.

(** The map misses exactly the emails that no record of the registry has. *)
Lemma employeesByEmail_None l key :
  employeesByEmail l !! key = None <-> key ∉ map email l.
Proof.
  unfold employeesByEmail. rewrite foldl_insert_lookup_None, lookup_empty.
  split; [by intros [H _] | by intros H].
Qed.

(** What an accepted row becomes. *)
Lemma updateRecord_accepted m record updated :
  updateRecord m record = inr updated ->
  exists recordEmail existing,
    csvEmail record = Some recordEmail
    /\ recordEmail <> ""
    /\ m !! recordEmail = Some existing
    /\ email updated = email existing
    /\ walletAddress updated = walletAddress existing
    /\ tokenAmount updated = tokenAmount existing
    /\ name updated = Js.orUndefined (csvName record)
    /\ role updated = Js.orUndefined (Js.toLowerCase <$> csvRole record).
Proof.
  unfold updateRecord.
  destruct (csvEmail record) as [recordEmail|]; [|discriminate].
  destruct (String.eqb recordEmail "") eqn:Hempty; [discriminate|].
  apply String.eqb_neq in Hempty.
  destruct (m !! recordEmail) as [existing|] eqn:Hlook; [|discriminate].
  destruct (csvRole record) as [recordRole|].
  - destruct (negb _ && negb _); [discriminate|].
    intros [= <-]. exists recordEmail, existing. cbn. repeat split; assumption.
  - intros [= <-]. exists recordEmail, existing. cbn. repeat split; assumption.
Qed.

(** A row is only ever rejected with an InvalidParams error. *)
Lemma updateRecord_rejected m record e :
  updateRecord m record = inl e -> exists msg, e = McpError InvalidParams msg.
Proof.
  unfold updateRecord.
  destruct (csvEmail record) as [recordEmail|]; [|intros [= <-]; eauto].
  destruct (String.eqb recordEmail ""); [intros [= <-]; eauto|].
  destruct (m !! recordEmail) as [existing|]; [|intros [= <-]; eauto].
  destruct (csvRole record) as [recordRole|]; [|discriminate].
  destruct (negb _ && negb _); [intros [= <-]; eauto | discriminate].
Qed.

Lemma updateRecords_rejected m records e :
  updateRecords m records = inl e -> exists msg, e = McpError InvalidParams msg.
Proof.
  induction records as [|record rest IH]; cbn; [discriminate|].
  destruct (updateRecord m record) as [e0|updated] eqn:Hrow.
  - intros [= <-]. by eapply updateRecord_rejected.
  - destruct (updateRecords m rest) as [e1|more]; [|discriminate].
    intros [= <-]. by apply IH.
Qed.

(** A row whose email no record has is never accepted. *)
Lemma updateRecord_unknown l record :
  (forall e, e ∈ l -> csvEmail record <> Some (email e)) ->
  exists msg, updateRecord (employeesByEmail l) record = inl (McpError InvalidParams msg).
Proof.
  intros Hunknown.
  destruct (updateRecord (employeesByEmail l) record) as [e|updated] eqn:Hrow.
  - destruct (updateRecord_rejected _ _ _ Hrow) as [msg ->]. eauto.
  - apply updateRecord_accepted in Hrow
      as (recordEmail & existing & Hemail & _ & Hlook & _).
    apply employeesByEmail_Some in Hlook as [Hin Heq].
    exfalso. apply (Hunknown existing Hin). congruence.
Qed.

Lemma updateRecords_unknown l records record :
  record ∈ records ->
  (forall e, e ∈ l -> csvEmail record <> Some (email e)) ->
  exists msg, updateRecords (employeesByEmail l) records = inl (McpError InvalidParams msg).
Proof.
  intros Hin Hunknown.
  destruct (updateRecords (employeesByEmail l) records) as [e|updated] eqn:Hrows.
  - destruct (updateRecords_rejected _ _ _ Hrows) as [msg ->]. eauto.
  - exfalso. revert updated Hrows.
    induction records as [|r rest IH]; intros updated; [by apply elem_of_nil in Hin|].
    cbn. destruct (updateRecord (employeesByEmail l) r) as [e0|u] eqn:Hrow; [discriminate|].
    destruct (updateRecords (employeesByEmail l) rest) as [e1|more] eqn:Hrest;
      [discriminate|].
    intros _. apply elem_of_cons in Hin as [->|Hin].
    + destruct (updateRecord_unknown l r Hunknown) as [msg Hmsg]. congruence.
    + by apply (IH Hin more).
Qed.

(** The rows before the first rejected one do not change the error. *)
Lemma updateRecords_first_rejected m before record after e :
  Forall (fun r => exists updated, updateRecord m r = inr updated) before ->
  updateRecord m record = inl e ->
  updateRecords m (before ++ record :: after) = inl e.
Proof.
  intros Hbefore Hrow. induction Hbefore as [|r before [u Hu] _ IH]; cbn.
  - by rewrite Hrow.
  - by rewrite Hu, IH.
Qed.

(** The accepted rows, in order, with what they became. *)
Lemma updateRecords_accepted m records updated :
  updateRecords m records = inr updated ->
  Forall2 (fun record u => updateRecord m record = inr u) records updated.
Proof.
  revert updated. induction records as [|record rest IH]; intros updated; cbn.
  - intros [= <-]. constructor.
  - destruct (updateRecord m record) as [e0|u] eqn:Hrow; [discriminate|].
    destruct (updateRecords m rest) as [e1|more]; [discriminate|].
    intros [= <-]. constructor; [assumption | by apply IH].
Qed.

End RegistryFacts.

Lemma callTool_upload_csv (w : World) (filePath : string) (st : ServerState) :
  callTool w (upload_csv filePath) st = handleUploadCsv w filePath st.
Proof.
  unfold callTool, dispatch, handleUploadCsv, importRecords.
  destruct (readCsv w filePath) as [[|first rest]|m]; try reflexivity.
  destruct (csvEmail first); [|reflexivity].
  destruct (updateRecords _ _) as [e|updated] eqn:Hrows; [|reflexivity].
  destruct (updateRecords_rejected _ _ _ Hrows) as [msg ->]. reflexivity.
Qed.

(** The registry and a CSV file used in the examples: two employees, a file
    whose first row has a role outside the list and whose second row has an
    email the registry does not know. *)
Example csv_with_invalid_role_then_unknown_email :
  callTool
    (simulatedWorld
       (Returned [csvRow "a@x.com" (Some "Intern"); csvRow "ghost@x.com" None])
       alwaysConfirmed)
    (upload_csv "employees.csv")
    (readyState [sampleEmployee "a" None None; sampleEmployee "b" None None])
  = throws
      (McpError InvalidParams
         ("Invalid role " ++ Js.dquote ++ "Intern" ++ Js.dquote
          ++ " for a@x.com. Valid roles are: operational, developer, manager, VP, VIP."))
      (readyState [sampleEmployee "a" None None; sampleEmployee "b" None None]).
Proof. reflexivity. Qed.

(** C8 as stated fails: the file has a row with the unknown email
    ghost@x.com, yet the error raised is the one of the earlier row and does
    not name that email. *)
Lemma upload_csv_error_names_earlier_row :
  let w := simulatedWorld
             (Returned [csvRow "a@x.com" (Some "Intern"); csvRow "ghost@x.com" None])
             alwaysConfirmed in
  let st := readyState [sampleEmployee "a" None None; sampleEmployee "b" None None] in
  ("ghost@x.com" ∉ map email (employees st))
  /\ ~ (exists msg,
          callTool w (upload_csv "employees.csv") st
          = throws (McpError InvalidParams msg) st
          /\ JsString.includes msg "ghost@x.com" = true).
Proof.
  cbv zeta. split.
  - cbn. intros Hin. repeat (apply elem_of_cons in Hin as [[=]|Hin]).
    by apply elem_of_nil in Hin.
  - intros (msg & Hcall & Hnames).
    rewrite csv_with_invalid_role_then_unknown_email in Hcall.
    injection Hcall as <-. vm_compute in Hnames. discriminate.
Qed.

(** C8, amended.  If some row of the file has an email that no record of
    the registry has, upload_csv throws an InvalidParams error, creates no
    record and leaves the state unchanged.  When that row is the first one
    to be rejected (every row before it is accepted) and its email is not
    empty, the message names that email. *)
Theorem upload_csv_unknown_email (w : World) (filePath : string)
    (st : ServerState) (records : list CsvRecord) (record : CsvRecord) :
  readCsv w filePath = Returned records ->
  record ∈ records ->
  (forall e, e ∈ employees st -> csvEmail record <> Some (email e)) ->
  (exists msg,
     callTool w (upload_csv filePath) st = throws (McpError InvalidParams msg) st)
  /\ (forall before after recordEmail,
        records = before ++ record :: after ->
        Forall (fun r => exists updated,
                  updateRecord (employeesByEmail (employees st)) r = inr updated)
          before ->
        csvEmail record = Some recordEmail ->
        recordEmail <> "" ->
        callTool w (upload_csv filePath) st
        = throws
            (McpError InvalidParams
               ("Email " ++ recordEmail
                ++ " does not match any generated wallet. Please generate wallets first."))
            st).
Proof.
  intros Hread Hin Hunknown. rewrite callTool_upload_csv.
  unfold handleUploadCsv. rewrite Hread. unfold importRecords. split.
  - destruct records as [|first rest]; [by apply elem_of_nil in Hin|].
    destruct (csvEmail first); [|eauto].
    destruct (updateRecords_unknown _ _ _ Hin Hunknown) as [msg ->]. eauto.
  - intros before after recordEmail -> Hbefore Hemail Hne.
    assert (Hrow : updateRecord (employeesByEmail (employees st)) record
                   = inl (McpError InvalidParams
                            ("Email " ++ recordEmail
                             ++ " does not match any generated wallet. Please generate wallets first."))).
    { unfold updateRecord. rewrite Hemail.
      apply String.eqb_neq in Hne. rewrite Hne.
      assert (Hnone : employeesByEmail (employees st) !! recordEmail = None).
      { apply employeesByEmail_None. intros Hmem.
        apply list_elem_of_fmap in Hmem as (e & -> & He).
        by apply (Hunknown e He). }
      by rewrite Hnone. }
    rewrite (updateRecords_first_rejected _ _ _ _ _ Hbefore Hrow).
    destruct before as [|first before]; cbn.
    + by rewrite Hemail.
    + apply Forall_cons in Hbefore as [[u Hu] _].
      apply updateRecord_accepted in Hu as (e1 & _ & -> & _). reflexivity.
Qed.

Lemma upload_csv_unknown_email_witness :
  let w := simulatedWorld
             (Returned [csvRow "a@x.com" (Some "manager"); csvRow "ghost@x.com" None])
             alwaysConfirmed in
  let st := readyState [sampleEmployee "a" None None; sampleEmployee "b" None None] in
  callTool w (upload_csv "employees.csv") st
  = throws
      (McpError InvalidParams
         "Email ghost@x.com does not match any generated wallet. Please generate wallets first.")
      st.
Proof.
  cbv zeta.
  refine (proj2 (upload_csv_unknown_email
                   (simulatedWorld
                      (Returned [csvRow "a@x.com" (Some "manager");
                                 csvRow "ghost@x.com" None])
                      alwaysConfirmed)
                   "employees.csv"
                   (readyState [sampleEmployee "a" None None; sampleEmployee "b" None None])
                   [csvRow "a@x.com" (Some "manager"); csvRow "ghost@x.com" None]
                   (csvRow "ghost@x.com" None) _ _ _)
                [csvRow "a@x.com" (Some "manager")] [] "ghost@x.com" _ _ _ _).
  - reflexivity.
  - apply elem_of_cons; right. apply elem_of_cons; left. reflexivity.
  - intros e He. cbn in He.
    repeat (apply elem_of_cons in He as [->|He]); try discriminate.
    by apply elem_of_nil in He.
  - reflexivity.
  - constructor; [|constructor]. eexists. vm_compute. reflexivity.
  - reflexivity.
  - discriminate.
Defined.

(** C10. After a successful upload_csv the registry has one record per CSV
    row, in row order.  Each record carries the row's email together with
    the walletAddress and tokenAmount of the record the registry held for
    that email (the one its email map holds); its name is the row's name and its role the row's role in lower
    case, both absent when the row has none, whatever was stored before.
    An email of the old registry that no row has is the email of no record
    of the new one. *)
Theorem upload_csv_replaces_registry (w : World) (filePath : string)
    (st : ServerState) (records : list CsvRecord) :
  readCsv w filePath = Returned records ->
  completion (callTool w (upload_csv filePath) st) = Return Summary ->
  let st' := state (callTool w (upload_csv filePath) st) in
  Forall2
    (fun record updated =>
       csvEmail record = Some (email updated)
       /\ name updated = Js.orUndefined (csvName record)
       /\ role updated = Js.orUndefined (Js.toLowerCase <$> csvRole record)
       /\ (Js.truthyStr (csvName record) = false -> name updated = None)
       /\ (Js.truthyStr (csvRole record) = false -> role updated = None)
       /\ exists existing,
            employeesByEmail (employees st) !! email updated = Some existing
            /\ existing ∈ employees st
            /\ email existing = email updated
            /\ walletAddress updated = walletAddress existing
            /\ tokenAmount updated = tokenAmount existing)
    records (employees st')
  /\ (forall old,
        old ∈ employees st ->
        Some (email old) ∉ map csvEmail records ->
        email old ∉ map email (employees st')).
Proof.
  intros Hread. rewrite callTool_upload_csv. unfold handleUploadCsv.
  rewrite Hread. unfold importRecords.
  destruct records as [|first rest] eqn:Hrecords; [discriminate|].
  rewrite <- Hrecords. clear Hrecords.
  destruct (csvEmail first); [|discriminate].
  destruct (updateRecords _ records) as [e|updated] eqn:Hrows; [discriminate|].
  intros _. cbn.
  apply updateRecords_accepted in Hrows.
  assert (Hall : Forall2
    (fun record updated =>
       csvEmail record = Some (email updated)
       /\ name updated = Js.orUndefined (csvName record)
       /\ role updated = Js.orUndefined (Js.toLowerCase <$> csvRole record)
       /\ (Js.truthyStr (csvName record) = false -> name updated = None)
       /\ (Js.truthyStr (csvRole record) = false -> role updated = None)
       /\ exists existing,
            employeesByEmail (employees st) !! email updated = Some existing
            /\ existing ∈ employees st
            /\ email existing = email updated
            /\ walletAddress updated = walletAddress existing
            /\ tokenAmount updated = tokenAmount existing)
    records updated).
  { eapply Forall2_impl; [exact Hrows|]. cbn.
    intros record u Hu.
    apply updateRecord_accepted in Hu
      as (recordEmail & existing & Hemail & _ & Hlook & He & Hw & Ht & Hn & Hr).
    pose proof Hlook as Hmap.
    apply employeesByEmail_Some in Hlook as [Hin Heq].
    split; [congruence|]. split; [assumption|]. split; [assumption|].
    split.
    { intros Hfalsy. rewrite Hn. unfold Js.orUndefined. by rewrite Hfalsy. }
    split.
    { intros Hfalsy. rewrite Hr. unfold Js.orUndefined.
      destruct (csvRole record) as [r|]; [|reflexivity]. cbn in *.
      destruct (String.eqb r "") eqn:Hempty; [|discriminate].
      apply String.eqb_eq in Hempty. subst r. reflexivity. }
    exists existing. split; [congruence|]. repeat split; congruence. }
  split; [exact Hall|].
  intros old _ Hmissing Hmem. apply Hmissing.
  apply list_elem_of_fmap in Hmem as (u & Hu & Hin).
  apply list_elem_of_fmap.
  clear -Hall Hu Hin. induction Hall as [|record u' records updated Hhead _ IH].
  - by apply elem_of_nil in Hin.
  - apply elem_of_cons in Hin as [->|Hin].
    + exists record. split; [|by apply elem_of_cons; left].
      destruct Hhead as [-> _]. congruence.
    + destruct (IH Hin) as (r & Hr & Hrin).
      exists r. split; [assumption | by apply elem_of_cons; right].
Qed.

Lemma upload_csv_replaces_registry_witness :
  let records := [csvRow "b@x.com" (Some "Manager")] in
  let w := simulatedWorld (Returned records) alwaysConfirmed in
  let st := readyState [sampleEmployee "a" (Some "developer") (Some 200%Q);
                        sampleEmployee "b" (Some "developer") (Some 200%Q)] in
  employees (state (callTool w (upload_csv "employees.csv") st))
  = [sampleEmployee "b" (Some "manager") (Some 200%Q)]
  /\ "a@x.com" ∉ map email (employees (state (callTool w (upload_csv "employees.csv") st))).
Proof.
  cbv zeta. split; [reflexivity|].
  refine (proj2 (upload_csv_replaces_registry
                   (simulatedWorld (Returned [csvRow "b@x.com" (Some "Manager")])
                      alwaysConfirmed)
                   "employees.csv"
                   (readyState [sampleEmployee "a" (Some "developer") (Some 200%Q);
                                sampleEmployee "b" (Some "developer") (Some 200%Q)])
                   [csvRow "b@x.com" (Some "Manager")] _ _)
                (sampleEmployee "a" (Some "developer") (Some 200%Q)) _ _).
  - reflexivity.
  - reflexivity.
  - apply elem_of_cons; left. reflexivity.
  - cbn. intros Hin. apply elem_of_cons in Hin as [[=]|Hin].
    by apply elem_of_nil in Hin.
Defined.

(** No spelling of VP or VIP passes the role check of a row. *)
Lemma updateRecord_rejects_vp_vip (m : gmap string Employee) (record : CsvRecord)
    (recordEmail recordRole : string) (existing : Employee) :
  csvEmail record = Some recordEmail ->
  recordEmail <> "" ->
  m !! recordEmail = Some existing ->
  csvRole record = Some recordRole ->
  Js.toLowerCase recordRole = "vp" \/ Js.toLowerCase recordRole = "vip" ->
  updateRecord m record
  = inl (McpError InvalidParams
           ("Invalid role " ++ Js.dquote ++ recordRole ++ Js.dquote
            ++ " for " ++ recordEmail ++ ". Valid roles are: "
            ++ Js.join ", " validRoles ++ ".")).
Proof.
  intros Hemail Hne Hlook Hrole Hlower. unfold updateRecord.
  rewrite Hemail. apply String.eqb_neq in Hne. rewrite Hne, Hlook, Hrole.
  assert (Hnonempty : String.eqb recordRole "" = false).
  { apply String.eqb_neq. intros ->. destruct Hlower; discriminate. }
  rewrite Hnonempty. destruct Hlower as [-> | ->]; reflexivity.
Qed.

(** C3 (defect of the code).  A row whose role is VP, one of the five roles,
    is rejected: the role is lower-cased before it is looked up in a list
    that spells VP and VIP in upper case.  The same holds for VIP and for
    every other casing of the two. *)
Theorem upload_csv_rejects_VP :
  let st := readyState [sampleEmployee "a" None None] in
  callTool (simulatedWorld (Returned [csvRow "a@x.com" (Some "VP")]) alwaysConfirmed)
    (upload_csv "employees.csv") st
  = throws
      (McpError InvalidParams
         ("Invalid role " ++ Js.dquote ++ "VP" ++ Js.dquote
          ++ " for a@x.com. Valid roles are: operational, developer, manager, VP, VIP."))
      st
  /\ Js.includes validRoles (Js.toLowerCase "VP") = false
  /\ Js.includes validRoles (Js.toLowerCase "vp") = false
  /\ Js.includes validRoles (Js.toLowerCase "Vip") = false
  /\ Js.includes validRoles (Js.toLowerCase "VIP") = false
  /\ Js.includes validRoles (Js.toLowerCase "Manager") = true.
Proof. cbv zeta. repeat split; reflexivity. Qed.

(** ** The registry across all tools *)

Lemma state_callTool (w : World) (request : Request) (st : ServerState) :
  state (callTool w request st) = state (dispatch w request st).
Proof.
  unfold callTool. destruct (dispatch w request st) as [[r|[code m|field|m]] st' evs];
    reflexivity.
Qed.

Lemma completion_callTool_Summary (w : World) (request : Request) (st : ServerState) :
  completion (callTool w request st) = Return Summary
  <-> completion (dispatch w request st) = Return Summary.
Proof.
  unfold callTool. destruct (dispatch w request st) as [[r|[code m|field|m]] st' evs];
    cbn; split; intros H; try exact H; discriminate.
Qed.

Lemma mapWallets_emails (f : nat -> string -> Employee) (i : nat) (emails : list string) :
  (forall k e, email (f k e) = e) ->
  map email (mapWallets f i emails) = emails.
Proof.
  intros Hf. revert i. induction emails as [|e rest IH]; intros i; cbn;
    [reflexivity|]. by rewrite Hf, IH.
Qed.

(** One record per email, in order, with that email. *)
Lemma createCustodialWallets_emails (w : World) (apiKey : string)
    (emails : list string) (wallets : list Employee) :
  createCustodialWallets w apiKey emails = Returned wallets ->
  map email wallets = emails.
Proof.
  unfold createCustodialWallets. destruct (simulatedCustody apiKey).
  - intros [= <-]. by apply mapWallets_emails.
  - destruct (crossmintClient w apiKey); cbn; [|discriminate].
    intros [= <-]. by apply mapWallets_emails.
Qed.

Lemma assignAmounts_emails (uniformAmount : option Q) (tokens : gmap string Q)
    (l : list Employee) (total : Q) :
  map email (assignAmounts uniformAmount tokens l total).1 = map email l.
Proof.
  revert total. induction l as [|e l IH]; intros total; cbn; [reflexivity|].
  specialize (IH (total + employeeTokenAmount uniformAmount tokens e)%Q).
  destruct (assignAmounts _ _ l _) as [updated t]. cbn in *. by rewrite IH.
Qed.

Lemma updateRecords_emails (l : list Employee) (records : list CsvRecord)
    (updated : list Employee) :
  updateRecords (employeesByEmail l) records = inr updated ->
  map csvEmail records = map Some (map email updated).
Proof.
  intros H. apply updateRecords_accepted in H.
  induction H as [|record u records updated Hu _ IH]; cbn; [reflexivity|].
  rewrite IH. f_equal.
  apply updateRecord_accepted in Hu
    as (recordEmail & existing & Hemail & _ & Hlook & He & _).
  apply employeesByEmail_Some in Hlook as [_ Heq]. congruence.
Qed.

(** The tools other than generate_wallets and upload_csv keep the list of
    emails of the registry. *)
Lemma dispatch_keeps_emails (w : World) (request : Request) (st : ServerState) :
  match request with
  | generate_wallets _ _ | upload_csv _ => True
  | _ => map email (employees (state (dispatch w request st)))
         = map email (employees st)
  end.
Proof.
  destruct request; cbn; try exact I;
    unfold handleConnectWallet, handleConnectCrossmintWallet, handleCheckBalance,
      handleCreateToken, handleAddLiquidity, handleCalculateAmounts,
      handleCalculateFees, handleStartAirdrop, handleSendEmails, handleGetState;
    repeat case_match; cbn; try reflexivity;
    try match goal with
        | H : employees st = _ |- _ => rewrite H; reflexivity
        end.
  match goal with
  | H : assignAmounts ?u ?t ?l ?z = (?updated, _) |- _ =>
      pose proof (assignAmounts_emails u t l z) as Hemails;
      rewrite H in Hemails; cbn in Hemails
  end.
  congruence.
Qed.

(** C5 as stated fails: in a session that has connected a wallet, two
    lines of the text given to generate_wallets carry the same email; the
    call succeeds and the registry holds that email twice. *)
Lemma generate_wallets_repeats_email :
  let w := simulatedWorld (Thrown "no file") alwaysConfirmed in
  let st := runTools w [connect_crossmint_wallet "hr@x.com" (Some "ck_key")]
              initialState in
  let out :=
    callTool w
      (generate_wallets ("a@x.com" ++ String Js.newline "a@x.com") (Some "ck_key"))
      st in
  NoDup (map email (employees st))
  /\ completion out = Return Summary
  /\ map email (employees (state out)) = ["a@x.com"; "a@x.com"]
  /\ ~ NoDup (map email (employees (state out))).
Proof.
  cbv zeta. split; [constructor|]. split; [reflexivity|]. split; [reflexivity|].
  intros Hnodup. apply NoDup_cons_1_1 in Hnodup. apply Hnodup.
  apply elem_of_cons; left. reflexivity.
Qed.

(** C5, amended.  Every tool call keeps the emails of the registry pairwise
    distinct provided the emails it is given are: the emails of the lines of
    generate_wallets, the emails of the rows of upload_csv.  The other tools
    never change the list of emails. *)
Theorem callTool_unique_emails (w : World) (request : Request) (st : ServerState) :
  NoDup (map email (employees st)) ->
  distinctInput w request ->
  NoDup (map email (employees (state (callTool w request st)))).
Proof.
  intros Hunique Hinput. rewrite state_callTool.
  pose proof (dispatch_keeps_emails w request st) as Hkeep.
  destruct request; try (rewrite Hkeep; exact Hunique).
  - (* generate_wallets *)
    cbn in *. unfold handleGenerateWallets.
    destruct (connectedWallet st); [|exact Hunique].
    destruct (negb (Js.truthyStr apiKey)); [exact Hunique|].
    destruct (length _ =? 0)%nat; [exact Hunique|].
    destruct (createCustodialWallets _ _ _) as [wallets|m] eqn:Hwallets;
      [|exact Hunique].
    cbn. by rewrite (createCustodialWallets_emails _ _ _ _ Hwallets).
  - (* upload_csv *)
    cbn in *. unfold handleUploadCsv, importRecords.
    destruct (readCsv w filePath) as [records|m]; [|exact Hunique].
    destruct records as [|first rest] eqn:Hrecords; [exact Hunique|].
    rewrite <- Hrecords in *. clear Hrecords.
    destruct (csvEmail first); [|exact Hunique].
    destruct (updateRecords _ records) as [e|updated] eqn:Hrows; [exact Hunique|].
    cbn. apply updateRecords_emails in Hrows. rewrite Hrows in Hinput.
    by apply (NoDup_fmap_1 Some).
Qed.

Lemma callTool_unique_emails_witness :
  NoDup (map email (employees
    (state (callTool (simulatedWorld (Thrown "no file") alwaysConfirmed)
              (generate_wallets ("a@x.com" ++ String Js.newline "b@x.com")
                 (Some "ck_key"))
              (readyState []))))).
Proof.
  apply (callTool_unique_emails
           (simulatedWorld (Thrown "no file") alwaysConfirmed)
           (generate_wallets ("a@x.com" ++ String Js.newline "b@x.com") (Some "ck_key"))
           (readyState [])).
  - constructor.
  - cbn. apply NoDup_cons. split.
    + intros Hin. apply list_elem_of_singleton in Hin. discriminate.
    + apply NoDup_singleton.
Defined.

(** ** The created token across all tools *)

(** The tools other than create_token never touch the stored token. *)
Lemma dispatch_keeps_token (w : World) (request : Request) (st : ServerState) :
  match request with
  | create_token _ _ _ _ => True
  | _ => createdToken (state (dispatch w request st)) = createdToken st
  end.
Proof.
  destruct request; cbn; try exact I;
    unfold handleConnectWallet, handleConnectCrossmintWallet, handleCheckBalance,
      handleAddLiquidity, handleGenerateWallets, handleUploadCsv, importRecords,
      handleCalculateAmounts, handleCalculateFees, handleStartAirdrop,
      handleSendEmails, handleGetState;
    repeat case_match; cbn; try reflexivity; congruence.
Qed.

(** create_token either fails and keeps the state, or succeeds and stores
    the token it was asked for with the mint address the deployment gave. *)
Lemma handleCreateToken_outcome (w : World) (name symbol : string) (supply : Q)
    (decimalsArg : option Q) (st : ServerState) :
  let out := handleCreateToken w name symbol supply decimalsArg st in
  let decimals := match decimalsArg with Some d => d | None => 9%Q end in
  (completion out <> Return Summary /\ state out = st)
  \/ (exists mint,
        deployToken w (keypairGenerate w) name symbol supply decimals = Returned mint
        /\ completion out = Return Summary
        /\ state out
           = setCreatedToken
               {| tokenName := name; symbol := symbol; mintAddress := mint;
                  supply := supply; decimals := decimals |} st).
Proof.
  cbv zeta. unfold handleCreateToken.
  destruct (connectedWallet st); [|left; split; [discriminate | reflexivity]].
  destruct (negb (zodPositive supply)); [left; split; [discriminate | reflexivity]|].
  destruct (negb _); [left; split; [discriminate | reflexivity]|].
  destruct (deployToken _ _ _ _ _ _) as [mint|m];
    [|left; split; [discriminate | reflexivity]].
  destruct (String.eqb mint ""); [left; split; [discriminate | reflexivity]|].
  right. exists mint. repeat split.
Qed.

(** C6 as stated fails: in a session that has connected a wallet and
    created a token, a second create_token call succeeds and the stored
    token is another one. *)
Lemma create_token_replaces_token :
  let w := simulatedWorld (Thrown "no file") alwaysConfirmed in
  let st := runTools w [connect_crossmint_wallet "hr@x.com" (Some "ck_key");
                        create_token "Reward" "RWD" 1000000 None]
              initialState in
  let out := callTool w (create_token "Bonus" "BNS" 500 None) st in
  createdToken st = Some sampleToken
  /\ completion out = Return Summary
  /\ createdToken (state out)
     = Some {| tokenName := "Bonus"; symbol := "BNS"; mintAddress := "MintBNS";
               supply := 500; decimals := 9 |}
  /\ createdToken (state out) <> createdToken st.
Proof. cbv zeta. repeat split; try reflexivity. discriminate. Qed.

(** C6, amended.  With a token stored, every tool call other than a
    successful create_token leaves it as it is; a successful create_token
    call replaces it by a token with the name, symbol, supply and decimals
    of the call and the mint address returned by the deployment. *)
Theorem createdToken_replaced_only_by_create_token (w : World)
    (request : Request) (st : ServerState) (token : CreatedToken) :
  createdToken st = Some token ->
  let out := callTool w request st in
  ((forall name symbol supply decimalsArg,
      request <> create_token name symbol supply decimalsArg)
   \/ completion out <> Return Summary ->
   createdToken (state out) = Some token)
  /\ (forall name symbol supply decimalsArg,
        request = create_token name symbol supply decimalsArg ->
        completion out = Return Summary ->
        exists mint,
          deployToken w (keypairGenerate w) name symbol supply
            (match decimalsArg with Some d => d | None => 9%Q end)
          = Returned mint
          /\ createdToken (state out)
             = Some {| tokenName := name; symbol := symbol; mintAddress := mint;
                       supply := supply;
                       decimals := match decimalsArg with
                                   | Some d => d
                                   | None => 9%Q
                                   end |}).
Proof.
  intros Htoken. cbv zeta. rewrite state_callTool, completion_callTool_Summary.
  pose proof (dispatch_keeps_token w request st) as Hkeep.
  split.
  - intros Hcase.
    destruct request; try (rewrite Hkeep; exact Htoken).
    cbn. destruct (handleCreateToken_outcome w name0 symbol0 supply0 decimals0 st)
      as [[_ ->]|(mint & _ & Hdone & _)]; [exact Htoken|].
    destruct Hcase as [Hother|Hfailed].
    + exfalso. by eapply Hother.
    + exfalso. apply Hfailed. exact Hdone.
  - intros name symbol supply decimalsArg -> Hdone.
    apply completion_callTool_Summary in Hdone. cbn in *.
    destruct (handleCreateToken_outcome w name symbol supply decimalsArg st)
      as [[Hfailed _]|(mint & Hmint & _ & ->)]; [exfalso; exact (Hfailed Hdone)|].
    exists mint. split; [exact Hmint | reflexivity].
Qed.

Lemma createdToken_replaced_only_by_create_token_witness :
  createdToken
    (state (callTool (simulatedWorld (Thrown "no file") alwaysConfirmed)
              (calculate_amounts None None)
              (readyState [sampleEmployee "a" None None])))
  = Some sampleToken.
Proof.
  refine (proj1 (createdToken_replaced_only_by_create_token
                   (simulatedWorld (Thrown "no file") alwaysConfirmed)
                   (calculate_amounts None None)
                   (readyState [sampleEmployee "a" None None])
                   sampleToken _) _).
  - reflexivity.
  - left. discriminate.
Defined.

(** ** calculate_amounts *)

(** For the three roles spelled in lower case in the schema, the amount
    supplied by the caller is used, else the built-in default. *)
Lemma roleTokenAmount_lower_case_roles (ra : RoleAmounts) (r : string) :
  (Js.toLowerCase r = "operational" ->
   roleTokenAmount (roleTokens (Some ra)) r = Js.orNum (operational ra) 100)
  /\ (Js.toLowerCase r = "developer" ->
      roleTokenAmount (roleTokens (Some ra)) r = Js.orNum (developer ra) 200)
  /\ (Js.toLowerCase r = "manager" ->
      roleTokenAmount (roleTokens (Some ra)) r = Js.orNum (manager ra) 300).
Proof.
  unfold roleTokenAmount.
  repeat split; intros ->; cbn [String.eqb Ascii.eqb Bool.eqb];
    destruct ra as [[o|] [d|] [m|] [vp|] [vip|]]; reflexivity.
Qed.

(** For VP and VIP the amount supplied by the caller is stored under the
    upper-case key and never read: the built-in default is used. *)
Lemma roleTokenAmount_VP_VIP (roleAmounts : option RoleAmounts) (r : string) :
  (Js.toLowerCase r = "vp" -> roleTokenAmount (roleTokens roleAmounts) r = 400%Q)
  /\ (Js.toLowerCase r = "vip" -> roleTokenAmount (roleTokens roleAmounts) r = 500%Q).
Proof.
  unfold roleTokenAmount.
  split; intros ->; cbn [String.eqb Ascii.eqb Bool.eqb];
    destruct roleAmounts as [[[o|] [d|] [m|] [vp|] [vip|]]|]; reflexivity.
Qed.

(** Without a uniform amount, a record with no role receives 100. *)
Lemma employeeTokenAmount_no_role (tokens : gmap string Q) (employee : Employee) :
  role employee = None ->
  employeeTokenAmount None tokens employee = 100%Q.
Proof. intros Hrole. unfold employeeTokenAmount. by rewrite Hrole. Qed.

(** * Token amounts *)

Lemma bigInt_integer (w : World) (amount : Q) (value : Z) :
  (amount == inject_Z value)%Q -> bigInt w amount = Returned value.
Proof.
  intros Heq. unfold bigInt.
  rewrite (Qred_complete _ _ Heq).
  rewrite (Qcanon.Qred_identity (inject_Z value)) by apply Z.gcd_1_r.
  reflexivity.
Qed.

Lemma bigInt_returned (w : World) (amount : Q) (value : Z) :
  bigInt w amount = Returned value -> (amount == inject_Z value)%Q.
Proof.
  unfold bigInt. intros H.
  assert (Hred : Qred amount = inject_Z value).
  { destruct (Qred amount) as [n d]. cbn [Qnum Qden] in H.
    destruct (Z.pos d =? 1)%Z eqn:Hd; [|discriminate H].
    injection H as <-. apply Z.eqb_eq in Hd. injection Hd as ->. reflexivity. }
  rewrite <- Hred. symmetry. apply Qred_correct.
Qed.

Lemma u64_range (w : World) (value : Z) : (0 <= u64 w value < 2 ^ 64)%Z.
Proof.
  unfold u64.
  destruct ((0 <=? value) && (value <? 2 ^ 64))%Z eqn:Hin.
  - apply andb_true_iff in Hin as [Hlo Hhi].
    apply Z.leb_le in Hlo. apply Z.ltb_lt in Hhi. lia.
  - apply Z.mod_pos_bound. lia.
Qed.

Lemma u64_in_range (w : World) (value : Z) :
  (0 <= value < 2 ^ 64)%Z -> u64 w value = value.
Proof.
  intros [Hlo Hhi]. unfold u64.
  apply Z.leb_le in Hlo. apply Z.ltb_lt in Hhi. by rewrite Hlo, Hhi.
Qed.

(** An exact product passes the conversion unchanged. *)
Lemma exactProduct_bigInt (w : World) (a b : Q) (product : Z) :
  exactProduct a b product ->
  bigInt w (a * b) = Returned product /\ u64 w product = product.
Proof.
  intros (x & y & Ha & Hb & Hx & Hy & -> & Hsafe). split.
  - apply bigInt_integer. by rewrite Ha, Hb, inject_Z_mult.
  - apply u64_in_range. split; [nia|].
    eapply Z.lt_trans; [exact Hsafe | reflexivity].
Qed.

(** * Further properties of the server *)

(** ** What a call can change *)

Lemma events_callTool (w : World) (request : Request) (st : ServerState) :
  events (callTool w request st) = events (dispatch w request st).
Proof.
  unfold callTool. destruct (dispatch w request st) as [[r|[code m|field|m]] st' evs];
    reflexivity.
Qed.

Lemma succeeded_callTool (w : World) (request : Request) (st : ServerState) :
  succeeded (completion (callTool w request st))
  = succeeded (completion (dispatch w request st)).
Proof.
  unfold callTool. destruct (dispatch w request st) as [[r|[code m|field|m]] st' evs];
    reflexivity.
Qed.

Ltac unfold_handlers :=
  unfold handleConnectWallet, handleConnectCrossmintWallet, handleCheckBalance,
    handleCreateToken, handleAddLiquidity, handleGenerateWallets,
    handleUploadCsv, importRecords, handleCalculateAmounts, handleCalculateFees,
    handleStartAirdrop, handleSendEmails, handleGetState, returns, throws.

(** X1. A call that does not end with a success summary (it throws, returns
    an error result or asks for an API key) leaves the whole state as it
    was: no handler updates the state before its last failure point. *)
Theorem failed_call_keeps_state (w : World) (request : Request) (st : ServerState) :
  succeeded (completion (callTool w request st)) = false ->
  state (callTool w request st) = st.
Proof.
  rewrite succeeded_callTool, state_callTool.
  destruct request; cbn [dispatch]; unfold_handlers;
    repeat case_match; cbn; try reflexivity; discriminate.
Qed.

Lemma failed_call_keeps_state_witness :
  state (callTool (simulatedWorld (Thrown "no file") alwaysConfirmed)
           (add_liquidity 10 5) (readyState []))
  = readyState [].
Proof.
  apply (failed_call_keeps_state
           (simulatedWorld (Thrown "no file") alwaysConfirmed)
           (add_liquidity 10 5) (readyState [])).
  reflexivity.
Defined.
(** Each tool writes only its own part of the state. *)
Lemma callTool_frame (w : World) (request : Request) (st : ServerState) :
  let st' := state (callTool w request st) in
  match request with
  | connect_wallet _ _ | connect_crossmint_wallet _ _ | add_liquidity _ _ => True
  | _ => connectedWallet st' = connectedWallet st
  end
  /\ match request with
     | create_token _ _ _ _ => True
     | _ => createdToken st' = createdToken st
     end
  /\ match request with
     | generate_wallets _ _ | upload_csv _ | calculate_amounts _ _ => True
     | _ => employees st' = employees st
     end
  /\ match request with
     | start_airdrop => True
     | _ => airdropStatus st' = airdropStatus st
     end
  /\ match request with
     | send_emails _ _ _ => True
     | _ => emailsStatus st' = emailsStatus st
     end.
Proof.
  cbv zeta. rewrite state_callTool.
  destruct request; cbn [dispatch]; unfold_handlers;
    repeat case_match; cbn; repeat split; congruence.
Qed.

(** X2. Each tool writes only its own part of the state, so a session
    keeps every part that none of its calls owns: the wallet is touched by
    the two connect tools and add_liquidity only, the token by create_token
    only, the registry by generate_wallets, upload_csv and
    calculate_amounts only, airdropStatus by start_airdrop only and
    emailsStatus by send_emails only. *)
Theorem session_frame (w : World) (requests : list Request) (st : ServerState) :
  let st' := runTools w requests st in
  (forallb (fun r => negb (writesWallet r)) requests = true ->
   connectedWallet st' = connectedWallet st)
  /\ (forallb (fun r => negb (writesToken r)) requests = true ->
      createdToken st' = createdToken st)
  /\ (forallb (fun r => negb (writesEmployees r)) requests = true ->
      employees st' = employees st)
  /\ (forallb (fun r => negb (writesAirdropStatus r)) requests = true ->
      airdropStatus st' = airdropStatus st)
  /\ (forallb (fun r => negb (writesEmailsStatus r)) requests = true ->
      emailsStatus st' = emailsStatus st).
Proof.
  cbv zeta. unfold runTools. revert st.
  induction requests as [|request rest IH]; intros st; cbn [foldl forallb].
  - repeat split.
  - destruct (IH (state (callTool w request st))) as (IHw & IHt & IHe & IHa & IHm).
    destruct (callTool_frame w request st) as (Hw & Ht & He & Ha & Hm).
    cbv zeta in Hw, Ht, He, Ha, Hm.
    repeat match goal with |- _ /\ _ => split end;
      intros Hall; apply andb_true_iff in Hall as [Hhead Hrest].
    + rewrite (IHw Hrest). by destruct request.
    + rewrite (IHt Hrest). by destruct request.
    + rewrite (IHe Hrest). by destruct request.
    + rewrite (IHa Hrest). by destruct request.
    + rewrite (IHm Hrest). by destruct request.
Qed.

(** ** What a session keeps *)

Lemma assignAmounts_length (uniformAmount : option Q) (tokens : gmap string Q)
    (l : list Employee) (total : Q) :
  length (assignAmounts uniformAmount tokens l total).1 = length l.
Proof.
  rewrite <- (length_map email), assignAmounts_emails. apply length_map.
Qed.

Lemma updateRecords_length (m : gmap string Employee) (records : list CsvRecord)
    (updated : list Employee) :
  updateRecords m records = inr updated -> length updated = length records.
Proof.
  intros H. apply updateRecords_accepted in H. symmetry.
  by eapply Forall2_length.
Qed.

Lemma createCustodialWallets_length (w : World) (apiKey : string)
    (emails : list string) (wallets : list Employee) :
  createCustodialWallets w apiKey emails = Returned wallets ->
  length wallets = length emails.
Proof.
  intros H. apply createCustodialWallets_emails in H.
  rewrite <- H. symmetry. apply length_map.
Qed.

Lemma callTool_progress (w : World) (request : Request) (st : ServerState) :
  progressLe (progressOf st) (progressOf (state (callTool w request st))).
Proof.
  rewrite state_callTool. unfold progressLe, progressOf.
  cbn [hasWallet hasToken hasEmployees airdropDone emailsSent].
  destruct request; cbn [dispatch]; unfold_handlers;
    repeat case_match; cbn [state employees connectedWallet createdToken
                              airdropStatus emailsStatus setConnectedWallet
                              setCreatedToken setEmployees setAirdropStatus
                              setEmailsStatus completed sent completedStatus];
    repeat split; intros Hq; try exact Hq; try reflexivity;
    try (apply bool_decide_eq_true; eauto; fail);
    try (match goal with
         | H : connectedWallet st = _ |- context [connectedWallet st] => rewrite H
         | H : createdToken st = _ |- context [createdToken st] => rewrite H
         | H : employees st = _ |- context [employees st] => rewrite H
         end; first [reflexivity | exact Hq]);
    try (match goal with
         | H : createCustodialWallets _ _ _ = Returned _ |- _ =>
             apply createCustodialWallets_length in H; rewrite H
         end;
         match goal with H : (length _ =? 0)%nat = false |- _ => by rewrite H end);
    try (match goal with
         | H : updateRecords _ _ = inr _ |- _ =>
             apply updateRecords_length in H; rewrite H
         end; reflexivity);
    try (match goal with
         | H : assignAmounts ?u ?t ?l ?z = (_, _) |- _ =>
             pose proof (assignAmounts_length u t l z) as Hlen;
             rewrite H in Hlen; cbn in Hlen; rewrite Hlen
         end; reflexivity).
Qed.

(** X3. A session only gains ground: whatever calls are made, in whatever
    order and with whatever results, a connected wallet stays connected, a
    created token stays present, a non-empty registry never becomes empty
    again, a completed airdrop stays completed and sent emails stay sent. *)
Theorem session_progress (w : World) (requests : list Request) (st : ServerState) :
  progressLe (progressOf st) (progressOf (runTools w requests st)).
Proof.
  unfold runTools. revert st.
  induction requests as [|request rest IH]; intros st; cbn [foldl].
  - unfold progressLe. repeat split; intros H; exact H.
  - pose proof (callTool_progress w request st) as Hstep.
    specialize (IH (state (callTool w request st))).
    unfold progressLe in *.
    destruct Hstep as (H1 & H2 & H3 & H4 & H5), IH as (I1 & I2 & I3 & I4 & I5).
    repeat split; auto.
Qed.

Lemma sendEach_counts (w : World) (fromEmail subject : string)
    (wallets : list Employee) (successful failed : nat) :
  sendEach w fromEmail subject wallets successful failed
  = ((successful + length wallets)%nat, failed).
Proof.
  revert successful. induction wallets as [|wallet rest IH]; intros successful; cbn.
  - f_equal. lia.
  - destruct (resendSend w fromEmail subject wallet); rewrite IH; f_equal; lia.
Qed.

Lemma updateRecords_needs_registry (l : list Employee) (records : list CsvRecord)
    (updated : list Employee) :
  updateRecords (employeesByEmail l) records = inr updated ->
  records <> [] -> l <> [].
Proof.
  intros H Hne. apply updateRecords_accepted in H.
  destruct H as [|record u records updated Hu _]; [contradiction|].
  apply updateRecord_accepted in Hu as (e & existing & _ & _ & Hlook & _).
  apply employeesByEmail_Some in Hlook as [Hin _].
  intros ->. by apply elem_of_nil in Hin.
Qed.

Lemma nonempty_length {A} (l : list A) : l <> [] <-> length l <> 0%nat.
Proof. destruct l; cbn; split; intros H; congruence. Qed.

Lemma callTool_workflowOrder (w : World) (request : Request) (st : ServerState) :
  workflowOrder st -> workflowOrder (state (callTool w request st)).
Proof.
  intros (H1 & H2 & H3 & H4 & H5 & H6 & H7).
  rewrite state_callTool. unfold workflowOrder.
  destruct request; cbn [dispatch]; unfold_handlers;
    repeat case_match;
    cbn [state employees connectedWallet createdToken airdropStatus emailsStatus
           setConnectedWallet setCreatedToken setEmployees setAirdropStatus
           setEmailsStatus completed started failed sent emailsFailed
           completedStatus];
    try (repeat split; assumption).
  all: repeat match goal with
         | H : createCustodialWallets _ _ _ = Returned _ |- _ =>
             apply createCustodialWallets_length in H
         | H : updateRecords (employeesByEmail ?l) ?r = inr _ |- _ =>
             pose proof (updateRecords_needs_registry _ _ _ H) as Hreg;
             apply updateRecords_length in H
         | H : assignAmounts ?u ?t ?l ?z = (_, _) |- _ =>
             pose proof (assignAmounts_length u t l z) as Hlen;
             rewrite H in Hlen; cbn in Hlen; clear H
         | H : sendWalletEmails _ _ _ _ _ _ = Returned _ |- _ =>
             unfold sendWalletEmails in H
         | H : (length _ =? 0)%nat = false |- _ => apply Nat.eqb_neq in H
         end.
  all: repeat match goal with |- _ /\ _ => split end;
    try assumption; try reflexivity.
  all: try (intuition (try congruence); fail).
  all: try (intros Hdone; split; [by apply H3|];
            apply nonempty_length; cbn [length] in *; lia).
  all: try (intros _; match goal with
                      | H : negb (completed _) = false |- _ =>
                          by apply negb_false_iff in H
                      end).
  all: match goal with
       | H : match resendNew _ _ with _ => _ end = Returned _ |- _ =>
           destruct (resendNew _ _); [|discriminate];
           rewrite sendEach_counts in H; by injection H
       end.
Qed.

(** X4. In every state a session can reach from the initial state, the
    steps have been taken in the order of the workflow: a token or a
    non-empty registry implies a connected wallet; a completed airdrop
    implies a token and a non-empty registry; sent emails imply a completed
    airdrop.  The airdrop is never started without being completed, and no
    failure count is ever non-zero. *)
Theorem reachable_workflowOrder (w : World) (requests : list Request) :
  workflowOrder (runTools w requests initialState).
Proof.
  unfold runTools.
  assert (Hinit : workflowOrder initialState).
  { unfold workflowOrder. cbn. repeat split; intros; congruence. }
  revert Hinit. generalize initialState as st.
  induction requests as [|request rest IH]; intros st Hst; cbn [foldl];
    [exact Hst|].
  apply IH. by apply callTool_workflowOrder.
Qed.

(** ** add_liquidity *)

Lemma zodPositive_true (q : Q) : zodPositive q = true <-> (0 < q)%Q.
Proof.
  unfold zodPositive. rewrite negb_true_iff. split.
  - intros H. apply Qnot_le_lt. intros Hle. apply Qle_bool_iff in Hle. congruence.
  - intros H. destruct (Qle_bool q 0) eqn:Hle; [|reflexivity].
    apply Qle_bool_iff in Hle. exfalso. by apply (Qlt_not_le _ _ H).
Qed.

Lemma callTool_balanceNonNegative (w : World) (request : Request) (st : ServerState) :
  (forall key lamports, getBalance w key = Returned lamports -> (0 <= lamports)%Q) ->
  balanceNonNegative st ->
  balanceNonNegative (state (callTool w request st)).
Proof.
  intros Hworld Hst.
  pose proof (callTool_frame w request st) as (Hw & _). cbv zeta in Hw.
  rewrite state_callTool in *. unfold balanceNonNegative in *.
  destruct request; cbn [dispatch] in *; try (rewrite Hw; exact Hst).
  - (* connect_wallet *)
    unfold_handlers. repeat case_match; cbn; try exact Hst.
    intros wallet Heq. injection Heq as Heq. rewrite <- Heq. cbn.
    match goal with H : getBalance _ _ = Returned _ |- _ => apply Hworld in H end.
    unfold LAMPORTS_PER_SOL. apply Qle_shift_div_l; [reflexivity|].
    by rewrite Qmult_0_l.
  - (* connect_crossmint_wallet *)
    unfold_handlers. repeat case_match; cbn; try exact Hst;
      intros wallet Heq; injection Heq as Heq; rewrite <- Heq; cbn; discriminate.
  - (* add_liquidity *)
    unfold_handlers. repeat case_match; cbn; try exact Hst;
      try (intros wallet Heq; apply Hst; congruence).
    intros wallet Heq. injection Heq as Heq. rewrite <- Heq. cbn.
    match goal with
    | H : negb (Qle_bool ?a ?b) = false |- _ =>
        apply negb_false_iff, Qle_bool_iff in H;
        apply (Qplus_le_l _ _ a); ring_simplify; exact H
    end.
Qed.

(** X5. The wallet is never overdrawn: if the ledger reports no negative
    balance, then in every state a session reaches from the initial state
    the balance of the connected wallet is not negative; add_liquidity
    refuses an amount above the balance instead of going below zero. *)
Theorem reachable_balanceNonNegative (w : World) (requests : list Request) :
  (forall key lamports, getBalance w key = Returned lamports -> (0 <= lamports)%Q) ->
  balanceNonNegative (runTools w requests initialState).
Proof.
  intros Hworld. unfold runTools.
  assert (Hinit : balanceNonNegative initialState) by (intros wallet [=]).
  revert Hinit. generalize initialState as st.
  induction requests as [|request rest IH]; intros st Hst; cbn [foldl];
    [exact Hst|].
  apply IH. by apply callTool_balanceNonNegative.
Qed.

Lemma reachable_balanceNonNegative_witness :
  balanceNonNegative
    (runTools (simulatedWorld (Thrown "no file") alwaysConfirmed)
       [connect_wallet "key" None; create_token "Reward" "RWD" 1000 None;
        add_liquidity 10 (3 # 2); add_liquidity 10 1]
       initialState).
Proof.
  apply (reachable_balanceNonNegative
           (simulatedWorld (Thrown "no file") alwaysConfirmed)).
  intros key lamports [= <-]. discriminate.
Defined.

(** ** calculate_amounts *)

Lemma orNum_positive (o : option Q) (d : Q) :
  (0 < d)%Q -> (forall q, o = Some q -> (0 < q)%Q) -> (0 < Js.orNum o d)%Q.
Proof.
  intros Hd Ho. unfold Js.orNum. destruct o as [q|]; [|exact Hd].
  destruct (Qeq_bool q 0); [exact Hd | by apply Ho].
Qed.

Lemma foldl_insert_values {V} (P : V -> Prop) (entries : list (string * V))
    (m : gmap string V) :
  (forall k v, m !! k = Some v -> P v) ->
  Forall (fun kv => P kv.2) entries ->
  forall k v,
    foldl (fun m '(key, value) => <[key := value]> m) m entries !! k = Some v ->
    P v.
Proof.
  intros Hm Hentries. revert m Hm.
  induction Hentries as [|[key value] entries Hhead _ IH]; intros m Hm; cbn;
    [exact Hm|].
  apply IH. intros k v Hlook.
  apply lookup_insert_Some in Hlook as [[_ <-]|[_ Hlook]]; [exact Hhead|].
  by eapply Hm.
Qed.

Lemma defaultRoleTokens_positive (k : string) (v : Q) :
  defaultRoleTokens !! k = Some v -> (0 < v)%Q.
Proof.
  unfold defaultRoleTokens. intros H.
  repeat (apply lookup_insert_Some in H as [[_ <-]|[_ H]]; [reflexivity|]).
  by rewrite lookup_empty in H.
Qed.

Lemma zodOptionalPositive_Some (o : option Q) (q : Q) :
  zodOptionalPositive o = true -> o = Some q -> (0 < q)%Q.
Proof. intros H ->. by apply zodPositive_true. Qed.

(** Every entry of the role table is positive once the arguments passed the
    schema. *)
Lemma roleTokens_positive (roleAmounts : option RoleAmounts) (k : string) (v : Q) :
  zodRoleAmounts roleAmounts = true ->
  roleTokens roleAmounts !! k = Some v -> (0 < v)%Q.
Proof.
  intros Hzod. unfold roleTokens.
  apply foldl_insert_values; [apply defaultRoleTokens_positive|].
  destruct roleAmounts as [ra|]; [|constructor]. cbn in Hzod.
  repeat (apply andb_true_iff in Hzod as [Hzod ?]).
  unfold roleAmountsEntries.
  destruct ra as [o d m vp vip]; cbn in *.
  repeat match goal with
         | |- context [omap _ (_ :: _)] => cbn [omap list_omap]
         end.
  destruct o, d, m, vp, vip; cbn;
    repeat constructor; cbn; by apply zodPositive_true.
Qed.

Lemma employeeTokenAmount_positive (uniformAmount : option Q)
    (roleAmounts : option RoleAmounts) (employee : Employee) :
  zodOptionalPositive uniformAmount = true ->
  zodRoleAmounts roleAmounts = true ->
  (0 < employeeTokenAmount uniformAmount (roleTokens roleAmounts) employee)%Q.
Proof.
  intros Hu Hra. unfold employeeTokenAmount.
  destruct (Js.truthyNum uniformAmount) eqn:Htruthy.
  - destruct uniformAmount as [u|]; [|discriminate]. by apply zodPositive_true.
  - destruct (Js.truthyStr (role employee)); [|reflexivity].
    destruct (role employee) as [r|]; [|reflexivity].
    unfold roleTokenAmount.
    repeat case_match; try reflexivity;
      (apply orNum_positive; [reflexivity|]);
      intros q Hq; by eapply roleTokens_positive.
Qed.

Lemma assignAmounts_spec (uniformAmount : option Q) (tokens : gmap string Q)
    (l : list Employee) (total : Q) :
  (assignAmounts uniformAmount tokens l total).1
  = map (fun e => withTokenAmount e (employeeTokenAmount uniformAmount tokens e)) l
  /\ ((assignAmounts uniformAmount tokens l total).2
      == total + totalAllocated (assignAmounts uniformAmount tokens l total).1)%Q.
Proof.
  revert total. induction l as [|e l IH]; intros total; cbn.
  - split; [reflexivity | ring].
  - specialize (IH (total + employeeTokenAmount uniformAmount tokens e)%Q).
    destruct (assignAmounts uniformAmount tokens l _) as [updated t].
    cbn in *. destruct IH as [-> IH]. split; [reflexivity|].
    rewrite IH. ring.
Qed.



(** X7. With a uniform amount, a successful calculate_amounts gives that
    amount to every employee whatever the role and whatever roleAmounts
    says, and keeps the number of employees. *)
Theorem calculate_amounts_uniform (w : World) (uniform : Q)
    (roleAmounts : option RoleAmounts) (st : ServerState) (total : Q) :
  completion (callTool w (calculate_amounts (Some uniform) roleAmounts) st)
  = Return (AmountsSummary total) ->
  let st' := state (callTool w (calculate_amounts (Some uniform) roleAmounts) st) in
  Forall (fun e => tokenAmount e = Some uniform) (employees st')
  /\ length (employees st') = length (employees st).
Proof.
  cbv zeta. rewrite state_callTool.
  unfold callTool. cbn [dispatch]. unfold handleCalculateAmounts.
  destruct (employees st) as [|e0 l0] eqn:Hemp; [discriminate|].
  rewrite <- Hemp. clear Hemp e0 l0.
  destruct (zodOptionalPositive (Some uniform)) eqn:Hu; [|discriminate].
  destruct (zodRoleAmounts roleAmounts) eqn:Hra; [|discriminate].
  cbn [negb].
  pose proof (assignAmounts_spec (Some uniform) (roleTokens roleAmounts)
                (employees st) 0) as [Hlist _].
  destruct (assignAmounts _ _ (employees st) 0) as [updated t].
  cbn in Hlist |- *. intros _. subst updated.
  assert (Hamount : forall e,
            employeeTokenAmount (Some uniform) (roleTokens roleAmounts) e = uniform).
  { intros e. unfold employeeTokenAmount, Js.truthyNum.
    cbn in Hu. apply zodPositive_true in Hu.
    destruct (Qeq_bool uniform 0) eqn:Hz; [|reflexivity].
    apply Qeq_bool_iff in Hz. rewrite Hz in Hu. discriminate. }
  split.
  - apply Forall_forall. intros e Hin.
    apply list_elem_of_fmap in Hin as (old & -> & _). cbn. by rewrite Hamount.
  - apply length_map.
Qed.

Lemma calculate_amounts_uniform_witness :
  Forall (fun e => tokenAmount e = Some 50%Q)
    (employees
       (state (callTool (simulatedWorld (Thrown "no file") alwaysConfirmed)
                 (calculate_amounts (Some 50%Q) None)
                 (readyState [sampleEmployee "a" (Some "developer") None;
                              sampleEmployee "b" None None])))).
Proof.
  refine (proj1 (calculate_amounts_uniform
                   (simulatedWorld (Thrown "no file") alwaysConfirmed)
                   50%Q None
                   (readyState [sampleEmployee "a" (Some "developer") None;
                                sampleEmployee "b" None None])
                   100%Q _)).
  reflexivity.
Defined.

(** ** generate_wallets *)

Lemma mapWallets_fresh (f : nat -> string -> Employee) (i : nat) (emails : list string) :
  (forall k e, name (f k e) = None /\ role (f k e) = None /\ tokenAmount (f k e) = None) ->
  Forall (fun e => name e = None /\ role e = None /\ tokenAmount e = None)
    (mapWallets f i emails).
Proof.
  intros Hf. revert i. induction emails as [|e rest IH]; intros i; cbn;
    constructor; [apply Hf | apply IH].
Qed.

Lemma createCustodialWallets_fresh (w : World) (apiKey : string)
    (emails : list string) (wallets : list Employee) :
  createCustodialWallets w apiKey emails = Returned wallets ->
  Forall (fun e => name e = None /\ role e = None /\ tokenAmount e = None) wallets.
Proof.
  unfold createCustodialWallets. destruct (simulatedCustody apiKey).
  - intros [= <-]. by apply mapWallets_fresh.
  - destruct (crossmintClient w apiKey); cbn; [|discriminate].
    intros [= <-]. by apply mapWallets_fresh.
Qed.

(** X8. A successful generate_wallets replaces the registry by one record
    per non-blank line of the text, in order, carrying the line's email and
    nothing else: no name (a name written on the line is dropped), no role
    and no amount.  The registry is not empty, and start_airdrop called
    next is refused with an InvalidRequest error without reaching the
    engine, whatever was calculated before. *)
Theorem generate_wallets_fresh_registry (w : World) (text : string)
    (apiKey : option string) (st : ServerState) :
  completion (callTool w (generate_wallets text apiKey) st) = Return Summary ->
  let st' := state (callTool w (generate_wallets text apiKey) st) in
  employees st' <> []
  /\ map email (employees st') = map parsedEmail (parseEmployees text)
  /\ Forall (fun e => name e = None /\ role e = None /\ tokenAmount e = None)
       (employees st')
  /\ exists msg,
       callTool w start_airdrop st' = throws (McpError InvalidRequest msg) st'.
Proof.
  cbv zeta. rewrite state_callTool, completion_callTool_Summary.
  cbn [dispatch]. unfold handleGenerateWallets.
  destruct (connectedWallet st) as [wallet|] eqn:Hwallet; [|discriminate].
  destruct (negb (Js.truthyStr apiKey)); [discriminate|].
  destruct (length _ =? 0)%nat eqn:Hlen; [discriminate|].
  destruct (createCustodialWallets _ _ _) as [wallets|m] eqn:Hwallets;
    [|discriminate].
  intros _. cbn [state returns employees setEmployees].
  pose proof (createCustodialWallets_emails _ _ _ _ Hwallets) as Hemails.
  pose proof (createCustodialWallets_fresh _ _ _ _ Hwallets) as Hfresh.
  apply Nat.eqb_neq in Hlen.
  assert (Hne : wallets <> []).
  { intros ->. cbn in Hemails. rewrite <- Hemails in Hlen. by apply Hlen. }
  repeat split; try assumption.
  rewrite callTool_start_airdrop. unfold handleStartAirdrop.
  cbn [employees setEmployees connectedWallet createdToken].
  destruct wallets as [|first rest]; [contradiction|].
  rewrite Hwallet.
  destruct (createdToken st); [|eexists; reflexivity].
  apply Forall_cons in Hfresh as [(_ & _ & Hamount) _].
  cbn [missingAmounts existsb]. rewrite Hamount. cbn. eexists. reflexivity.
Qed.

Lemma generate_wallets_fresh_registry_witness :
  Forall (fun e => name e = None /\ role e = None /\ tokenAmount e = None)
    (employees
       (state (callTool (simulatedWorld (Thrown "no file") alwaysConfirmed)
                 (generate_wallets "Ann, a@x.com" (Some "ck_key"))
                 (readyState [sampleEmployee "z" (Some "manager") (Some 300%Q)])))).
Proof.
  refine (proj1 (proj2 (proj2 (generate_wallets_fresh_registry
                   (simulatedWorld (Thrown "no file") alwaysConfirmed)
                   "Ann, a@x.com" (Some "ck_key")
                   (readyState [sampleEmployee "z" (Some "manager") (Some 300%Q)])
                   _)))).
  reflexivity.
Defined.

(** ** upload_csv: the roles that get stored *)

Lemma lowerChar_not_V (c : ascii) : Js.lowerChar c <> "V"%char.
Proof. destruct c as [[] [] [] [] [] [] [] []]; vm_compute; discriminate. Qed.

Lemma toLowerCase_not_VP (r : string) :
  Js.toLowerCase r <> "VP" /\ Js.toLowerCase r <> "VIP".
Proof.
  destruct r as [|c r]; cbn; [split; discriminate|].
  split; intros [= Hc _]; by apply (lowerChar_not_V c).
Qed.

Lemma validRoles_lower_case (r : string) :
  Js.includes validRoles (Js.toLowerCase r) = true ->
  Js.toLowerCase r = "operational" \/ Js.toLowerCase r = "developer"
  \/ Js.toLowerCase r = "manager".
Proof.
  unfold Js.includes, validRoles. cbn [existsb].
  destruct (toLowerCase_not_VP r) as [Hvp Hvip].
  intros H. repeat (apply orb_true_iff in H as [H|H]);
    try (apply String.eqb_eq in H); auto; try contradiction; discriminate.
Qed.

Lemma updateRecord_role (m : gmap string Employee) (record : CsvRecord)
    (updated : Employee) :
  updateRecord m record = inr updated ->
  role updated = None \/ role updated = Some "operational"
  \/ role updated = Some "developer" \/ role updated = Some "manager".
Proof.
  unfold updateRecord.
  destruct (csvEmail record) as [recordEmail|]; [|discriminate].
  destruct (String.eqb recordEmail ""); [discriminate|].
  destruct (m !! recordEmail) as [existing|]; [|discriminate].
  destruct (csvRole record) as [recordRole|]; [|intros [= <-]; by left].
  destruct (String.eqb recordRole "") eqn:Hempty.
  - cbn. intros [= <-]. cbn. apply String.eqb_eq in Hempty. subst. by left.
  - cbn [negb andb].
    destruct (Js.includes validRoles (Js.toLowerCase recordRole)) eqn:Hvalid;
      [|discriminate].
    cbn. intros [= <-]. cbn. right.
    apply validRoles_lower_case in Hvalid.
    unfold Js.orUndefined, Js.truthyStr.
    destruct Hvalid as [-> | [-> | ->]]; cbn; auto.
Qed.

(** X9. After a successful upload_csv every record of the registry has no
    role or one of the roles operational, developer, manager, spelled in
    lower case: no other spelling and no other role (VP and VIP included) is
    ever stored. *)
Theorem upload_csv_stored_roles (w : World) (filePath : string) (st : ServerState) :
  completion (callTool w (upload_csv filePath) st) = Return Summary ->
  Forall
    (fun e => role e = None \/ role e = Some "operational"
              \/ role e = Some "developer" \/ role e = Some "manager")
    (employees (state (callTool w (upload_csv filePath) st))).
Proof.
  rewrite callTool_upload_csv. unfold handleUploadCsv, importRecords.
  destruct (readCsv w filePath) as [records|m]; [|discriminate].
  destruct records as [|first rest] eqn:Hrecords; [discriminate|].
  rewrite <- Hrecords. clear Hrecords.
  destruct (csvEmail first); [|discriminate].
  destruct (updateRecords _ records) as [e|updated] eqn:Hrows; [discriminate|].
  intros _. cbn. apply updateRecords_accepted in Hrows.
  induction Hrows as [|record u records updated Hu _ IH]; constructor;
    [by eapply updateRecord_role | exact IH].
Qed.

Lemma upload_csv_stored_roles_witness :
  Forall
    (fun e => role e = None \/ role e = Some "operational"
              \/ role e = Some "developer" \/ role e = Some "manager")
    (employees
       (state (callTool
                 (simulatedWorld (Returned [csvRow "a@x.com" (Some "DEVELOPER")])
                    alwaysConfirmed)
                 (upload_csv "employees.csv")
                 (readyState [sampleEmployee "a" None None])))).
Proof.
  apply (upload_csv_stored_roles
           (simulatedWorld (Returned [csvRow "a@x.com" (Some "DEVELOPER")])
              alwaysConfirmed)
           "employees.csv" (readyState [sampleEmployee "a" None None])).
  reflexivity.
Defined.

(** ** send_emails *)

(** X10. A successful send_emails records every employee as successfully
    notified and none as failed, whether or not the notifier accepted the
    individual messages: a rejected message falls back to a simulated send
    and is counted as sent.  The call succeeds only on a non-empty registry
    after a completed airdrop. *)
Theorem send_emails_counts (w : World) (fromEmail : string)
    (subject resendApiKey : option string) (st : ServerState) :
  completion (callTool w (send_emails fromEmail subject resendApiKey) st)
  = Return Summary ->
  emailsStatus (state (callTool w (send_emails fromEmail subject resendApiKey) st))
  = {| sent := true; emailsSuccessful := length (employees st); emailsFailed := 0 |}
  /\ completed (airdropStatus st) = true
  /\ employees st <> [].
Proof.
  rewrite state_callTool, completion_callTool_Summary.
  cbn [dispatch]. unfold handleSendEmails, sendWalletEmails.
  destruct (employees st) as [|e0 l0] eqn:Hemp; [discriminate|].
  rewrite <- Hemp.
  destruct (completed (airdropStatus st)); [|discriminate]. cbn [negb].
  destruct (negb (Js.truthyStr resendApiKey)); [discriminate|].
  destruct (resendNew w _); [|discriminate].
  rewrite sendEach_counts. cbn. intros _.
  repeat split. rewrite Hemp. discriminate.
Qed.

Lemma send_emails_counts_witness :
  let w := simulatedWorld (Thrown "no file") alwaysConfirmed in
  let st := setAirdropStatus
              {| started := true; completed := true; successful := 1; failed := 0 |}
              (readyState [sampleEmployee "a" None (Some 100%Q)]) in
  emailsStatus (state (callTool w (send_emails "hr@x.com" None (Some "re_key")) st))
  = {| sent := true; emailsSuccessful := 1; emailsFailed := 0 |}.
Proof.
  cbv zeta.
  refine (proj1 (send_emails_counts
                   (simulatedWorld (Thrown "no file") alwaysConfirmed)
                   "hr@x.com" None (Some "re_key")
                   (setAirdropStatus
                      {| started := true; completed := true; successful := 1;
                         failed := 0 |}
                      (readyState [sampleEmployee "a" None (Some 100%Q)]))
                   _)).
  reflexivity.
Defined.

(** ** The text of generate_wallets *)

Section ParseFacts.

Implicit Types (s e : string) (sep c : ascii).

Lemma split_no_separator sep s :
  forallChars (fun c => negb (Ascii.eqb c sep)) s = true ->
  Js.split sep s = [s].
Proof.
  induction s as [|c s IH]; cbn; [reflexivity|].
  intros H. apply andb_true_iff in H as [Hc Hs].
  apply negb_true_iff in Hc. rewrite Hc, (IH Hs). reflexivity.
Qed.

Lemma split_append sep s rest :
  forallChars (fun c => negb (Ascii.eqb c sep)) s = true ->
  Js.split sep (s ++ String sep rest) = s :: Js.split sep rest.
Proof.
  induction s as [|c s IH].
  - intros _. change ("" ++ String sep rest)%string with (String sep rest).
    cbn [Js.split]. by rewrite Ascii.eqb_refl.
  - intros H. cbn [forallChars] in H. apply andb_true_iff in H as [Hc Hs].
    apply negb_true_iff in Hc.
    change (String c s ++ String sep rest)%string
      with (String c (s ++ String sep rest)%string).
    cbn [Js.split]. rewrite Hc, (IH Hs). reflexivity.
Qed.

(** Splitting the lines joined by the separator gives the lines back. *)
Lemma split_join sep (l : list string) :
  l <> [] ->
  Forall (fun s => forallChars (fun c => negb (Ascii.eqb c sep)) s = true) l ->
  Js.split sep (Js.join (String sep EmptyString) l) = l.
Proof.
  intros Hne Hall. induction Hall as [|s l Hs Hl IH]; [contradiction|].
  destruct l as [|s' l'].
  - cbn. by apply split_no_separator.
  - change (Js.join (String sep "") (s :: s' :: l'))
      with (s ++ String sep (Js.join (String sep "") (s' :: l')))%string.
    rewrite split_append by exact Hs. f_equal. by apply IH.
Qed.

(** No white space starts with an ASCII character that is not a space,
    and none ends with one. *)
Lemma dropSpace_plain c s :
  isAscii c = true -> Js.isSpace c = false ->
  Js.dropSpace Js.whiteSpaces (String c s) = None
  /\ Js.dropSpace (map Js.reverse Js.whiteSpaces) (String c s) = None.
Proof.
  destruct c as [[] [] [] [] [] [] [] []]; intros Hascii Hspace;
    vm_compute in Hascii, Hspace; try discriminate; split; reflexivity.
Qed.

Lemma forallChars_forallb (p : ascii -> bool) s :
  forallChars p s = forallb p (list_ascii_of_string s).
Proof. induction s as [|c s IH]; cbn; [reflexivity | by rewrite IH]. Qed.

Lemma forallChars_reverse (p : ascii -> bool) s :
  forallChars p (Js.reverse s) = forallChars p s.
Proof.
  unfold Js.reverse.
  rewrite !forallChars_forallb, list_ascii_of_string_of_list_ascii.
  induction (list_ascii_of_string s) as [|c l IH]; cbn; [reflexivity|].
  rewrite forallb_app, IH. cbn. rewrite andb_true_r. apply andb_comm.
Qed.

Lemma reverse_involutive s : Js.reverse (Js.reverse s) = s.
Proof.
  unfold Js.reverse.
  by rewrite list_ascii_of_string_of_list_ascii, rev_involutive,
    string_of_list_ascii_of_string.
Qed.

Lemma dropSpaces_plain (n : nat) s :
  forallChars (fun c => isAscii c && negb (Js.isSpace c)) s = true ->
  Js.dropSpaces Js.whiteSpaces n s = s
  /\ Js.dropSpaces (map Js.reverse Js.whiteSpaces) n s = s.
Proof.
  intros H. destruct n as [|n]; [by split|].
  destruct s as [|c s]; [by split|].
  cbn [forallChars] in H. apply andb_true_iff in H as [Hc _].
  apply andb_true_iff in Hc as [Hascii Hspace]. apply negb_true_iff in Hspace.
  cbn [Js.dropSpaces].
  destruct (dropSpace_plain c s Hascii Hspace) as [-> ->]. by split.
Qed.

Lemma trim_plain s :
  forallChars (fun c => isAscii c && negb (Js.isSpace c)) s = true -> Js.trim s = s.
Proof.
  intros H. unfold Js.trim, Js.trimStart, Js.trimEnd.
  rewrite (proj1 (dropSpaces_plain _ s H)).
  rewrite (proj2 (dropSpaces_plain _ (Js.reverse s)
                    ltac:(by rewrite forallChars_reverse))).
  apply reverse_involutive.
Qed.

Lemma forallChars_impl (p q : ascii -> bool) s :
  (forall c, p c = true -> q c = true) ->
  forallChars p s = true -> forallChars q s = true.
Proof.
  intros Hpq. induction s as [|c s IH]; cbn; [reflexivity|].
  intros H. apply andb_true_iff in H as [Hc Hs].
  by rewrite (Hpq c Hc), (IH Hs).
Qed.

Lemma plainEmail_facts e :
  plainEmail e = true ->
  e <> ""
  /\ forallChars (fun c => isAscii c && negb (Js.isSpace c)) e = true
  /\ forallChars (fun c => negb (Ascii.eqb c Js.comma)) e = true
  /\ forallChars (fun c => negb (Ascii.eqb c Js.newline)) e = true.
Proof.
  unfold plainEmail. intros H. apply andb_true_iff in H as [Hne Hall].
  apply negb_true_iff, String.eqb_neq in Hne.
  repeat split; [exact Hne | | |]; eapply forallChars_impl; try exact Hall;
    intros c Hc; apply andb_true_iff in Hc as [Hspace Hcomma]; try assumption.
  apply andb_true_iff in Hspace as [_ Hspace].
  apply negb_true_iff. destruct (Ascii.eqb c Js.newline) eqn:Heq; [|reflexivity].
  apply Ascii.eqb_eq in Heq. subst c. discriminate.
Qed.

Lemma parseEmployeeLine_plain e :
  plainEmail e = true ->
  parseEmployeeLine e = {| parsedName := None; parsedEmail := e |}.
Proof.
  intros H. apply plainEmail_facts in H as (_ & Hspace & Hcomma & _).
  unfold parseEmployeeLine. rewrite split_no_separator by exact Hcomma.
  by rewrite trim_plain.
Qed.

End ParseFacts.

Lemma generate_wallets_emails (w : World) (text : string)
    (apiKey : option string) (st : ServerState) :
  completion (callTool w (generate_wallets text apiKey) st) = Return Summary ->
  map email (employees (state (callTool w (generate_wallets text apiKey) st)))
  = map parsedEmail (parseEmployees text).
Proof.
  rewrite state_callTool, completion_callTool_Summary.
  cbn [dispatch]. unfold handleGenerateWallets.
  destruct (connectedWallet st); [|discriminate].
  destruct (negb (Js.truthyStr apiKey)); [discriminate|].
  destruct (length _ =? 0)%nat; [discriminate|].
  destruct (createCustodialWallets _ _ _) as [wallets|m] eqn:Hwallets;
    [|discriminate].
  intros _. cbn. by apply createCustodialWallets_emails in Hwallets.
Qed.

(** X11. Writing one plain email per line (non-empty, ASCII characters
    only, no white space, no comma) and parsing the text as generate_wallets does gives exactly
    those emails back, in order, each without a name; and a successful
    generate_wallets on that text stores exactly those emails. *)
Theorem parseEmployees_join (emails : list string) :
  Forall (fun e => plainEmail e = true) emails ->
  parseEmployees (Js.join (String Js.newline EmptyString) emails)
  = map (fun e => {| parsedName := None; parsedEmail := e |}) emails
  /\ forall w apiKey st,
       completion
         (callTool w
            (generate_wallets (Js.join (String Js.newline EmptyString) emails) apiKey)
            st)
       = Return Summary ->
       map email
         (employees
            (state
               (callTool w
                  (generate_wallets (Js.join (String Js.newline EmptyString) emails)
                     apiKey)
                  st)))
       = emails.
Proof.
  intros Hplain.
  assert (Hparse :
    parseEmployees (Js.join (String Js.newline EmptyString) emails)
    = map (fun e => {| parsedName := None; parsedEmail := e |}) emails).
  { unfold parseEmployees. destruct emails as [|e0 rest]; [reflexivity|].
    rewrite split_join; [|discriminate|].
    2:{ eapply Forall_impl; [exact Hplain|]. intros e He.
        by apply plainEmail_facts in He as (_ & _ & _ & Hnl). }
    assert (Htrim : map Js.trim (e0 :: rest) = e0 :: rest).
    { clear -Hplain. induction Hplain as [|e l He _ IH]; cbn; [reflexivity|].
      apply plainEmail_facts in He as (_ & Hspace & _).
      by rewrite IH, trim_plain. }
    rewrite Htrim.
    assert (Hfilter : filter (fun line => (0 < String.length line)%nat) (e0 :: rest)
                      = e0 :: rest).
    { clear -Hplain. induction Hplain as [|e l He _ IH]; [reflexivity|].
      rewrite filter_cons_True, IH; [reflexivity|].
      apply plainEmail_facts in He as (Hne & _). destruct e; [contradiction|].
      cbn. lia. }
    rewrite Hfilter. clear -Hplain.
    induction Hplain as [|e l He _ IH]; cbn; [reflexivity|].
    by rewrite IH, parseEmployeeLine_plain. }
  split; [exact Hparse|].
  intros w apiKey st Hdone.
  rewrite (generate_wallets_emails w _ apiKey st Hdone).
  rewrite Hparse, map_map. cbn. apply map_id.
Qed.

Lemma parseEmployees_join_witness :
  parseEmployees (Js.join (String Js.newline EmptyString) ["a@x.com"; "b@x.com"])
  = [{| parsedName := None; parsedEmail := "a@x.com" |};
     {| parsedName := None; parsedEmail := "b@x.com" |}].
Proof.
  refine (proj1 (parseEmployees_join ["a@x.com"; "b@x.com"] _)).
  repeat constructor.
Defined.

(** ** The distribution engine *)

(** X12. The number of batches is the number of recipients divided by
    five, rounded up. *)
Theorem makeBatches_count {A} (recipients : list A) :
  length (makeBatches recipients) = ((length recipients + 4) / 5)%nat.
Proof.
  unfold makeBatches.
  enough (H : forall i,
            length (batchesFrom recipients i)
            = ((length recipients - i + 4) / 5)%nat).
  { rewrite H. f_equal. lia. }
  intros i. funelim (batchesFrom recipients i); clear Heqcall.
  - cbn [length]. rewrite H. unfold batchSize.
    destruct (le_lt_dec (i + 5) (length recipients)) as [Hfull|Hlast].
    + replace (length recipients - i + 4)%nat
        with (length recipients - (i + 5) + 4 + 1 * 5)%nat by lia.
      rewrite Nat.div_add by lia. lia.
    + replace (length recipients - (i + 5) + 4)%nat with 4%nat by lia.
      change (4 / 5)%nat with 0%nat.
      apply (Nat.div_unique _ 5 1 (length recipients - i - 1)); lia.
  - cbn. replace (length recipients - i + 4)%nat with 4%nat by lia. reflexivity.
Qed.

Section EngineTransfers.

Context (w : World).
Context (sender mintPublicKey senderTokenAccount : string).
Context (defaultAmount tokenDecimals : Q).

Lemma recipientInstructions_transfer (submitted : nat) (recipient : Recipient)
    (instrs : list Instruction) :
  recipientInstructions w sender mintPublicKey senderTokenAccount defaultAmount
    tokenDecimals submitted recipient = Returned instrs ->
  (exists transfer, omap transferOf instrs = [transfer] /\ owedTransfer w mintPublicKey defaultAmount tokenDecimals recipient transfer)
  /\ (1 <= length instrs <= 2)%nat.
Proof.
  unfold recipientInstructions, owedTransfer, createTransferInstruction.
  destruct (newPublicKey w (address recipient)) as [pk|m] eqn:Hpk; cbn;
    [|discriminate].
  destruct (getAssociatedTokenAddress w mintPublicKey pk) as [ata|m] eqn:Hata; cbn;
    [|discriminate].
  destruct (bigInt w _) as [value|m] eqn:Hvalue; cbn; [|discriminate].
  assert (Hexact : forall product,
            exactProduct (Js.orNum (amount recipient) defaultAmount)
              (mathPow10 w tokenDecimals) product ->
            u64 w value = product).
  { intros product Hproduct.
    apply (exactProduct_bigInt w) in Hproduct as [Hbig Hfits]. congruence. }
  destruct (getAccount w submitted ata); intros [= <-]; cbn;
    (split; [eexists; split; [reflexivity|]; cbn;
             split; [eauto | split; [apply u64_range | exact Hexact]]
            | lia]).
Qed.

Lemma batchTransaction_transfers (submitted : nat) (batch : list Recipient)
    (tx : Transaction) :
  batchTransaction w sender mintPublicKey senderTokenAccount defaultAmount
    tokenDecimals submitted batch = Returned tx ->
  Forall2 (owedTransfer w mintPublicKey defaultAmount tokenDecimals) batch (omap transferOf tx)
  /\ (length batch <= length tx <= 2 * length batch)%nat.
Proof.
  revert tx. induction batch as [|recipient rest IH]; intros tx; cbn.
  - intros [= <-]. split; [constructor | cbn; lia].
  - destruct (recipientInstructions _ _ _ _ _ _ _ recipient) as [instrs|m] eqn:Hr;
      cbn; [|discriminate].
    destruct (batchTransaction _ _ _ _ _ _ _ rest) as [more|m] eqn:Hrest;
      cbn; [|discriminate].
    intros [= <-].
    apply recipientInstructions_transfer in Hr as [(transfer & Ht & Howed) Hlen].
    destruct (IH more eq_refl) as [IHt IHlen].
    rewrite omap_app, Ht, length_app. split; [|lia].
    constructor; assumption.
Qed.

Lemma processBatches_transfers (batches : list (list Recipient)) (i : nat)
    (txIds : list string) :
  (processBatches w sender mintPublicKey senderTokenAccount defaultAmount
     tokenDecimals i batches).1 = Returned txIds ->
  Forall2 (owedTransfer w mintPublicKey defaultAmount tokenDecimals) (concat batches)
    (transfersIn
       (processBatches w sender mintPublicKey senderTokenAccount defaultAmount
          tokenDecimals i batches).2)
  /\ length txIds = length batches.
Proof.
  revert i txIds. induction batches as [|batch rest IH]; intros i txIds; cbn.
  - intros [= <-]. split; [constructor | reflexivity].
  - destruct (batchTransaction _ _ _ _ _ _ _ batch) as [tx|m] eqn:Htx; cbn;
      [|discriminate].
    destruct (sendAndConfirmTransaction w i tx) as [sig|m]; cbn; [|discriminate].
    specialize (IH (S i)).
    destruct (processBatches _ _ _ _ _ _ (S i) rest) as [[ids|m] evs]; cbn in *;
      [|discriminate].
    intros [= <-]. destruct (IH ids eq_refl) as [IHt IHlen].
    apply batchTransaction_transfers in Htx as [Ht _].
    split; [by apply Forall2_app | cbn; lia].
Qed.

(** Every submitted transaction, in a run that succeeds or not, carries at
    least one and at most ten instructions. *)
Lemma processBatches_instruction_count (batches : list (list Recipient)) (i j : nat)
    (tx : Transaction) :
  Forall (fun batch => (0 < length batch <= batchSize)%nat) batches ->
  BatchSubmitted j tx ∈
    (processBatches w sender mintPublicKey senderTokenAccount defaultAmount
       tokenDecimals i batches).2 ->
  (1 <= length tx <= 2 * batchSize)%nat.
Proof.
  intros Hsizes. revert i.
  induction Hsizes as [|batch rest Hbatch _ IH]; intros i; cbn.
  - intros Hin. by apply elem_of_nil in Hin.
  - destruct (batchTransaction _ _ _ _ _ _ _ batch) as [tx0|m] eqn:Htx; cbn.
    2:{ intros Hin. by apply elem_of_nil in Hin. }
    apply batchTransaction_transfers in Htx as [_ Hlen].
    destruct (sendAndConfirmTransaction w i tx0) as [sig|m]; cbn.
    2:{ intros Hin. apply list_elem_of_singleton in Hin. injection Hin as _ <-.
        unfold batchSize in *. lia. }
    specialize (IH (S i)).
    destruct (processBatches _ _ _ _ _ _ (S i) rest) as [r evs]; cbn in *.
    intros Hin. apply elem_of_cons in Hin as [Heq|Hin]; [|by apply IH].
    injection Heq as _ <-. unfold batchSize in *. lia.
Qed.

End EngineTransfers.

Lemma sendCompressedAirdrop_returned (w : World) (sender mintAddress : string)
    (amount decimals : Q) (recipients : list Recipient)
    (heliusApiKey : option string) (txIds : list string) :
  (sendCompressedAirdrop w sender mintAddress amount decimals recipients
     heliusApiKey).1 = Returned txIds ->
  exists mintPublicKey senderTokenAccount,
    newPublicKey w mintAddress = Returned mintPublicKey
    /\ (sendCompressedAirdrop w sender mintAddress amount decimals recipients
          heliusApiKey).2
       = AirdropInvoked (length recipients)
         :: (processBatches w sender mintPublicKey senderTokenAccount amount
               decimals 0 (makeBatches recipients)).2
    /\ (processBatches w sender mintPublicKey senderTokenAccount amount
          decimals 0 (makeBatches recipients)).1 = Returned txIds.
Proof.
  unfold sendCompressedAirdrop.
  destruct (newPublicKey w mintAddress) as [mintPublicKey|m]; [|discriminate].
  destruct (getAssociatedTokenAddress w mintPublicKey sender) as [sta|m];
    [|discriminate].
  destruct (getAccount w 0 sta); [|discriminate].
  destruct (processBatches _ _ _ _ _ _ 0 _) as [[ids|m] evs] eqn:Hp; cbn;
    [|discriminate].
  intros [= <-]. exists mintPublicKey, sta. rewrite Hp. repeat split.
Qed.

(** X13. When the engine returns, every recipient has received exactly one
    transfer, in the order of the list, to the token account derived from
    its address.  The quantity transferred fits a u64, and it is the
    recipient's own amount (the default amount when it has none or zero)
    times ten to the power of the decimals whenever both are non-negative
    integers whose product is below 2^53, so that the product of the code
    is exact.  The engine returns one transaction id per batch. *)
Theorem sendCompressedAirdrop_transfers (w : World) (sender mintAddress : string)
    (amount decimals : Q) (recipients : list Recipient)
    (heliusApiKey : option string) (txIds : list string) :
  (sendCompressedAirdrop w sender mintAddress amount decimals recipients
     heliusApiKey).1 = Returned txIds ->
  exists mintPublicKey,
    newPublicKey w mintAddress = Returned mintPublicKey
    /\ Forall2 (owedTransfer w mintPublicKey amount decimals) recipients
         (transfersIn
            (sendCompressedAirdrop w sender mintAddress amount decimals recipients
               heliusApiKey).2)
    /\ length txIds = length (makeBatches recipients).
Proof.
  intros Hret.
  apply sendCompressedAirdrop_returned in Hret as (mpk & sta & Hmint & Hevs & Hres).
  exists mpk. split; [exact Hmint|]. rewrite Hevs. cbn [transfersIn].
  destruct (processBatches_transfers w sender mpk sta amount decimals
              (makeBatches recipients) 0 txIds Hres) as [Ht Hlen].
  split; [|exact Hlen].
  unfold makeBatches in Ht at 1. by rewrite concat_batchesFrom, drop_0 in Ht.
Qed.

Lemma sendCompressedAirdrop_transfers_witness :
  transfersIn
    (sendCompressedAirdrop (simulatedWorld (Thrown "no file") alwaysConfirmed)
       "Sender" "Mint" 7 2
       [{| address := "a"; recipientEmail := "a@x.com"; amount := Some 3%Q |};
        {| address := "b"; recipientEmail := "b@x.com"; amount := None |}]
       None).2
  = [("a/Mint", 300%Z); ("b/Mint", 700%Z)]
  /\ exists mintPublicKey,
       newPublicKey (simulatedWorld (Thrown "no file") alwaysConfirmed) "Mint"
       = Returned mintPublicKey.
Proof.
  split; [reflexivity|].
  destruct (sendCompressedAirdrop_transfers
              (simulatedWorld (Thrown "no file") alwaysConfirmed)
              "Sender" "Mint" 7 2
              [{| address := "a"; recipientEmail := "a@x.com"; amount := Some 3%Q |};
               {| address := "b"; recipientEmail := "b@x.com"; amount := None |}]
              None ["signature"] eq_refl) as (mpk & Hmint & _).
  exists mpk. exact Hmint.
Defined.

Lemma sendCompressedAirdrop_submissions (w : World) (sender mintAddress : string)
    (amount decimals : Q) (recipients : list Recipient)
    (heliusApiKey : option string) (j : nat) (tx : Transaction) :
  BatchSubmitted j tx ∈
    (sendCompressedAirdrop w sender mintAddress amount decimals recipients
       heliusApiKey).2 ->
  (1 <= length tx <= 2 * batchSize)%nat.
Proof.
  unfold sendCompressedAirdrop.
  assert (Hnone : BatchSubmitted j tx ∈ [AirdropInvoked (length recipients)]
                  -> (1 <= length tx <= 2 * batchSize)%nat).
  { intros Hin. apply list_elem_of_singleton in Hin. discriminate. }
  destruct (newPublicKey w mintAddress) as [mintPublicKey|m]; [|exact Hnone].
  destruct (getAssociatedTokenAddress w mintPublicKey sender) as [sta|m];
    [|exact Hnone].
  destruct (getAccount w 0 sta); [|exact Hnone].
  pose proof (processBatches_instruction_count w sender mintPublicKey sta amount
                decimals (makeBatches recipients) 0 j tx
                (batchesFrom_sizes recipients 0)) as Hcount.
  destruct (processBatches _ _ _ _ _ _ 0 _) as [r evs]. cbn in *.
  intros Hin. apply elem_of_cons in Hin as [[=]|Hin]. by apply Hcount.
Qed.

(** X14. Every transaction that start_airdrop submits, in a run that
    completes or not, carries at least one and at most ten instructions: at
    most five recipients, each with a transfer and at most one account
    creation. *)
Theorem start_airdrop_transaction_size (w : World) (st : ServerState)
    (j : nat) (tx : Transaction) :
  BatchSubmitted j tx ∈ events (callTool w start_airdrop st) ->
  (1 <= length tx <= 10)%nat.
Proof.
  rewrite callTool_start_airdrop. unfold handleStartAirdrop, throws, returns.
  assert (Hnone : BatchSubmitted j tx ∈ [] -> (1 <= length tx <= 10)%nat)
    by (intros Hin; by apply elem_of_nil in Hin).
  destruct (employees st) as [|e0 l] eqn:Hemp; [exact Hnone|].
  destruct (connectedWallet st); [|exact Hnone].
  destruct (createdToken st) as [token|]; [|exact Hnone].
  destruct (missingAmounts (e0 :: l)); [exact Hnone|].
  destruct (negb (Js.truthyStr (HELIUS_API_KEY w))); [exact Hnone|].
  pose proof (sendCompressedAirdrop_submissions w (keypairGenerate w)
                (mintAddress token) 0 (decimals token)
                (map recipientOf (e0 :: l)) (HELIUS_API_KEY w) j tx) as Hsub.
  destruct (sendCompressedAirdrop _ _ _ _ _ _ _) as [[txIds|m] evs]; cbn in *;
    exact Hsub.
Qed.

Lemma start_airdrop_transaction_size_witness :
  (1 <= length
          [TransferInstruction "GeneratedKeypair/MintRWD" "wallet:a/MintRWD"
             "GeneratedKeypair" 100000000000%Z] <= 10)%nat.
Proof.
  apply (start_airdrop_transaction_size
           (simulatedWorld (Thrown "no file") alwaysConfirmed)
           (readyState [sampleEmployee "a" None (Some 100%Q)]) 0%nat).
  vm_compute. apply elem_of_cons; right. apply elem_of_cons; left. reflexivity.
Defined.

(** X15. start_airdrop reaches the engine exactly when the registry is not
    empty, a wallet is connected, a token exists, every employee has an
    amount and the environment variable HELIUS_API_KEY is set to a non-empty
    value; in every other case it submits nothing and produces no event. *)
Theorem start_airdrop_reaches_engine (w : World) (st : ServerState) :
  events (callTool w start_airdrop st) <> []
  <-> (employees st <> [] /\ connectedWallet st <> None /\ createdToken st <> None
       /\ missingAmounts (employees st) = false
       /\ Js.truthyStr (HELIUS_API_KEY w) = true).
Proof.
  rewrite callTool_start_airdrop. unfold handleStartAirdrop, throws, returns.
  destruct (employees st) as [|e0 l] eqn:Hemp.
  { cbn. split; [contradiction | intros [H _]; contradiction]. }
  destruct (connectedWallet st).
  2:{ cbn. split; [contradiction | intros (_ & H & _); contradiction]. }
  destruct (createdToken st) as [token|].
  2:{ cbn. split; [contradiction | intros (_ & _ & H & _); contradiction]. }
  destruct (missingAmounts (e0 :: l)).
  { cbn. split; [contradiction | intros (_ & _ & _ & H & _); discriminate]. }
  destruct (Js.truthyStr (HELIUS_API_KEY w)); cbn [negb].
  2:{ cbn. split; [contradiction | intros (_ & _ & _ & _ & H); discriminate]. }
  split; [intros _; repeat split; discriminate|]. intros _.
  unfold sendCompressedAirdrop.
  destruct (newPublicKey w (mintAddress token)) as [mpk|m]; [|cbn; discriminate].
  destruct (getAssociatedTokenAddress w mpk (keypairGenerate w)) as [sta|m];
    [|cbn; discriminate].
  destruct (getAccount w 0 sta); [|cbn; discriminate].
  destruct (processBatches _ _ _ _ _ _ _ _) as [[ids|m] evs]; cbn; discriminate.
Qed.

(** ** Liveness of start_airdrop *)

Section EngineLiveness.

Context (w : World).
Context (sender mintPublicKey senderTokenAccount : string).
Context (defaultAmount tokenDecimals : Q).

Local Abbreviation answered :=
  (fun recipient : Recipient =>
     (exists key account,
        newPublicKey w (address recipient) = Returned key
        /\ getAssociatedTokenAddress w mintPublicKey key = Returned account)
     /\ exists product,
          exactProduct (Js.orNum (amount recipient) defaultAmount)
            (mathPow10 w tokenDecimals) product).

Local Abbreviation process :=
  (processBatches w sender mintPublicKey senderTokenAccount defaultAmount
     tokenDecimals).

Lemma batchTransaction_returns (submitted : nat) (batch : list Recipient) :
  Forall answered batch ->
  exists tx,
    batchTransaction w sender mintPublicKey senderTokenAccount defaultAmount
      tokenDecimals submitted batch = Returned tx.
Proof.
  induction 1 as [|recipient rest [(key & account & Hkey & Haccount) [product Hp]]
                    _ [more IH]]; cbn; [eauto|].
  unfold recipientInstructions, createTransferInstruction.
  rewrite Hkey. cbn. rewrite Haccount. cbn.
  apply (exactProduct_bigInt w) in Hp as [-> _]. cbn.
  rewrite IH. cbn. eauto.
Qed.

(** The loop returns when every batch can be built and the ledger
    confirms every transaction the loop submits. *)
Lemma processBatches_returns (batches : list (list Recipient)) (i : nat) :
  Forall (Forall answered) batches ->
  (forall j tx,
     BatchSubmitted j tx ∈ (process i batches).2 ->
     exists signature, sendAndConfirmTransaction w j tx = Returned signature) ->
  exists txIds, (process i batches).1 = Returned txIds.
Proof.
  intros Hall. revert i.
  induction Hall as [|batch rest Hbatch _ IH]; intros i; cbn [processBatches];
    [eauto|].
  destruct (batchTransaction_returns i batch Hbatch) as [tx ->].
  destruct (sendAndConfirmTransaction w i tx) as [signature|m] eqn:Hsend.
  - specialize (IH (S i)).
    destruct (process (S i) rest) as [r evs]. cbn in *.
    intros Hconfirmed. destruct IH as [txIds ->]; [|cbn; eauto].
    intros j tx' Hin. apply Hconfirmed. by apply elem_of_cons; right.
  - cbn. intros Hconfirmed.
    destruct (Hconfirmed i tx) as [signature Hsig]; [by apply elem_of_cons; left|].
    congruence.
Qed.

End EngineLiveness.

Lemma orNum_Some_zero (q : Q) : (Js.orNum (Some q) 0 == q)%Q.
Proof.
  unfold Js.orNum. destruct (Qeq_bool q 0) eqn:Hz; [|reflexivity].
  apply Qeq_bool_iff in Hz. by rewrite Hz.
Qed.

Lemma exactProduct_Qeq (a a' b : Q) (product : Z) :
  (a == a')%Q -> exactProduct a' b product -> exactProduct a b product.
Proof.
  intros Heq (x & y & Ha & Hrest). exists x, y. split; [|exact Hrest].
  by rewrite Heq.
Qed.

(** X16. With every prerequisite met (a non-empty registry where each
    employee has an amount, a connected wallet, a token, HELIUS_API_KEY set)
    and a ledger that answers this run (the mint and the employees'
    addresses are keys, their token accounts can be derived, the sender's
    token account exists, every amount times ten to the decimals is an
    exact product of integers, and every transaction the run submits is
    confirmed), start_airdrop completes: it reports success and stores the
    status started, completed, successful = number of employees,
    failed = 0. *)
Theorem start_airdrop_completes (w : World) (st : ServerState) :
  employees st <> [] ->
  connectedWallet st <> None ->
  missingAmounts (employees st) = false ->
  Js.truthyStr (HELIUS_API_KEY w) = true ->
  ledgerAnswers w st ->
  let out := callTool w start_airdrop st in
  let completedNow :=
    {| started := true; completed := true;
       successful := length (employees st); failed := 0 |} in
  completion out = Return Summary
  /\ state out = setAirdropStatus completedNow st
  /\ airdropStatus (state out) = completedNow.
Proof.
  intros Hemp Hwallet Hamounts Hkey
    (token & mpk & sta & Htoken & Hmint & Hsta & [u Hsender] & Hall & Hconfirmed).
  cbv zeta. rewrite callTool_start_airdrop in *.
  revert Hconfirmed. unfold handleStartAirdrop.
  destruct (employees st) as [|e0 l] eqn:He; [contradiction|].
  destruct (connectedWallet st); [|contradiction].
  rewrite Htoken, Hamounts, Hkey. cbn [negb].
  unfold sendCompressedAirdrop. rewrite Hmint, Hsta, Hsender.
  pose proof (processBatches_returns w (keypairGenerate w) mpk sta 0
                (decimals token) (makeBatches (map recipientOf (e0 :: l))) 0)
    as Hret.
  destruct (processBatches _ _ _ _ _ _ 0 _) as [r evs]. cbn [fst snd] in *.
  intros Hconfirmed. destruct Hret as [txIds ->].
  - apply Forall_concat. unfold makeBatches.
    rewrite concat_batchesFrom, drop_0. apply Forall_fmap.
    eapply Forall_impl; [exact Hall|].
    intros e [Hkeys [product Hproduct]]. split; [exact Hkeys|].
    exists product. unfold recipientOf. cbn [amount].
    eapply exactProduct_Qeq; [apply orNum_Some_zero | exact Hproduct].
  - intros j tx Hin. apply Hconfirmed.
    destruct r; cbn; by apply elem_of_cons; right.
  - cbn. unfold completedStatus. rewrite He. repeat split.
Qed.

Lemma start_airdrop_completes_witness :
  completed
    (airdropStatus
       (state (callTool (simulatedWorld (Thrown "no file") alwaysConfirmed)
                 start_airdrop
                 (readyState [sampleEmployee "a" None (Some 100%Q)]))))
  = true.
Proof.
  assert (H := start_airdrop_completes
                 (simulatedWorld (Thrown "no file") alwaysConfirmed)
                 (readyState [sampleEmployee "a" None (Some 100%Q)])).
  cbv zeta in H. destruct H as (_ & _ & Hstatus).
  - discriminate.
  - discriminate.
  - reflexivity.
  - reflexivity.
  - exists sampleToken, "MintRWD", "GeneratedKeypair/MintRWD".
    split; [reflexivity|]. split; [reflexivity|]. split; [reflexivity|].
    split; [by exists tt|]. split.
    + constructor; [|constructor]. split.
      * exists "wallet:a", "wallet:a/MintRWD". split; reflexivity.
      * exists 100000000000%Z. exists 100%Z, 1000000000%Z.
        repeat split; try reflexivity; try lia.
    + intros j tx _. exists "signature". reflexivity.
  - rewrite Hstatus. reflexivity.
Defined.

(** ** Custody provider *)

Lemma mapWallets_Forall (P : Employee -> Prop) (f : nat -> string -> Employee)
    (i : nat) (emails : list string) :
  (forall k e, P (f k e)) -> Forall P (mapWallets f i emails).
Proof.
  intros Hf. revert i. induction emails as [|e rest IH]; intros i; cbn;
    constructor; [apply Hf | apply IH].
Qed.

(** X17. With an API key that does not start with ck_ or sk_, or that names
    none of the environments development, staging, production, wallet
    creation never contacts the custody provider and never fails: it
    returns one record per email, in order, each with a simulated address
    that starts with the word wallet. *)
Theorem createCustodialWallets_simulated (w : World) (apiKey : string)
    (emails : list string) :
  (JsString.startsWith apiKey "ck_" = false /\ JsString.startsWith apiKey "sk_" = false)
  \/ (JsString.includes apiKey "development" = false
      /\ JsString.includes apiKey "staging" = false
      /\ JsString.includes apiKey "production" = false) ->
  exists wallets,
    createCustodialWallets w apiKey emails = Returned wallets
    /\ map email wallets = emails
    /\ Forall (fun e => JsString.startsWith (walletAddress e) "wallet" = true) wallets
    /\ forall w', mathRandom w' = mathRandom w ->
         createCustodialWallets w' apiKey emails = Returned wallets.
Proof.
  intros Hkey.
  assert (Hsim : simulatedCustody apiKey = true).
  { unfold simulatedCustody. destruct Hkey as [[-> ->]|(-> & -> & ->)];
      [reflexivity | apply orb_true_r]. }
  unfold createCustodialWallets. rewrite Hsim. eexists. split; [reflexivity|].
  split; [by apply mapWallets_emails|]. split.
  - apply mapWallets_Forall. intros k e. cbn.
    unfold JsString.startsWith. by destruct (mathRandom w k).
  - intros w' ->. reflexivity.
Qed.

Lemma createCustodialWallets_simulated_witness :
  exists wallets,
    createCustodialWallets (simulatedWorld (Thrown "no file") alwaysConfirmed)
      "my-key" ["a@x.com"] = Returned wallets
    /\ map email wallets = ["a@x.com"].
Proof.
  destruct (createCustodialWallets_simulated
              (simulatedWorld (Thrown "no file") alwaysConfirmed)
              "my-key" ["a@x.com"]) as (wallets & H1 & H2 & _).
  - left. split; reflexivity.
  - exists wallets. split; assumption.
Defined.

(** X18. connect_crossmint_wallet with a well-formed email and a non-empty
    API key always succeeds, whatever the custody provider answers: the
    wallet is connected with a balance of one SOL, under the provider's
    address when it answered and under a simulated address starting with
    crossmint_ when it failed. *)
Theorem connect_crossmint_wallet_never_fails (w : World) (email key : string)
    (st : ServerState) :
  zodIsEmail w email = true ->
  key <> "" ->
  let out := callTool w (connect_crossmint_wallet email (Some key)) st in
  completion out = Return Summary
  /\ exists publicKey,
       connectedWallet (state out)
       = Some {| publicKey := publicKey; solBalance := 1 |}
       /\ (custodialAddress w key email = Returned publicKey
           \/ ((exists m, custodialAddress w key email = Thrown m)
               /\ JsString.startsWith publicKey "crossmint_" = true)).
Proof.
  intros Hemail Hkey. cbv zeta.
  unfold callTool. cbn [dispatch]. unfold handleConnectCrossmintWallet.
  rewrite Hemail. cbn [negb]. apply String.eqb_neq in Hkey. rewrite Hkey.
  destruct (custodialAddress w key email) as [publicKey|m]; cbn.
  - split; [reflexivity|]. eexists. split; [reflexivity|]. by left.
  - split; [reflexivity|]. eexists. split; [reflexivity|]. right.
    split; [eauto|]. unfold JsString.startsWith. cbn.
    by destruct (mathRandom w 0).
Qed.

Lemma connect_crossmint_wallet_never_fails_witness :
  completion
    (callTool (simulatedWorld (Thrown "no file") alwaysConfirmed)
       (connect_crossmint_wallet "hr@x.com" (Some "ck_key")) initialState)
  = Return Summary.
Proof.
  refine (proj1 (connect_crossmint_wallet_never_fails
                   (simulatedWorld (Thrown "no file") alwaysConfirmed)
                   "hr@x.com" "ck_key" initialState _ _)).
  - reflexivity.
  - discriminate.
Defined.

(** ** Well-formed tokens and amounts in every reachable state *)

Lemma callTool_tokenWellFormed (w : World) (request : Request) (st : ServerState) :
  tokenWellFormed st -> tokenWellFormed (state (callTool w request st)).
Proof.
  intros Hst.
  pose proof (callTool_frame w request st) as (_ & Ht & _). cbv zeta in Ht.
  rewrite state_callTool in *. unfold tokenWellFormed in *.
  destruct request; cbn [dispatch] in *; try (rewrite Ht; exact Hst).
  unfold handleCreateToken, throws, returns.
  destruct (connectedWallet st); [|exact Hst].
  destruct (zodPositive supply0) eqn:Hsupply; [|exact Hst]. cbn [negb].
  destruct (Qle_bool 0 _ && Qle_bool _ 9) eqn:Hdec; [|exact Hst]. cbn [negb].
  destruct (deployToken _ _ _ _ _ _) as [mint|m]; [|exact Hst].
  destruct (String.eqb mint "") eqn:Hmint; [exact Hst|].
  cbn. intros token Heq. injection Heq as <-. cbn.
  apply zodPositive_true in Hsupply.
  apply andb_true_iff in Hdec as [Hlo Hhi].
  apply Qle_bool_iff in Hlo, Hhi. apply String.eqb_neq in Hmint.
  repeat split; assumption.
Qed.

(** X19. In every state a session reaches from the initial state the
    stored token, if any, has a positive supply, a number of decimals
    between 0 and 9 and a non-empty mint address: create_token stores
    nothing when its arguments fail these checks or the deployment returns
    no address. *)
Theorem reachable_tokenWellFormed (w : World) (requests : list Request) :
  tokenWellFormed (runTools w requests initialState).
Proof.
  unfold runTools.
  assert (Hinit : tokenWellFormed initialState) by (intros token [=]).
  revert Hinit. generalize initialState as st.
  induction requests as [|request rest IH]; intros st Hst; cbn [foldl];
    [exact Hst|].
  apply IH. by apply callTool_tokenWellFormed.
Qed.

Lemma callTool_amountsPositive (w : World) (request : Request) (st : ServerState) :
  amountsPositive st -> amountsPositive (state (callTool w request st)).
Proof.
  intros Hst.
  pose proof (callTool_frame w request st) as (_ & _ & He & _). cbv zeta in He.
  rewrite state_callTool in *. unfold amountsPositive in *.
  destruct request; cbn [dispatch] in *; try (rewrite He; exact Hst).
  - (* generate_wallets *)
    unfold handleGenerateWallets, throws, returns.
    destruct (connectedWallet st); [|exact Hst].
    destruct (negb (Js.truthyStr apiKey)); [exact Hst|].
    destruct (length _ =? 0)%nat; [exact Hst|].
    destruct (createCustodialWallets _ _ _) as [wallets|m] eqn:Hwallets;
      [|exact Hst].
    cbn. apply createCustodialWallets_fresh in Hwallets.
    eapply Forall_impl; [exact Hwallets|].
    intros e (_ & _ & Hnone) a Ha. congruence.
  - (* upload_csv *)
    unfold handleUploadCsv, importRecords, throws, returns.
    destruct (readCsv w filePath) as [records|m]; [|exact Hst].
    destruct records as [|first rest] eqn:Hrecords; [exact Hst|].
    rewrite <- Hrecords. clear Hrecords.
    destruct (csvEmail first); [|exact Hst].
    destruct (updateRecords _ records) as [e|updated] eqn:Hrows; [exact Hst|].
    cbn. apply updateRecords_accepted in Hrows.
    induction Hrows as [|record u records updated Hu _ IH]; constructor;
      [|exact IH].
    apply updateRecord_accepted in Hu
      as (recordEmail & existing & _ & _ & Hlook & _ & _ & Hamount & _).
    apply employeesByEmail_Some in Hlook as [Hin _].
    rewrite Hamount. by apply (proj1 (Forall_forall _ _) Hst existing).
  - (* calculate_amounts *)
    unfold handleCalculateAmounts, throws, returns.
    destruct (employees st) as [|e0 l0] eqn:Hemp;
      [cbn; rewrite ?Hemp; exact Hst|].
    rewrite <- Hemp in Hst |- *. clear Hemp e0 l0.
    destruct (zodOptionalPositive uniformAmount) eqn:Hu; [|exact Hst].
    destruct (zodRoleAmounts roleAmounts) eqn:Hra; [|exact Hst]. cbn [negb].
    pose proof (assignAmounts_spec uniformAmount (roleTokens roleAmounts)
                  (employees st) 0) as [Hlist _].
    destruct (assignAmounts _ _ (employees st) 0) as [updated t].
    cbn in Hlist |- *. subst updated.
    apply Forall_forall. intros e Hin.
    apply list_elem_of_fmap in Hin as (old & -> & _). cbn.
    intros a [= <-]. by apply employeeTokenAmount_positive.
Qed.

(** X20. In every state a session reaches from the initial state, every
    amount stored in the registry is positive: calculate_amounts stores
    positive amounts only, upload_csv carries the stored amounts over and
    generate_wallets stores none.  Hence the fallback amount of 100 in
    start_airdrop is never used once the amounts check has passed. *)
Theorem reachable_amountsPositive (w : World) (requests : list Request) :
  amountsPositive (runTools w requests initialState)
  /\ (missingAmounts (employees (runTools w requests initialState)) = false ->
      Forall (fun e => exists a, tokenAmount e = Some a
                                 /\ amount (recipientOf e) = Some a)
        (employees (runTools w requests initialState))).
Proof.
  assert (Hreach : amountsPositive (runTools w requests initialState)).
  { unfold runTools.
    assert (Hinit : amountsPositive initialState) by constructor.
    revert Hinit. generalize initialState as st.
    induction requests as [|request rest IH]; intros st Hst; cbn [foldl];
      [exact Hst|].
    apply IH. by apply callTool_amountsPositive. }
  split; [exact Hreach|].
  intros Hmissing. unfold amountsPositive in Hreach.
  apply Forall_forall. intros e Hin.
  pose proof (proj1 (Forall_forall _ _) Hreach e Hin) as Hpos.
  cbn beta in Hpos. destruct (tokenAmount e) as [a|] eqn:Ha.
  - exists a. split; [reflexivity|]. unfold recipientOf. cbn. rewrite Ha. cbn.
    specialize (Hpos a eq_refl).
    destruct (Qeq_bool a 0) eqn:Hz; [|reflexivity].
    apply Qeq_bool_iff in Hz. rewrite Hz in Hpos. discriminate.
  - exfalso. apply not_true_iff_false in Hmissing. apply Hmissing.
    apply missingAmounts_true. exists e. split; assumption.
Qed.

(** ** The error channel of a call *)

Lemma updateRecord_throws (m : gmap string Employee) (record : CsvRecord)
    (e : Exception) :
  updateRecord m record = inl e -> exists message, e = McpError InvalidParams message.
Proof.
  unfold updateRecord. intros H.
  repeat case_match; try discriminate; injection H as <-; eauto.
Qed.

Lemma updateRecords_throws (m : gmap string Employee) (records : list CsvRecord)
    (e : Exception) :
  updateRecords m records = inl e -> exists message, e = McpError InvalidParams message.
Proof.
  induction records as [|record rest IH]; cbn; [discriminate|].
  destruct (updateRecord m record) as [e'|u] eqn:Hu.
  - intros [= <-]. by eapply updateRecord_throws.
  - destruct (updateRecords m rest) as [e'|more]; [|discriminate].
    intros [= <-]. by apply IH.
Qed.

(** X21. A call throws nothing but protocol errors: whatever a handler
    raises, the dispatcher lets only an McpError through (any other
    exception, a failed argument validation included, becomes an error
    result).  The code MethodNotFound stands for an unknown tool name and
    nothing else, and InvalidParams comes from upload_csv and
    generate_wallets only. *)
Theorem callTool_throws_only_McpError (w : World) (request : Request)
    (st : ServerState) (e : Exception) :
  completion (callTool w request st) = Throw e ->
  exists code message,
    e = McpError code message
    /\ (code = MethodNotFound <-> exists toolName, request = unknown_tool toolName)
    /\ (code = InvalidParams ->
        (exists filePath, request = upload_csv filePath)
        \/ (exists text apiKey, request = generate_wallets text apiKey)).
Proof.
  unfold callTool.
  destruct request; cbn [dispatch].
  13: { cbn. intros [= <-]. do 2 eexists. split; [reflexivity|].
        split; [split; eauto | discriminate]. }
  7: { (* upload_csv *)
    unfold handleUploadCsv, importRecords, throws, returns.
    destruct (readCsv w filePath) as [records|m]; cbn.
    2: { intros [= <-]. do 2 eexists. split; [reflexivity|].
         split; [split; [discriminate | intros [? [=]]] | eauto]. }
    destruct records as [|first rest] eqn:Hrecords.
    { cbn. intros [= <-]. do 2 eexists. split; [reflexivity|].
      split; [split; [discriminate | intros [? [=]]] | eauto]. }
    rewrite <- Hrecords. clear Hrecords.
    destruct (csvEmail first); cbn.
    2: { intros [= <-]. do 2 eexists. split; [reflexivity|].
         split; [split; [discriminate | intros [? [=]]] | eauto]. }
    destruct (updateRecords _ records) as [e'|updated] eqn:Hrows; cbn;
      [|discriminate].
    apply updateRecords_throws in Hrows as [message ->]. cbn.
    intros [= <-]. do 2 eexists. split; [reflexivity|].
    split; [split; [discriminate | intros [? [=]]] | eauto]. }
  all: unfold_handlers; repeat case_match; cbn; try discriminate.
  all: try (intros [= <-]; do 2 eexists; (split; [reflexivity|]);
    (split; [split; [discriminate | intros [? [=]]]
            | first [discriminate | eauto]])).
Qed.

Lemma callTool_throws_only_McpError_witness :
  exists code message,
    McpError InvalidRequest "No wallet connected. Please connect a wallet first."
    = McpError code message.
Proof.
  destruct (callTool_throws_only_McpError
              (simulatedWorld (Thrown "no file") alwaysConfirmed)
              check_balance initialState
              (McpError InvalidRequest
                 "No wallet connected. Please connect a wallet first.")
              eq_refl) as (code & message & H & _).
  exists code, message. exact H.
Defined.

(** ** The two balance checks *)

Lemma numberOfNat_nonneg (n : nat) : (0 <= numberOfNat n)%Q.
Proof.
  unfold numberOfNat. change 0%Q with (inject_Z 0).
  rewrite <- Zle_Qle. lia.
Qed.

(** X22. check_balance is the stricter of the two balance checks: whenever
    its report says the balance is sufficient (0.1 SOL per employee, one
    employee counted when the registry is empty), calculate_fees, called in
    the same state with a non-empty registry, reports sufficient funds
    too. *)
Theorem check_balance_stricter_than_fees (w : World) (st : ServerState)
    (report : BalanceReport) :
  checkBalanceReport st = Some report ->
  isSufficient report = true ->
  employees st <> [] ->
  exists fees,
    completion (callTool w calculate_fees st) = Return (FeesSummary fees true)
    /\ (totalFees fees <= requiredSol report)%Q.
Proof.
  unfold checkBalanceReport, callTool. cbn [dispatch]. unfold handleCalculateFees.
  destruct (connectedWallet st) as [wallet|]; [|discriminate].
  intros [= <-]. cbn [isSufficient requiredSol]. intros Hsuff Hemp.
  destruct (employees st) as [|e0 l0] eqn:He; [done|].
  rewrite <- He in Hsuff |- *. clear He Hemp e0 l0.
  set (n := numberOfNat (length (employees st))) in *.
  assert (Hn : (0 <= n)%Q) by apply numberOfNat_nonneg.
  assert (Hle : ((1 # 100000) * n + (5 # 1000000) * n
                 <= (1 # 10) * Js.orNum (Some n) 1)%Q).
  { unfold Js.orNum. destruct (Qeq_bool n 0) eqn:Hz.
    - apply Qeq_bool_iff in Hz. rewrite Hz. discriminate.
    - apply Qle_minus_iff.
      assert (E : ((1 # 10) * n + - ((1 # 100000) * n + (5 # 1000000) * n)
                   == (99985 # 1000000) * n)%Q) by ring.
      rewrite E.
      apply Qmult_le_0_compat; [discriminate | exact Hn]. }
  apply Qle_bool_iff in Hsuff.
  assert (Hfunds : Qle_bool ((1 # 100000) * n + (5 # 1000000) * n)
                     (solBalance wallet) = true).
  { apply Qle_bool_iff. eapply Qle_trans; [exact Hle | exact Hsuff]. }
  cbn. rewrite Hfunds. cbn. eexists. split; [reflexivity|]. exact Hle.
Qed.

Lemma check_balance_stricter_than_fees_witness :
  exists fees,
    completion
      (callTool (simulatedWorld (Thrown "no file") alwaysConfirmed) calculate_fees
         (readyState [sampleEmployee "a" None None]))
    = Return (FeesSummary fees true).
Proof.
  destruct (check_balance_stricter_than_fees
              (simulatedWorld (Thrown "no file") alwaysConfirmed)
              (readyState [sampleEmployee "a" None None])
              {| requiredSol := (1 # 10) * 1; isSufficient := true |})
    as (fees & H & _).
  - reflexivity.
  - reflexivity.
  - discriminate.
  - exists fees. exact H.
Defined.

(** ** Funding the token creator wallet: the polling loop *)

Section Polling.

Context (get : nat -> Try StatusResponse).

Lemma pollStatus_stop (current : string) (attempts : nat) :
  current = "success" \/ maxAttempts <= attempts ->
  pollStatus get current attempts = (Returned current, attempts).
Proof.
  intros Hstop. rewrite pollStatus_equation_1.
  destruct (decide (current <> "success" /\ attempts < maxAttempts)) as [[H1 H2]|H];
    [|reflexivity].
  destruct Hstop; [contradiction | lia].
Qed.

Lemma pollStatus_step (current : string) (attempts : nat) :
  current <> "success" -> attempts < maxAttempts ->
  pollStatus get current attempts
  = match get (S attempts) with
    | Thrown m => (Thrown m, S attempts)
    | Returned response =>
        if String.eqb (status response) "failed"
        then (Thrown (failureMessage response), S attempts)
        else pollStatus get (status response) (S attempts)
    end.
Proof.
  intros H1 H2. rewrite pollStatus_equation_1.
  destruct (decide (current <> "success" /\ attempts < maxAttempts)) as [H|H];
    [|exfalso; apply H; by split].
  cbn. destruct (get (S attempts)) as [response|m]; [|reflexivity].
  cbn. destruct (String.eqb (status response) "failed"); reflexivity.
Qed.

Lemma pollStatus_inv (current : string) (attempts : nat) (r : Try string) (n : nat) :
  current <> "success" -> attempts < maxAttempts ->
  pollStatus get current attempts = (r, n) ->
  attempts < n <= maxAttempts
  /\ unsettledFrom get attempts n
  /\ match r with
     | Returned s =>
         exists response,
           get n = Returned response /\ status response = s /\ s <> "failed"
           /\ (s = "success" \/ n = maxAttempts)
     | Thrown m =>
         get n = Thrown m
         \/ exists response,
              get n = Returned response /\ status response = "failed"
              /\ m = failureMessage response
     end.
Proof.
  remember (maxAttempts - attempts) as d eqn:Hd.
  revert current attempts Hd.
  induction d as [|d IH]; intros current attempts Hd Hcurrent Hlt; [lia|].
  rewrite (pollStatus_step current attempts Hcurrent Hlt).
  destruct (get (S attempts)) as [response|m] eqn:Hget.
  - destruct (String.eqb (status response) "failed") eqn:Hfailed.
    + intros [= <- <-]. apply String.eqb_eq in Hfailed.
      split; [lia|]. split; [intros k Hk; lia|]. right. eauto.
    + apply String.eqb_neq in Hfailed.
      destruct (decide (status response = "success" \/ maxAttempts <= S attempts))
        as [Hstop|Hgo].
      * rewrite (pollStatus_stop _ _ Hstop). intros [= <- <-].
        split; [lia|]. split; [intros k Hk; lia|].
        exists response. repeat split; try assumption.
        destruct Hstop; [by left | right; lia].
      * assert (Hs : status response <> "success") by tauto.
        assert (Hlt' : S attempts < maxAttempts) by lia.
        intros Hpoll.
        destruct (IH (status response) (S attempts) ltac:(lia) Hs Hlt' Hpoll)
          as (Hn & Hbefore & Hlast).
        split; [lia|]. split; [|exact Hlast].
        intros k Hk. destruct (decide (k = S attempts)) as [->|Hne].
        -- exists response. by repeat split.
        -- apply Hbefore. lia.
  - intros [= <- <-]. split; [lia|]. split; [intros k Hk; lia|]. by left.
Qed.

Lemma pollStatus_confirmed (current : string) (attempts n : nat) :
  current <> "success" -> attempts < n <= maxAttempts ->
  unsettledFrom get attempts n ->
  (exists response, get n = Returned response /\ status response = "success") ->
  pollStatus get current attempts = (Returned "success", n).
Proof.
  intros Hcurrent Hn Hbefore (last & Hlast & Hsuccess).
  remember (n - attempts) as d eqn:Hd.
  revert current attempts Hd Hcurrent Hn Hbefore.
  induction d as [|d IH]; intros current attempts Hd Hcurrent Hn Hbefore; [lia|].
  rewrite (pollStatus_step current attempts Hcurrent ltac:(lia)).
  destruct (decide (S attempts = n)) as [<-|Hne].
  - rewrite Hlast, Hsuccess. cbn.
    apply pollStatus_stop. by left.
  - destruct (Hbefore (S attempts) ltac:(lia)) as (response & -> & Hs & Hf).
    apply String.eqb_neq in Hf. rewrite Hf.
    apply IH; [lia | exact Hs | lia |].
    intros k Hk. apply Hbefore. lia.
Qed.

Lemma pollStatus_exhausted (current : string) (attempts : nat) :
  current <> "success" -> attempts < maxAttempts ->
  unsettledFrom get attempts (S maxAttempts) ->
  exists s, pollStatus get current attempts = (Returned s, maxAttempts)
            /\ s <> "success".
Proof.
  intros Hcurrent Hlt Hall.
  remember (maxAttempts - attempts) as d eqn:Hd.
  revert current attempts Hd Hcurrent Hlt Hall.
  induction d as [|d IH]; intros current attempts Hd Hcurrent Hlt Hall; [lia|].
  rewrite (pollStatus_step current attempts Hcurrent Hlt).
  destruct (Hall (S attempts) ltac:(lia)) as (response & -> & Hs & Hf).
  apply String.eqb_neq in Hf. rewrite Hf.
  destruct (decide (S attempts = maxAttempts)) as [Heq|Hne].
  - rewrite pollStatus_stop by (right; lia). rewrite Heq. eauto.
  - apply IH; [lia | exact Hs | lia |].
    intros k Hk. apply Hall. lia.
Qed.

Lemma pollStatus_failed (current : string) (attempts n : nat) (m : string) :
  current <> "success" -> attempts < n <= maxAttempts ->
  unsettledFrom get attempts n ->
  (get n = Thrown m
   \/ exists response,
        get n = Returned response /\ status response = "failed"
        /\ m = failureMessage response) ->
  pollStatus get current attempts = (Thrown m, n).
Proof.
  intros Hcurrent Hn Hbefore Hlast.
  remember (n - attempts) as d eqn:Hd.
  revert current attempts Hd Hcurrent Hn Hbefore.
  induction d as [|d IH]; intros current attempts Hd Hcurrent Hn Hbefore; [lia|].
  rewrite (pollStatus_step current attempts Hcurrent ltac:(lia)).
  destruct (decide (S attempts = n)) as [<-|Hne].
  - destruct Hlast as [->|(response & -> & Hfailed & ->)]; [reflexivity|].
    rewrite Hfailed. reflexivity.
  - destruct (Hbefore (S attempts) ltac:(lia)) as (response & -> & Hs & Hf).
    apply String.eqb_neq in Hf. rewrite Hf.
    apply IH; [lia | exact Hs | lia |].
    intros k Hk. apply Hbefore. lia.
Qed.

End Polling.

Lemma pollStatus_returns (get : nat -> Try StatusResponse) (s : string) (n : nat) :
  pollStatus get "pending" 0 = (Returned s, n)
  <-> (1 <= n <= maxAttempts /\ confirmedAt get n /\ s = "success")
      \/ (n = maxAttempts
          /\ (forall k, 1 <= k <= maxAttempts -> unsettled get k)
          /\ exists response, get n = Returned response /\ status response = s).
Proof.
  assert (Hpending : "pending" <> "success") by discriminate.
  assert (Hzero : 0 < maxAttempts) by (unfold maxAttempts; lia).
  split.
  - intros Hpoll.
    destruct (pollStatus_inv get _ _ _ _ Hpending Hzero Hpoll)
      as (Hn & Hbefore & response & Hget & Hstatus & Hnot & Hend).
    destruct (decide (s = "success")) as [Hs|Hs].
    + left. split; [lia|]. split; [|exact Hs]. split.
      * intros k Hk. apply Hbefore. lia.
      * exists response. split; [exact Hget | congruence].
    + right. destruct Hend as [?|Hmax]; [contradiction|].
      split; [exact Hmax|]. split; [|eauto].
      intros k Hk. destruct (decide (k = n)) as [->|Hne].
      * exists response. split; [exact Hget|]. split; congruence.
      * apply Hbefore. lia.
  - intros [(Hn & (Hbefore & Hlast) & ->)|(-> & Hall & response & Hget & Hstatus)].
    + apply pollStatus_confirmed; [exact Hpending | lia | | exact Hlast].
      intros k Hk. apply Hbefore. lia.
    + destruct (pollStatus_exhausted get "pending" 0 Hpending Hzero) as (s' & Hpoll & _).
      { intros k Hk. apply Hall. lia. }
      pose proof (pollStatus_inv get _ _ _ _ Hpending Hzero Hpoll)
        as (_ & _ & response' & Hget' & Hstatus' & _).
      rewrite Hpoll. congruence.
Qed.

Lemma pollStatus_throws (get : nat -> Try StatusResponse) (m : string) (n : nat) :
  pollStatus get "pending" 0 = (Thrown m, n)
  <-> 1 <= n <= maxAttempts /\ failedAt get n m.
Proof.
  assert (Hpending : "pending" <> "success") by discriminate.
  assert (Hzero : 0 < maxAttempts) by (unfold maxAttempts; lia).
  split.
  - intros Hpoll.
    destruct (pollStatus_inv get _ _ _ _ Hpending Hzero Hpoll)
      as (Hn & Hbefore & Hlast).
    split; [lia|]. split; [|exact Hlast].
    intros k Hk. apply Hbefore. lia.
  - intros (Hn & Hbefore & Hlast).
    apply pollStatus_failed; [exact Hpending | lia | | exact Hlast].
    intros k Hk. apply Hbefore. lia.
Qed.

Lemma pollStatus_attempts (get : nat -> Try StatusResponse) :
  1 <= (pollStatus get "pending" 0).2 <= maxAttempts.
Proof.
  destruct (pollStatus get "pending" 0) as [r n] eqn:Hpoll.
  apply pollStatus_inv in Hpoll; [cbn; lia | discriminate | unfold maxAttempts; lia].
Qed.

(** ** Funding the token creator wallet: the transfer *)

(** X24. The transfer returns the transaction id exactly when the wallet
    look-up, the key, the serialisation and the POST all return, and either
    one of the first ten status requests is the first to answer "success",
    or all ten answer with a status other than "success" and "failed": in
    that second case the id is returned although the transfer was never
    confirmed. *)
Theorem transfer_returns (api : TransferApi)
    (crossmintApiKey crossmintEmail tokenCreatorWallet : string) (amount : Q)
    (transactionId : string) :
  let locator := walletLocatorOf crossmintEmail in
  (transferFromCrossmintToTokenCreator api crossmintApiKey crossmintEmail
     tokenCreatorWallet amount).1 = Returned transactionId
  <-> exists address fromPublicKey serialized,
        transferWalletAddress api crossmintApiKey crossmintEmail = Returned address
        /\ transferPublicKey api address = Returned fromPublicKey
        /\ transferSerialize api fromPublicKey tokenCreatorWallet
             (amount * LAMPORTS_PER_SOL) = Returned serialized
        /\ transferPost api locator serialized = Returned transactionId
        /\ ((exists n, 1 <= n <= maxAttempts
                       /\ confirmedAt (transferGet api locator transactionId) n)
            \/ forall k, 1 <= k <= maxAttempts ->
                 unsettled (transferGet api locator transactionId) k).
Proof.
  cbv zeta. unfold transferFromCrossmintToTokenCreator. cbv zeta.
  destruct (transferWalletAddress api crossmintApiKey crossmintEmail)
    as [address|m] eqn:Haddress; cbn [fst].
  2: { split; [discriminate | intros (? & ? & ? & Habs & _); discriminate Habs]. }
  destruct (transferPublicKey api address) as [fromPublicKey|m] eqn:Hkey;
    cbn [fst].
  2: { split; [discriminate|].
       intros (a & f & s & [= <-] & Hk & _). congruence. }
  destruct (transferSerialize api fromPublicKey tokenCreatorWallet _)
    as [serialized|m] eqn:Hserialize; cbn [fst].
  2: { split; [discriminate|].
       intros (a & f & s & [= <-] & Hk & Hs & _).
       rewrite Hkey in Hk. injection Hk as <-. congruence. }
  destruct (transferPost api _ serialized) as [id|m] eqn:Hpost; cbn [fst].
  2: { split; [discriminate|].
       intros (a & f & s & [= <-] & Hk & Hs & Hp & _).
       rewrite Hkey in Hk. injection Hk as <-.
       rewrite Hserialize in Hs. injection Hs as <-. congruence. }
  destruct (pollStatus _ "pending" 0) as [last n] eqn:Hpoll. cbn [fst].
  split.
  - destruct last as [s|m]; [|discriminate]. intros [= <-].
    exists address, fromPublicKey, serialized. repeat split; try assumption.
    apply pollStatus_returns in Hpoll
      as [(Hn & Hconfirmed & _)|(_ & Hall & _)]; [left; eauto | by right].
  - intros (a & f & s & [= <-] & Hk & Hs & Hp & Hpolls).
    rewrite Hkey in Hk. injection Hk as <-.
    rewrite Hserialize in Hs. injection Hs as <-.
    rewrite Hpost in Hp. injection Hp as <-.
    destruct Hpolls as [(k & Hk & Hconfirmed)|Hall].
    + assert (Hr : pollStatus (transferGet api (walletLocatorOf crossmintEmail) id)
                     "pending" 0 = (Returned "success", k)).
      { apply pollStatus_returns. left.
        split; [exact Hk|]. split; [exact Hconfirmed | reflexivity]. }
      rewrite Hr in Hpoll. by injection Hpoll as <- <-.
    + destruct (Hall maxAttempts ltac:(unfold maxAttempts; lia))
        as (response & Hget & _).
      assert (Hr : pollStatus (transferGet api (walletLocatorOf crossmintEmail) id)
                     "pending" 0 = (Returned (status response), maxAttempts)).
      { apply pollStatus_returns. right. split; [reflexivity|]. split; eauto. }
      rewrite Hr in Hpoll. by injection Hpoll as <- <-.
Qed.

(** X25. Nothing is posted when the wallet look-up, the key or the
    serialisation fails: the transfer then throws that step's error under
    its prefix and has made no request.  Otherwise it posts exactly one
    transaction, of amount times 10^9 lamports for the wallet locator of
    the email; when the POST throws, no status is requested and the POST's
    error is thrown under the prefix; when it returns, the status is
    requested between one and ten times, in order, as long as the polling
    loop runs, and any error thrown carries the prefix. *)
Theorem transfer_events (api : TransferApi)
    (crossmintApiKey crossmintEmail tokenCreatorWallet : string) (amount : Q) :
  let out := transferFromCrossmintToTokenCreator api crossmintApiKey
               crossmintEmail tokenCreatorWallet amount in
  let locator := walletLocatorOf crossmintEmail in
  let posted := TransferPosted locator (amount * LAMPORTS_PER_SOL) in
  match transferSetup api crossmintApiKey crossmintEmail tokenCreatorWallet
          amount with
  | Thrown m =>
      out = (Thrown ("Failed to transfer SOL from Crossmint wallet: " ++ m), [])
  | Returned serialized =>
      match transferPost api locator serialized with
      | Thrown m =>
          out = (Thrown ("Failed to transfer SOL from Crossmint wallet: " ++ m),
                 [posted])
      | Returned transactionId =>
          exists n,
            1 <= n <= maxAttempts
            /\ (pollStatus (transferGet api locator transactionId) "pending" 0).2
               = n
            /\ out.2 = posted :: map StatusPolled (seq 1 n)
            /\ forall m, out.1 = Thrown m ->
                 JsString.startsWith m
                   "Failed to transfer SOL from Crossmint wallet: " = true
      end
  end.
Proof.
  cbv zeta.
  unfold transferSetup, transferFromCrossmintToTokenCreator. cbv zeta.
  destruct (transferWalletAddress api crossmintApiKey crossmintEmail)
    as [address|m]; cbn [tryBind]; [|reflexivity].
  destruct (transferPublicKey api address) as [fromPublicKey|m]; cbn [tryBind];
    [|reflexivity].
  destruct (transferSerialize api fromPublicKey tokenCreatorWallet _)
    as [serialized|m]; [|reflexivity].
  destruct (transferPost api _ serialized) as [id|m]; [|reflexivity].
  pose proof (pollStatus_attempts
                (transferGet api (walletLocatorOf crossmintEmail) id)) as Hn.
  destruct (pollStatus _ "pending" 0) as [last n]. cbn [fst snd] in *.
  exists n. split; [exact Hn|]. split; [reflexivity|]. split; [reflexivity|].
  destruct last; [discriminate|]. intros ? [= <-].
  unfold JsString.startsWith. cbn. by destruct message.
Qed.

(** X26. Once the transaction is posted, the transfer fails exactly when one
    of the first ten status requests is the first to throw or to answer
    "failed", every earlier answer being unsettled: no status is requested
    after it, and the error carries the request's own message or the one
    built from the reported error (the insufficient-balance text when a log
    line mentions insufficient lamports). *)
Theorem transfer_fails (api : TransferApi)
    (crossmintApiKey crossmintEmail tokenCreatorWallet : string) (amount : Q)
    (address fromPublicKey serialized transactionId m : string) (n : nat) :
  let locator := walletLocatorOf crossmintEmail in
  let lamports := (amount * LAMPORTS_PER_SOL)%Q in
  transferWalletAddress api crossmintApiKey crossmintEmail = Returned address ->
  transferPublicKey api address = Returned fromPublicKey ->
  transferSerialize api fromPublicKey tokenCreatorWallet lamports
  = Returned serialized ->
  transferPost api locator serialized = Returned transactionId ->
  transferFromCrossmintToTokenCreator api crossmintApiKey crossmintEmail
    tokenCreatorWallet amount
  = (Thrown ("Failed to transfer SOL from Crossmint wallet: " ++ m),
     TransferPosted locator lamports :: map StatusPolled (seq 1 n))
  <-> 1 <= n <= maxAttempts /\ failedAt (transferGet api locator transactionId) n m.
Proof.
  cbv zeta. intros Haddress Hkey Hserialized Hpost.
  unfold transferFromCrossmintToTokenCreator. cbv zeta.
  rewrite Haddress, Hkey, Hserialized, Hpost.
  rewrite <- pollStatus_throws.
  destruct (pollStatus _ "pending" 0) as [last k]. split.
  - destruct last as [s|m']; [discriminate|].
    intros [= Hm Hpolls]. apply (f_equal length) in Hpolls.
    rewrite !length_map, !length_seq in Hpolls.
    apply String.app_inj in Hm. congruence.
  - intros [= -> ->]. reflexivity.
Qed.

Lemma transfer_fails_witness :
  1 <= 1 <= maxAttempts
  /\ failedAt
       (transferGet (steadyApi {| status := "failed"; error := None |})
          (walletLocatorOf "hr@x.com") "id-1")
       1 "Transaction failed: {}".
Proof.
  apply (proj1 (transfer_fails
                  (steadyApi {| status := "failed"; error := None |})
                  "ck_key" "hr@x.com" "creator" 1
                  "wallet:hr@x.com" "wallet:hr@x.com" "tx" "id-1"
                  "Transaction failed: {}" 1
                  eq_refl eq_refl eq_refl eq_refl)).
  reflexivity.
Defined.

(** ** Token deployment *)

Lemma deployToken_failure_prefix (m : string) :
  JsString.startsWith ("Token deployment failed: " ++ m) "Token deployment failed: "
  = true.
Proof. unfold JsString.startsWith. cbn. by destruct m. Qed.

(** X27. A deployment submits at most one transaction, signed by the payer
    and the fresh mint key.  The transaction creates and initialises the
    mint account with the requested decimals and the payer as both
    authorities; for a positive supply it goes on to create the payer's
    token account and to mint into it a quantity that fits a u64, which is
    supply times ten to the power decimals whenever both are non-negative
    integers whose product is below 2^53 (the product of the code is then
    exact); for any other supply it stops there.  The deployment returns
    the mint key, and only after a submission from a payer holding at least
    0.05 SOL; every error it throws carries the deployment prefix. *)
Theorem deployToken_transaction (w : World) (l : MintLedger)
    (payer name symbol : string) (supply decimals : Q) :
  let out := Ledger.deployToken w l payer name symbol supply decimals in
  let mint := mintKeypair l in
  (out.2 = []
   \/ exists lamports rest,
        out.2 = [{| instructions :=
                      CreateAccount payer mint lamports
                      :: InitializeMint mint decimals payer payer :: rest;
                    signers := [payer; mint] |}]
        /\ getMinimumBalanceForRentExemptMint l = Returned lamports
        /\ ((supply <= 0)%Q /\ rest = []
            \/ (0 < supply)%Q
               /\ exists account quantity,
                    getAssociatedTokenAddress w mint payer = Returned account
                    /\ rest = [CreateTokenAccount payer account payer mint;
                               MintTo mint account payer quantity]
                    /\ (0 <= quantity < 2 ^ 64)%Z
                    /\ forall product,
                         exactProduct supply (mathPow10 w decimals) product ->
                         quantity = product))
  /\ (forall address, out.1 = Returned address ->
        address = mint /\ out.2 <> []
        /\ exists balance, getBalance w payer = Returned balance
                           /\ (Ledger.minimumBalance <= balance)%Q)
  /\ (forall m, out.1 = Thrown m ->
        JsString.startsWith m "Token deployment failed: " = true).
Proof.
  cbv zeta. unfold Ledger.deployToken. cbv zeta.
  destruct (getBalance w payer) as [balance|m]; cbn [fst snd].
  2: { split; [by left|]. split; [discriminate|].
       intros ? [= <-]. apply deployToken_failure_prefix. }
  destruct (Qle_bool Ledger.minimumBalance balance) eqn:Hbalance; cbn [negb fst snd].
  2: { split; [by left|]. split; [discriminate|].
       intros ? [= <-]. apply deployToken_failure_prefix. }
  apply Qle_bool_iff in Hbalance.
  destruct (getMinimumBalanceForRentExemptMint l) as [lamports|m]; cbn [fst snd].
  2: { split; [by left|]. split; [discriminate|].
       intros ? [= <-]. apply deployToken_failure_prefix. }
  destruct (Qle_bool supply 0) eqn:Hsupply; cbn [negb].
  - apply Qle_bool_iff in Hsupply.
    destruct (sendAndConfirmMint l _) as [signature|m]; cbn [fst snd].
    + split; [|split].
      * right. exists lamports, []. split; [reflexivity|].
        split; [reflexivity|]. by left.
      * intros ? [= <-]. repeat split; [discriminate | eauto].
      * discriminate.
    + split; [|split].
      * right. exists lamports, []. split; [reflexivity|].
        split; [reflexivity|]. by left.
      * discriminate.
      * intros ? [= <-]. apply deployToken_failure_prefix.
  - assert (Hpos : (0 < supply)%Q).
    { apply Qnot_le_lt. intros Hle. apply Qle_bool_iff in Hle. congruence. }
    destruct (getAssociatedTokenAddress w (mintKeypair l) payer)
      as [account|m] eqn:Haccount; cbn [tryBind fst snd].
    2: { split; [by left|]. split; [discriminate|].
         intros ? [= <-]. apply deployToken_failure_prefix. }
    unfold createMintToInstruction.
    destruct (bigInt w (supply * mathPow10 w decimals)) as [value|m] eqn:Hvalue;
      cbn [tryBind fst snd].
    2: { split; [by left|]. split; [discriminate|].
         intros ? [= <-]. apply deployToken_failure_prefix. }
    assert (Hquantity :
              (0 <= u64 w value < 2 ^ 64)%Z
              /\ forall product,
                   exactProduct supply (mathPow10 w decimals) product ->
                   u64 w value = product).
    { split; [apply u64_range|]. intros product Hproduct.
      apply (exactProduct_bigInt w) in Hproduct as [Hbig Hfits]. congruence. }
    destruct (sendAndConfirmMint l _) as [signature|m]; cbn [fst snd].
    + split; [|split].
      * right. eexists lamports, _. split; [reflexivity|].
        split; [reflexivity|]. right. split; [exact Hpos|].
        exists account, (u64 w value). split; [reflexivity|].
        split; [reflexivity | exact Hquantity].
      * intros ? [= <-]. repeat split; [discriminate | eauto].
      * discriminate.
    + split; [|split].
      * right. eexists lamports, _. split; [reflexivity|].
        split; [reflexivity|]. right. split; [exact Hpos|].
        exists account, (u64 w value). split; [reflexivity|].
        split; [reflexivity | exact Hquantity].
      * discriminate.
      * intros ? [= <-]. apply deployToken_failure_prefix.
Qed.

(** X28. create_token pays from a freshly generated key.  When the ledger
    reports less than 0.05 SOL for that key, the deployment submits
    nothing, and a create_token call whose arguments pass validation fails
    with an InternalError that names the insufficient balance and leaves
    the state, the stored token included, as it was. *)
Theorem create_token_unfunded_payer (w : World) (l : MintLedger)
    (name symbol : string) (supply : Q) (decimalsArg : option Q)
    (st : ServerState) (wallet : ConnectedWallet) (balance : Q) :
  let decimals := match decimalsArg with Some d => d | None => 9%Q end in
  connectedWallet st = Some wallet ->
  (0 < supply)%Q ->
  (0 <= decimals <= 9)%Q ->
  getBalance w (keypairGenerate w) = Returned balance ->
  (balance < (5 # 100) * LAMPORTS_PER_SOL)%Q ->
  let out := callTool (withLedger w l) (create_token name symbol supply decimalsArg) st in
  completion out
  = Throw (McpError InternalError
             ("Token creation failed: Token deployment failed: Insufficient balance: "
              ++ numberToString w (balance / LAMPORTS_PER_SOL)
              ++ " SOL. Need at least 0.05 SOL."))
  /\ state out = st
  /\ (Ledger.deployToken w l (keypairGenerate w) name symbol supply decimals).2 = [].
Proof.
  cbv zeta. intros Hwallet Hsupply [Hlo Hhi] Hbalance Hlow.
  assert (Hdeploy :
            Ledger.deployToken w l (keypairGenerate w) name symbol supply
              (match decimalsArg with Some d => d | None => 9%Q end)
            = (Thrown ("Token deployment failed: "
                       ++ ("Insufficient balance: "
                           ++ numberToString w (balance / LAMPORTS_PER_SOL)
                           ++ " SOL. Need at least 0.05 SOL.")), [])).
  { unfold Ledger.deployToken. cbv zeta. rewrite Hbalance.
    assert (Hb : Qle_bool Ledger.minimumBalance balance = false).
    { apply not_true_is_false. intros Hle. apply Qle_bool_iff in Hle.
      apply Qle_not_lt in Hle. apply Hle. exact Hlow. }
    rewrite Hb. reflexivity. }
  split; [|split].
  - unfold callTool. cbn [dispatch]. unfold handleCreateToken.
    rewrite Hwallet.
    apply zodPositive_true in Hsupply. rewrite Hsupply. cbn [negb].
    apply Qle_bool_iff in Hlo, Hhi. rewrite Hlo, Hhi. cbn [andb negb].
    cbn [withLedger deployToken keypairGenerate]. rewrite Hdeploy. reflexivity.
  - rewrite state_callTool. cbn [dispatch]. unfold handleCreateToken.
    rewrite Hwallet.
    apply zodPositive_true in Hsupply. rewrite Hsupply. cbn [negb].
    apply Qle_bool_iff in Hlo, Hhi. rewrite Hlo, Hhi. cbn [andb negb].
    cbn [withLedger deployToken keypairGenerate]. rewrite Hdeploy. reflexivity.
  - rewrite Hdeploy. reflexivity.
Qed.

Lemma create_token_unfunded_payer_witness :
  state
    (callTool
       (withLedger
          (withBalance (simulatedWorld (Thrown "no file") alwaysConfirmed)
             (fun _ => Returned 0%Q))
          sampleLedger)
       (create_token "Reward" "RWD" 1000 None) (readyState []))
  = readyState [].
Proof.
  refine (proj1 (proj2 (create_token_unfunded_payer
                          (withBalance
                             (simulatedWorld (Thrown "no file") alwaysConfirmed)
                             (fun _ => Returned 0%Q))
                          sampleLedger "Reward" "RWD" 1000 None (readyState [])
                          sampleWallet 0 eq_refl _ _ eq_refl _))).
  - reflexivity.
  - split; discriminate.
  - reflexivity.
Defined.

(** ** Custody provider: one wallet per email *)

Lemma find_first {A} (p : A -> bool) (before : list A) (x : A) (after : list A) :
  Forall (fun y => p y = false) before -> p x = true ->
  List.find p (before ++ x :: after) = Some x.
Proof.
  intros Hbefore Hx. induction Hbefore as [|y before Hy _ IH]; cbn.
  - by rewrite Hx.
  - by rewrite Hy.
Qed.

(** X29. An existing wallet is reused: when the provider lists wallets for
    the email and one of them has a type starting with solana-, the record
    carries the address of the first such wallet (its Solana address, or
    its wallet id when that is missing), and the only request made is the
    look-up: no wallet is created. *)
Theorem custodyWallet_reuses_existing (api : CustodyApi)
    (random apiKey email : string)
    (before : list WalletData) (wallet : WalletData) (after : list WalletData) :
  let url := (walletsUrl apiKey ++ "?email=" ++ encodeURIComponent api email)%string in
  httpGetWallets api url apiKey = HttpOk (Some (before ++ wallet :: after)) ->
  Forall (fun other => isSolanaWallet other = false) before ->
  isSolanaWallet wallet = true ->
  custodyWallet api random apiKey email
  = (walletAddressOf wallet, [WalletsRequested url apiKey]).
Proof.
  cbv zeta. intros Hget Hbefore Hwallet.
  unfold custodyWallet, getCrossmintWalletByEmail. rewrite Hget.
  rewrite (find_first _ _ _ _ Hbefore Hwallet).
  rewrite length_app. cbn [length].
  replace (0 <? length before + S (length after))%nat with true
    by (symmetry; apply Nat.ltb_lt; lia).
  reflexivity.
Qed.

Lemma custodyWallet_reuses_existing_witness :
  custodyWallet
    (bareCustodyApi
       (Some [{| walletType := "evm-smart-wallet"; walletId := Some "w0";
                 solanaAddress := None |};
              {| walletType := "solana-mpc-wallet"; walletId := Some "w1";
                 solanaAddress := Some "So1anaAddress" |}]))
    "k3x9q2ab" "sk_production_key" "a@x.com"
  = (Some "So1anaAddress",
     [WalletsRequested
        "https://www.crossmint.com/api/2022-06-09/wallets?email=a@x.com"
        "sk_production_key"]).
Proof.
  apply (custodyWallet_reuses_existing
           (bareCustodyApi
              (Some [{| walletType := "evm-smart-wallet"; walletId := Some "w0";
                        solanaAddress := None |};
                     {| walletType := "solana-mpc-wallet"; walletId := Some "w1";
                        solanaAddress := Some "So1anaAddress" |}]))
           "k3x9q2ab" "sk_production_key" "a@x.com"
           [{| walletType := "evm-smart-wallet"; walletId := Some "w0";
               solanaAddress := None |}]
           {| walletType := "solana-mpc-wallet"; walletId := Some "w1";
              solanaAddress := Some "So1anaAddress" |}
           []).
  - reflexivity.
  - repeat constructor.
  - reflexivity.
Defined.

Lemma emailHash_permutation (l1 l2 : list N) :
  Permutation l1 l2 ->
  forall acc : N,
    foldl (fun acc unit => (acc + unit)%N) acc l1
    = foldl (fun acc unit => (acc + unit)%N) acc l2.
Proof.
  induction 1 as [|x l1 l2 _ IH|x y l|l1 l2 l3 _ IH1 _ IH2]; intros acc; cbn.
  - reflexivity.
  - apply IH.
  - f_equal. lia.
  - by rewrite IH1.
Qed.

(** X30. The fallback address is not unique per email.  When the look-up
    finds no wallet and the creation answers with a wallet object that has
    neither a Solana address nor a wallet id, the address stored is solana_
    followed by the hexadecimal sum of the UTF-16 code units of the email:
    two emails made of the same code units in another order get the same
    wallet address. *)
Theorem custodyWallet_fallback_collision (api : CustodyApi)
    (random apiKey email1 email2 : string) (m1 m2 : string)
    (data1 data2 : WalletData) :
  (getCrossmintWalletByEmail api apiKey email1).1 = Thrown m1 ->
  (getCrossmintWalletByEmail api apiKey email2).1 = Thrown m2 ->
  (createCrossmintWallet api apiKey (Some email1)).1 = Returned data1 ->
  (createCrossmintWallet api apiKey (Some email2)).1 = Returned data2 ->
  Js.truthyStr (walletAddressOf data1) = false ->
  Js.truthyStr (walletAddressOf data2) = false ->
  Permutation (utf16Units email1) (utf16Units email2) ->
  (custodyWallet api random apiKey email1).1 = Some (hashedAddress email1)
  /\ (custodyWallet api random apiKey email2).1
     = (custodyWallet api random apiKey email1).1.
Proof.
  intros Hfind1 Hfind2 Hnew1 Hnew2 Hbare1 Hbare2 Hperm.
  assert (Hhash : hashedAddress email2 = hashedAddress email1).
  { unfold hashedAddress, emailHash.
    by rewrite (emailHash_permutation _ _ Hperm). }
  assert (Hchain : forall email m data,
            (getCrossmintWalletByEmail api apiKey email).1 = Thrown m ->
            (createCrossmintWallet api apiKey (Some email)).1 = Returned data ->
            Js.truthyStr (walletAddressOf data) = false ->
            (custodyWallet api random apiKey email).1 = Some (hashedAddress email)).
  { intros email m data Hfind Hnew Hbare. unfold custodyWallet.
    destruct (getCrossmintWalletByEmail api apiKey email) as [found lookedUp].
    cbn in Hfind. subst found.
    destruct (createCrossmintWallet api apiKey (Some email)) as [created posted].
    cbn in Hnew. subst created. cbn. by rewrite Hbare. }
  rewrite (Hchain _ _ _ Hfind1 Hnew1 Hbare1), (Hchain _ _ _ Hfind2 Hnew2 Hbare2).
  split; [reflexivity | by rewrite Hhash].
Qed.

Lemma custodyWallet_fallback_collision_witness :
  (custodyWallet (bareCustodyApi (Some [])) "k3x9q2ab" "sk_production_key"
     "ba@x.com").1
  = (custodyWallet (bareCustodyApi (Some [])) "k3x9q2ab" "sk_production_key"
       "ab@x.com").1.
Proof.
  refine (proj2 (custodyWallet_fallback_collision
                   (bareCustodyApi (Some [])) "k3x9q2ab" "sk_production_key"
                   "ab@x.com" "ba@x.com"
                   "No Solana wallet found for email: ab@x.com"
                   "No Solana wallet found for email: ba@x.com"
                   {| walletType := "solana-mpc-wallet"; walletId := None;
                      solanaAddress := None |}
                   {| walletType := "solana-mpc-wallet"; walletId := None;
                      solanaAddress := None |}
                   eq_refl eq_refl eq_refl eq_refl eq_refl eq_refl _)).
  vm_compute. apply perm_swap.
Defined.

(** ** calculate_amounts by role, on the states a session reaches *)

Lemma callTool_rolesStored (w : World) (request : Request) (st : ServerState) :
  rolesStored st -> rolesStored (state (callTool w request st)).
Proof.
  intros Hst.
  pose proof (callTool_frame w request st) as (_ & _ & He & _). cbv zeta in He.
  rewrite state_callTool in *. unfold rolesStored in *.
  destruct request; cbn [dispatch] in *; try (rewrite He; exact Hst).
  - (* generate_wallets *)
    unfold handleGenerateWallets, throws, returns.
    destruct (connectedWallet st); [|exact Hst].
    destruct (negb (Js.truthyStr apiKey)); [exact Hst|].
    destruct (length _ =? 0)%nat; [exact Hst|].
    destruct (createCustodialWallets _ _ _) as [wallets|m] eqn:Hwallets;
      [|exact Hst].
    cbn. apply createCustodialWallets_fresh in Hwallets.
    eapply Forall_impl; [exact Hwallets|].
    intros e (_ & Hrole & _). by left.
  - (* upload_csv *)
    unfold handleUploadCsv, importRecords, throws, returns.
    destruct (readCsv w filePath) as [records|m]; [|exact Hst].
    destruct records as [|first rest] eqn:Hrecords; [exact Hst|].
    rewrite <- Hrecords. clear Hrecords.
    destruct (csvEmail first); [|exact Hst].
    destruct (updateRecords _ records) as [e|updated] eqn:Hrows; [exact Hst|].
    cbn. apply updateRecords_accepted in Hrows.
    induction Hrows as [|record u records updated Hu _ IH]; constructor;
      [|exact IH].
    by apply updateRecord_role in Hu.
  - (* calculate_amounts *)
    unfold handleCalculateAmounts, throws, returns.
    destruct (employees st) as [|e0 l0] eqn:Hemp;
      [cbn; rewrite ?Hemp; exact Hst|].
    rewrite <- Hemp in Hst |- *. clear Hemp e0 l0.
    destruct (zodOptionalPositive uniformAmount); [|exact Hst].
    destruct (zodRoleAmounts roleAmounts); [|exact Hst]. cbn [negb].
    pose proof (assignAmounts_spec uniformAmount (roleTokens roleAmounts)
                  (employees st) 0) as [Hlist _].
    destruct (assignAmounts _ _ (employees st) 0) as [updated t].
    cbn in Hlist |- *. subst updated.
    apply Forall_fmap. eapply Forall_impl; [exact Hst|]. by intros e He'.
Qed.

Lemma reachable_rolesStored (w : World) (requests : list Request) :
  rolesStored (runTools w requests initialState).
Proof.
  unfold runTools.
  assert (Hinit : rolesStored initialState) by constructor.
  revert Hinit. generalize initialState as st.
  induction requests as [|request rest IH]; intros st Hst; cbn [foldl];
    [exact Hst|].
  apply IH. by apply callTool_rolesStored.
Qed.

Lemma orNum_supplied (o : option Q) (d : Q) :
  zodOptionalPositive o = true -> Js.orNum o d = default d o.
Proof.
  destruct o as [q|]; [|reflexivity]. cbn. intros Hq.
  apply zodPositive_true in Hq.
  destruct (Qeq_bool q 0) eqn:Hz; [|reflexivity].
  apply Qeq_bool_iff in Hz. rewrite Hz in Hq. discriminate.
Qed.

(** On a stored role the amount the code chooses is the one the
    specification words. *)
Lemma employeeTokenAmount_specified (roleAmounts : option RoleAmounts)
    (employee : Employee) :
  zodRoleAmounts roleAmounts = true ->
  storedRole (role employee) ->
  employeeTokenAmount None (roleTokens roleAmounts) employee
  = specifiedAmount roleAmounts (role employee).
Proof.
  intros Hvalid Hrole. unfold employeeTokenAmount. cbn [Js.truthyNum].
  destruct roleAmounts as [ra|].
  - cbn in Hvalid.
    repeat (apply andb_true_iff in Hvalid as [Hvalid ?]).
    destruct Hrole as [-> | [-> | [-> | ->]]]; cbn [Js.truthyStr String.eqb negb];
      [reflexivity | | |].
    + rewrite (proj1 (roleTokenAmount_lower_case_roles ra "operational") eq_refl).
      cbn. by apply orNum_supplied.
    + rewrite (proj1 (proj2 (roleTokenAmount_lower_case_roles ra "developer"))
                 eq_refl).
      cbn. by apply orNum_supplied.
    + rewrite (proj2 (proj2 (roleTokenAmount_lower_case_roles ra "manager"))
                 eq_refl).
      cbn. by apply orNum_supplied.
  - destruct Hrole as [-> | [-> | [-> | ->]]]; reflexivity.
Qed.


